(** * Verification of the batch orchestrator and trace-metric extraction

    Shallow embedding of
    - the batch planner of [perftest/commands/pipeline.py] and
      [perftest/commands/test.py],
    - the run monitor of [perftest/commands/devicefarm.py],
    - the trace metric extraction and its cache of
      [perftest/analysis/trace_processor.py].

    Python integers are [Z]; Python floats are either exact dyadic numbers
    (result of the true division of two integers) or IEEE binary64 values
    ([PrimFloat]); raised exceptions are explicit results. *)

From Stdlib Require Import ZArith List Bool Lia Permutation Sorted.
From Stdlib Require Ascii String DecimalString.
From Stdlib Require Import Floats.
Import ListNotations.

Local Open Scope Z_scope.

(* ------------------------------------------------------------------ *)
(** * Python numeric primitives used by the planner *)
(* ------------------------------------------------------------------ *)

Module PyNum.

(** A finite binary64 value written as [m * 2^x]. *)
Definition dyadic : Type := (Z * Z)%type.

(** Binary exponent [e] of the positive rational [a / b]:
    [2^e <= a / b < 2^(e+1)]. *)
Definition quot_exponent (a b : Z) : Z :=
  let e0 := Z.log2 a - Z.log2 b in
  if a * 2 ^ Z.max 0 (- e0) <? b * 2 ^ Z.max 0 e0 then e0 - 1 else e0.

(** Correctly rounded (round-half-to-even) binary64 value of [a / b] for
    positive [a] and [b], as CPython's [long_true_divide] computes it: 53
    significant bits, gradual underflow below [2^-1022], [None] for the
    [OverflowError] raised when the result does not fit a float. *)
Definition round_quot (a b : Z) : option dyadic :=
  let e := quot_exponent a b in
  let x := Z.max (e - 52) (-1074) in
  let num := a * 2 ^ Z.max 0 (- x) in
  let den := b * 2 ^ Z.max 0 x in
  let q := num / den in
  let r := num mod den in
  let m := if 2 * r <? den then q
           else if den <? 2 * r then q + 1
           else if Z.even q then q else q + 1 in
  if (0 <=? x) && (2 ^ 1024 <=? m * 2 ^ x) then None else Some (m, x).

(** [a / b] on Python integers (true division).  [None] stands for
    [ZeroDivisionError] and [OverflowError]. *)
Definition int_true_divide (a b : Z) : option dyadic :=
  if b =? 0 then None
  else if a =? 0 then Some (0, 0)
  else match round_quot (Z.abs a) (Z.abs b) with
       | Some (m, x) => Some (Z.sgn a * Z.sgn b * m, x)
       | None => None
       end.

(** [math.ceil] of a finite float. *)
Definition math_ceil (f : dyadic) : Z :=
  let '(m, x) := f in
  if 0 <=? x then m * 2 ^ x else - ((- m) / 2 ^ (- x)).

(** [range(n)] *)
Definition range (n : Z) : list Z := map Z.of_nat (seq 0 (Z.to_nat n)).

(** [sum(l)] *)
Definition sum (l : list Z) : Z := fold_right Z.add 0 l.

End PyNum.

(* ------------------------------------------------------------------ *)
(** * BatchPlanner *)
(* ------------------------------------------------------------------ *)

Module BatchPlanner.
Import PyNum.

(** [num_batches = math.ceil(num_iterations / batch_size)] *)
Definition num_batches (num_iterations batch_size : Z) : option Z :=
  option_map math_ceil (int_true_divide num_iterations batch_size).

(** The loop
    [for i in range(num_batches):
         batches.append(min(batch_size, num_iterations - i * batch_size))]. *)
Definition batches_of (n num_iterations batch_size : Z) : list Z :=
  map (fun i => Z.min batch_size (num_iterations - i * batch_size)) (range n).

(** The "Calculate batches" block shared by
    [non_interactive_upload_and_test] and [schedule_test_for_pipeline]. *)
Definition plan_batches (num_iterations batch_size : Z) : option (list Z) :=
  option_map (fun n => batches_of n num_iterations batch_size)
             (num_batches num_iterations batch_size).

(** The count the specification asks for. *)
Definition ceil_div (t b : Z) : Z := (t + b - 1) / b.

End BatchPlanner.

(* ------------------------------------------------------------------ *)
(** * Python string primitives used by the extractor *)
(* ------------------------------------------------------------------ *)

Module PyStr.
Import Ascii String.
Local Open Scope string_scope.

(** [\d] on ASCII file names. *)
Definition is_digit (c : ascii) : bool :=
  let n := nat_of_ascii c in (48 <=? n)%nat && (n <=? 57)%nat.

Definition digit_value (c : ascii) : Z := Z.of_nat (nat_of_ascii c - 48).

(** [int(ds)] for a run of decimal digits. *)
Definition int_of_digits (ds : list ascii) : Z :=
  fold_left (fun acc c => 10 * acc + digit_value c) ds 0.

(** The greedy group [(\d+)]: the longest run of digits at the head. *)
Fixpoint digits_prefix (s : string) : list ascii :=
  match s with
  | String c s' => if is_digit c then c :: digits_prefix s' else []
  | EmptyString => []
  end.

(** [re.match(r'iter(\d+)', s)]: the digits of group 1. *)
Definition match_iter_here (s : string) : option (list ascii) :=
  match s with
  | String "i" (String "t" (String "e" (String "r" rest))) =>
      match digits_prefix rest with
      | [] => None
      | ds => Some ds
      end
  | _ => None
  end.

(** [re.search(r'iter(\d+)', s)]: leftmost match. *)
Fixpoint search_iter (s : string) : option (list ascii) :=
  match match_iter_here s with
  | Some ds => Some ds
  | None => match s with
            | EmptyString => None
            | String _ s' => search_iter s'
            end
  end.

(** [s.startswith(p)] *)
Definition startswith (p s : string) : bool := prefix p s.

(** [s.endswith(p)] *)
Definition endswith (p s : string) : bool :=
  let n := length s in
  let k := length p in
  (k <=? n)%nat && (substring (n - k) k s =? p).

End PyStr.

(* ------------------------------------------------------------------ *)
(** * TraceMetricExtractor and MetricsCache ([trace_processor.py]) *)
(* ------------------------------------------------------------------ *)

Module TraceProcessor.
Import Ascii String PyStr.
Local Open Scope string_scope.

(** One row of Perfetto's [slice] table, as far as the query reads it. *)
Record slice : Type := { name : string; ts : Z }.

(** What [TraceProcessor(trace=...)] finds at a path: a file it cannot
    load or query (the call raises), or a trace with its slices.
    [WorkerLost] stands for a task whose future raises instead of
    returning. *)
Inductive trace_content : Type :=
| Unloadable
| Slices (l : list slice)
| WorkerLost.

Definition PAGE_LOAD : string := "android_platform_page_load_complete".
Definition BIND_APP : string := "bindApplication".
Definition RENDER_BEGIN : string := "android_apps_tab_screen_render_begin".

(** The rows of [markers] with [rn = 1] for one name: the smallest [ts]
    among the slices of that name ([ROW_NUMBER() OVER (PARTITION BY name
    ORDER BY ts)]); [None] is SQL's [NULL] of [MAX] over no row. *)
Fixpoint first_ts (marker : string) (l : list slice) : option Z :=
  match l with
  | [] => None
  | s :: l' =>
      if (name s =? marker)%string then
        match first_ts marker l' with
        | Some t => Some (Z.min (ts s) t)
        | None => Some (ts s)
        end
      else first_ts marker l'
  end.

(** SQLite's conversion of an [INTEGER] to a [REAL] (magnitudes below
    [2^63], which covers every difference of two Perfetto timestamps). *)
Definition float_of_int64 (z : Z) : float :=
  match z with
  | Z0 => PrimFloat.zero
  | Zpos _ => PrimFloat.of_uint63 (Uint63.of_Z z)
  | Zneg p => PrimFloat.opp (PrimFloat.of_uint63 (Uint63.of_Z (Zpos p)))
  end.

(** [(a - b) / 1000000.0] *)
Definition latency_ms (a b : Z) : float :=
  PrimFloat.div (float_of_int64 (a - b)) 1000000%float.

(** [STARTUP_METRICS_QUERY]: the rows of the result, as
    [(startup_latency_ms, render_latency_ms)]. *)
Definition STARTUP_METRICS_QUERY (l : list slice) : list (float * float) :=
  match first_ts PAGE_LOAD l, first_ts BIND_APP l, first_ts RENDER_BEGIN l with
  | Some page_load_ts, Some bind_app_ts, Some render_ts =>
      [(latency_ms page_load_ts bind_app_ts, latency_ms render_ts bind_app_ts)]
  | _, _, _ => []
  end.

(** [pd.notna] on a float. *)
Definition notna (x : float) : bool := negb (PrimFloat.is_nan x).

(** [extract_startup_metrics_from_trace]: every exception is swallowed and
    turned into [None]. *)
Definition extract_startup_metrics_from_trace (c : trace_content)
  : option (float * float) :=
  match c with
  | Slices l =>
      match STARTUP_METRICS_QUERY l with
      | (startup_ms, render_ms) :: _ =>
          if notna startup_ms then Some (startup_ms, render_ms) else None
      | [] => None
      end
  | Unloadable | WorkerLost => None
  end.

(** A [Path], by its components. *)
Definition path : Type := list string.

(** [p.name] *)
Definition path_name (p : path) : string := last p "".

(** [str(p)] *)
Definition path_str (p : path) : string :=
  match p with
  | "/" :: rest => "/" ++ String.concat "/" rest
  | _ => String.concat "/" p
  end.

Record TraceMetrics : Type := {
  trace_file : string;
  iteration : Z;
  startup_latency_ms : float;
  render_latency_ms : float;
  batch : nat;
  run_arn : string
}.

(** One entry of [trace_tasks], together with what the file holds. *)
Record task : Type := {
  trace_path : path;
  batch_id : nat;
  task_run_arn : string;
  content : trace_content
}.

(** [process_single_trace] *)
Definition process_single_trace (t : task) : option TraceMetrics :=
  match search_iter (path_name (trace_path t)) with
  | None => None
  | Some ds =>
      let iter_num := int_of_digits ds in
      match extract_startup_metrics_from_trace (content t) with
      | None => None
      | Some (startup_ms, render_ms) =>
          Some {| trace_file := path_str (trace_path t);
                  iteration := iter_num;
                  startup_latency_ms := startup_ms;
                  render_latency_ms := render_ms;
                  batch := batch_id t;
                  run_arn := task_run_arn t |}
      end
  end.

(** What [future.result()] does for a task. *)
Inductive future : Type :=
| FutureRaises
| FutureResult (r : option TraceMetrics).

Definition run_task (t : task) : future :=
  match content t with
  | WorkerLost => FutureRaises
  | _ => FutureResult (process_single_trace t)
  end.

(** ** The directory *)

#[warnings="-register-all"]
Inductive node : Type :=
| File (fname : string) (c : trace_content)
| Dir (dname : string) (children : list node).

Definition node_name (n : node) : string :=
  match n with File f _ => f | Dir d _ => d end.

Definition is_dir (n : node) : bool :=
  match n with Dir _ _ => true | File _ _ => false end.

(** The snapshot file [.metrics_cache.json]: absent; present but such that
    opening, parsing or framing it raises; or a JSON array of records as
    [json.dump] writes it (reading it back gives the same rows). *)
Inductive cache_state : Type :=
| CacheAbsent
| CacheCorrupt
| CacheSnapshot (rows : list TraceMetrics).

Record directory : Type := {
  base_parts : path;
  entries : list node;
  cache_file : cache_state;
  cache_writable : bool
}.

Definition is_trace_name (n : string) : bool := endswith ".perfetto-trace" n.

(** [d.rglob('*.perfetto-trace')] below the directory [at] holding [n]:
    every entry, file or directory, whose name matches. *)
Fixpoint rglob (at_ : path) (n : node) : list (path * trace_content) :=
  match n with
  | File f c => if is_trace_name f then [((at_ ++ [f])%list, c)] else []
  | Dir d ch =>
      ((if is_trace_name d then [((at_ ++ [d])%list, Unloadable)] else [])
       ++ flat_map (rglob (at_ ++ [d])%list) ch)%list
  end.

(** [any(part.startswith('.') for part in t.parts)] *)
Definition hidden (p : path) : bool := existsb (startswith ".") p.

(** Order of [Path] objects: lexicographic on the components. *)
Fixpoint path_leb (p q : path) : bool :=
  match p, q with
  | [], _ => true
  | _ :: _, [] => false
  | a :: p', b :: q' =>
      if (a =? b)%string then path_leb p' q' else String.leb a b
  end.

Fixpoint insert_by {A : Type} (key : A -> path) (x : A) (l : list A) : list A :=
  match l with
  | [] => [x]
  | y :: l' => if path_leb (key x) (key y) then x :: l
               else y :: insert_by key x l'
  end.

(** [sorted(l)] with the paths as keys. *)
Definition sorted_by {A : Type} (key : A -> path) (l : list A) : list A :=
  fold_right (insert_by key) [] l.

(** The traces of one run folder: [sorted([t for t in rglob if not hidden])]. *)
Definition traces_under (at_ : path) (ch : list node)
  : list (path * trace_content) :=
  sorted_by fst
    (filter (fun t => negb (hidden (fst t))) (flat_map (rglob at_) ch)).

(** [run_folders]: the sub-directories named [arn...], sorted, or the
    directory itself when there is none. *)
Definition run_folders (d : directory) : list (path * list node) :=
  let subs :=
    flat_map (fun n => match n with
                       | Dir dn ch =>
                           if startswith "arn" dn
                           then [((base_parts d ++ [dn])%list, ch)] else []
                       | File _ _ => []
                       end) (entries d) in
  match sorted_by fst subs with
  | [] => [(base_parts d, entries d)]
  | fs => fs
  end.

Fixpoint enumerate_from {A : Type} (i : nat) (l : list A) : list (nat * A) :=
  match l with
  | [] => []
  | x :: l' => (i, x) :: enumerate_from (S i) l'
  end.

(** [trace_tasks] *)
Definition trace_tasks (d : directory) : list task :=
  flat_map
    (fun '(i, (folder, ch)) =>
       map (fun '(p, c) => {| trace_path := p; batch_id := i;
                              task_run_arn := path_name folder;
                              content := c |})
           (traces_under folder ch))
    (enumerate_from 0 (run_folders d)).

(** ** [load_traces_with_batches_parallel] *)

Inductive load_error : Type :=
| DirectoryDoesNotExist
| NoTraceFilesFound
| BadWorkerCount
| NoValidTraceData (failed_count : nat).

Inductive load_result : Type :=
| Frame (rows : list TraceMetrics)
| Raises (e : load_error).

(** What a call does: the value or the error, the directory afterwards,
    the tasks handed to the executor, the number printed by the warning. *)
Record load_outcome : Type := {
  result : load_result;
  dir_after : option directory;
  submitted : list task;
  warning : option nat
}.

(** The order in which [as_completed] yields the futures. *)
Definition completion_order : Type :=
  list (task * future) -> list (task * future).

(** The loop over [as_completed(futures)]. *)
Fixpoint collect (fs : list (task * future))
  : list TraceMetrics * nat :=
  match fs with
  | [] => ([], 0%nat)
  | (_, f) :: fs' =>
      let '(metrics_list, failed_count) := collect fs' in
      match f with
      | FutureResult (Some m) => (m :: metrics_list, failed_count)
      | FutureResult None => (metrics_list, S failed_count)
      | FutureRaises => (metrics_list, S failed_count)
      end
  end.

(** The part of the function after the cache lookup. *)
Definition extract_directory (order : completion_order) (d : directory)
    (max_workers : option Z) (use_cache : bool) : load_outcome :=
  let tasks := trace_tasks d in
  match tasks with
  | [] => {| result := Raises NoTraceFilesFound; dir_after := Some d;
             submitted := []; warning := None |}
  | _ :: _ =>
      if match max_workers with Some n => (n <=? 0)%Z | None => false end then
        {| result := Raises BadWorkerCount; dir_after := Some d;
           submitted := []; warning := None |}
      else
        let '(metrics_list, failed_count) :=
          collect (order (map (fun t => (t, run_task t)) tasks)) in
        match metrics_list with
        | [] => {| result := Raises (NoValidTraceData failed_count);
                   dir_after := Some d; submitted := tasks;
                   warning := None |}
        | _ :: _ =>
            {| result := Frame metrics_list;
               dir_after :=
                 Some (if use_cache && cache_writable d
                       then {| base_parts := base_parts d;
                               entries := entries d;
                               cache_file := CacheSnapshot metrics_list;
                               cache_writable := cache_writable d |}
                       else d);
               submitted := tasks;
               warning := if (0 <? failed_count)%nat
                          then Some failed_count else None |}
        end
  end.

Definition load_traces_with_batches_parallel (order : completion_order)
    (base_dir : option directory) (max_workers : option Z)
    (use_cache : bool) : load_outcome :=
  match base_dir with
  | None => {| result := Raises DirectoryDoesNotExist; dir_after := None;
               submitted := []; warning := None |}
  | Some d =>
      match use_cache, cache_file d with
      | true, CacheSnapshot cached_data =>
          {| result := Frame cached_data; dir_after := Some d;
             submitted := []; warning := None |}
      | _, _ => extract_directory order d max_workers use_cache
      end
  end.

(** [clear_cache] *)
Definition clear_cache (d : directory) : bool * directory :=
  match cache_file d with
  | CacheAbsent => (false, d)
  | _ => (true, {| base_parts := base_parts d; entries := entries d;
                   cache_file := CacheAbsent;
                   cache_writable := cache_writable d |})
  end.

(** ** Vocabulary of the statements *)

(** [t] is the timestamp of the first slice named [marker]. *)
Definition first_occurrence (marker : string) (l : list slice) (t : Z)
  : Prop :=
  (exists s, In s l /\ name s = marker /\ ts s = t) /\
  (forall s, In s l -> name s = marker -> (t <= ts s)%Z).

(** The record a task yields on its own, if any. *)
Definition future_record (f : future) : list TraceMetrics :=
  match f with
  | FutureResult (Some m) => [m]
  | _ => []
  end.

Definition future_failed (f : future) : bool :=
  match f with
  | FutureResult (Some _) => false
  | _ => true
  end.

Definition good_records (tasks : list task) : list TraceMetrics :=
  flat_map (fun t => future_record (run_task t)) tasks.

Definition failures (tasks : list task) : nat :=
  List.length (filter (fun t => future_failed (run_task t)) tasks).

(** [max_workers] is accepted by the executor. *)
Definition valid_workers (max_workers : option Z) : Prop :=
  match max_workers with
  | Some n => (0 < n)%Z
  | None => True
  end.

(** The call does not read a snapshot: caching is off, or there is no
    snapshot that can be read. *)
Definition cold (d : directory) (use_cache : bool) : Prop :=
  use_cache = false \/ forall rows, cache_file d <> CacheSnapshot rows.

(** The same directory without its snapshot file. *)
Definition without_cache (d : directory) : directory :=
  {| base_parts := base_parts d; entries := entries d;
     cache_file := CacheAbsent; cache_writable := cache_writable d |}.

(** ** Directories used as examples *)

Definition complete_trace : trace_content :=
  Slices [ {| name := BIND_APP; ts := 0 |};
           {| name := RENDER_BEGIN; ts := 2000000 |};
           {| name := PAGE_LOAD; ts := 5000000 |} ].

Definition no_render_trace : trace_content :=
  Slices [ {| name := BIND_APP; ts := 0 |};
           {| name := PAGE_LOAD; ts := 5000000 |} ].

(** Two runs; one trace lacks a marker, one has no iteration number, one
    cannot be loaded, one is in a hidden folder. *)
Definition mixed_directory (c : cache_state) (writable : bool) : directory :=
  {| base_parts := ["/"; "out"; "traces"];
     entries :=
       [ Dir "arn_run2"
           [ File "t_iter2.perfetto-trace" complete_trace;
             File "t_iter1.perfetto-trace" no_render_trace;
             Dir ".backup_traces"
               [ File "t_iter9.perfetto-trace" complete_trace ] ];
         Dir "arn_run1"
           [ File "t.perfetto-trace" complete_trace;
             File "t_iter3.perfetto-trace" complete_trace;
             File "t_iter4.perfetto-trace" Unloadable ];
         File "notes.txt" Unloadable ];
     cache_file := c;
     cache_writable := writable |}.

(** One trace, whose name carries no iteration number. *)
Definition unnamed_directory : directory :=
  {| base_parts := ["/"; "out"; "traces"];
     entries := [ File "trace.perfetto-trace" complete_trace ];
     cache_file := CacheAbsent;
     cache_writable := true |}.

Definition in_submission_order : completion_order := fun l => l.
Definition in_reverse_order : completion_order := fun l => rev l.

End TraceProcessor.

(* ------------------------------------------------------------------ *)
(** * RunMonitor ([monitor_runs_parallel_with_retry], [devicefarm.py]) *)
(* ------------------------------------------------------------------ *)

Module DeviceFarm.
Import Ascii String.
Local Open Scope string_scope.

(** ** Python dictionaries: keys in insertion order *)

Definition dict (V : Type) : Type := list (string * V).

Fixpoint dict_get {V : Type} (k : string) (d : dict V) : option V :=
  match d with
  | [] => None
  | (k', v) :: d' => if k' =? k then Some v else dict_get k d'
  end.

(** [d[k] = v]: an existing key keeps its position, a new key goes last. *)
Fixpoint dict_set {V : Type} (k : string) (v : V) (d : dict V) : dict V :=
  match d with
  | [] => [(k, v)]
  | (k', v') :: d' =>
      if k' =? k then (k, v) :: d' else (k', v') :: dict_set k v d'
  end.

(** [del d[k]] *)
Fixpoint dict_del {V : Type} (k : string) (d : dict V) : dict V :=
  match d with
  | [] => []
  | (k', v') :: d' => if k' =? k then d' else (k', v') :: dict_del k d'
  end.

Definition keys {V : Type} (d : dict V) : list string := map fst d.
Definition values {V : Type} (d : dict V) : list V := map snd d.

(** ** The registry of runs *)

Record run_info : Type := {
  batch_idx : nat;
  attempt : Z;
  status : string;
  last_status : option string;
  completed : bool
}.

(** The remote service and the operator, as the monitor meets them.  Every
    call is made at a time, the number of calls made before it.
    [get_run] gives the status of a run, [None] when the call raises;
    [download_artifacts] gives the trace files it saved;
    [schedule_test_run] gives the new run, [None] when scheduling failed;
    [keyboard_interrupt] tells whether the operator's interrupt arrives
    during the call made at that time: the monitor is interrupted where it
    waits, in a call to the service or in [time.sleep], and the call then
    has no effect on [runs] and [all_traces].  The creation of the session
    and of the client, which comes before the [try] of the loop, is not
    part of the model. *)
Record services : Type := {
  get_run : nat -> string -> option string;
  download_artifacts : nat -> string -> list string;
  schedule_test_run : nat -> string -> string -> option string;
  keyboard_interrupt : nat -> bool
}.

(** The arguments of the monitor that it reads. *)
Record request : Type := {
  test_spec_arns : list string;
  run_names : list string;
  initial_run_arns : list string;
  max_retries : Z
}.

(** The calls the monitor has made, for the statements about them. *)
Inductive event : Type :=
| GetRun (cycle : nat) (arn : string)
| Download (arn : string) (batch : nat) (at_attempt : Z)
           (files : list string)
| Schedule (cycle : nat) (batch : nat) (new_attempt : Z)
           (new_arn : option string)
| Sleep.

(** The local variables of the monitor: [runs] and [all_traces]; the time,
    the number of the poll cycle and the calls made so far, most recent
    first. *)
Record state : Type := {
  runs : dict run_info;
  all_traces : list string;
  clock : nat;
  cycle_no : nat;
  events : list event
}.

(** One call made: the time advances and the call is recorded. *)
Definition called (e : event) (st : state) : state :=
  {| runs := runs st; all_traces := all_traces st; clock := S (clock st);
     cycle_no := cycle_no st; events := e :: events st |}.

Definition with_runs (r : dict run_info) (st : state) : state :=
  {| runs := r; all_traces := all_traces st; clock := clock st;
     cycle_no := cycle_no st; events := events st |}.

Definition with_traces (t : list string) (st : state) : state :=
  {| runs := runs st; all_traces := t; clock := clock st;
     cycle_no := cycle_no st; events := events st |}.

Definition next_cycle (st : state) : state :=
  {| runs := runs st; all_traces := all_traces st; clock := clock st;
     cycle_no := S (cycle_no st); events := events st |}.

(** The [return] statements of the monitor. *)
Inductive exit : Type :=
| AllCompleted       (* return True, all_traces: every run completed *)
| RetryNotScheduled  (* return False, all_traces: the retry was not scheduled *)
| RetriesExhausted   (* return False, all_traces: no traces after max_retries *)
| Interrupted        (* return False, all_traces: except KeyboardInterrupt *)
| Fault.             (* return False, all_traces: except Exception *)

(** The value returned to the caller. *)
Definition return_value (e : exit) (st : state) : bool * list string :=
  (match e with AllCompleted => true | _ => false end, all_traces st).

Inductive flow : Type :=
| Continue (st : state)
| Return (e : exit) (st : state).

Definition state_of (fl : flow) : state :=
  match fl with Continue st => st | Return _ st => st end.

Definition is_terminal (s : string) : bool :=
  (s =? "COMPLETED") || (s =? "STOPPED").

(** The entry written for a newly scheduled run. *)
Definition fresh_run (idx : nat) (att : Z) : run_info :=
  {| batch_idx := idx; attempt := att; status := "PENDING";
     last_status := None; completed := false |}.

(** [run_info['status'] = status], and [run_info['last_status'] = status]
    when it differs. *)
Definition observe (ri : run_info) (s : string) : run_info :=
  {| batch_idx := batch_idx ri; attempt := attempt ri; status := s;
     last_status := match last_status ri with
                    | Some s' => if s' =? s then Some s' else Some s
                    | None => Some s
                    end;
     completed := completed ri |}.

(** [run_info['completed'] = True] *)
Definition mark_completed (ri : run_info) : run_info :=
  {| batch_idx := batch_idx ri; attempt := attempt ri; status := status ri;
     last_status := last_status ri; completed := true |}.

(** ** The states along one poll of a run *)

(** After [client.get_run] was called. *)
Definition queried (run_arn : string) (st : state) : state :=
  called (GetRun (cycle_no st) run_arn) st.

(** After the status was stored in the entry. *)
Definition observed (run_arn : string) (ri : run_info) (s : string)
    (st : state) : state :=
  with_runs (dict_set run_arn (observe ri s) (runs st)) (queried run_arn st).

(** After [download_artifacts] returned [files]. *)
Definition fetched (run_arn : string) (ri : run_info) (s : string)
    (files : list string) (st : state) : state :=
  called (Download run_arn (batch_idx ri) (attempt ri) files)
         (observed run_arn ri s st).

(** After [all_traces.extend(downloaded)] and the entry was completed. *)
Definition succeeded (run_arn : string) (ri : run_info) (s : string)
    (files : list string) (st : state) : state :=
  let st3 := fetched run_arn ri s files st in
  with_runs (dict_set run_arn (mark_completed (observe ri s)) (runs st3))
            (with_traces (all_traces st3 ++ files)%list st3).

(** After [schedule_test_run] returned [r] for the retry. *)
Definition rescheduled (run_arn : string) (ri : run_info) (s : string)
    (r : option string) (st : state) : state :=
  let st3 := fetched run_arn ri s [] st in
  called (Schedule (cycle_no st3) (batch_idx ri) (attempt ri + 1) r) st3.

(** After [del runs[run_arn]] and [runs[retry_run_arn] = {...}]. *)
Definition retried (run_arn : string) (ri : run_info) (s : string)
    (new_arn : string) (st : state) : state :=
  let st4 := rescheduled run_arn ri s (Some new_arn) st in
  with_runs (dict_set new_arn (fresh_run (batch_idx ri) (attempt ri + 1))
               (dict_del run_arn (runs st4))) st4.

Section Monitor.

Variable env : services.
Variable req : request.

(** The body of [for run_arn in list(runs.keys())].  A missing key would
    raise [KeyError] outside the inner [try] and reach the outer handler;
    an exception of [get_run] or of the lookups in [test_spec_arns] and
    [run_names] is caught by the inner handler, which goes on with the next
    run; a [KeyboardInterrupt] during a call reaches its own handler. *)
Definition poll_run (run_arn : string) (st : state) : flow :=
  match dict_get run_arn (runs st) with
  | None => Return Fault st
  | Some run_info =>
      if completed run_info then Continue st
      else if keyboard_interrupt env (clock st) then Return Interrupted st
      else
        match get_run env (clock st) run_arn with
        | None => Continue (queried run_arn st)
        | Some status =>
            let st2 := observed run_arn run_info status st in
            if is_terminal status then
              if keyboard_interrupt env (clock st2) then Return Interrupted st2
              else
                let downloaded := download_artifacts env (clock st2) run_arn in
                let st3 := fetched run_arn run_info status downloaded st in
                match downloaded with
                | _ :: _ =>
                    Continue (succeeded run_arn run_info status downloaded st)
                | [] =>
                    if (attempt run_info <? max_retries req + 1)%Z then
                      match nth_error (test_spec_arns req) (batch_idx run_info),
                            nth_error (run_names req) (batch_idx run_info) with
                      | Some spec, Some rname =>
                          if keyboard_interrupt env (clock st3)
                          then Return Interrupted st3
                          else
                            let retry_run_arn :=
                              schedule_test_run env (clock st3) spec rname in
                            match retry_run_arn with
                            | Some new_arn =>
                                if new_arn =? "" then
                                  Return RetryNotScheduled
                                    (rescheduled run_arn run_info status
                                       retry_run_arn st)
                                else
                                  Continue
                                    (retried run_arn run_info status new_arn st)
                            | None =>
                                Return RetryNotScheduled
                                  (rescheduled run_arn run_info status None st)
                            end
                      | _, _ => Continue st3
                      end
                    else Return RetriesExhausted st3
                end
            else Continue st2
        end
  end.

(** The [for] loop over the snapshot of the keys. *)
Fixpoint poll_runs (snapshot : list string) (st : state) : flow :=
  match snapshot with
  | [] => Continue st
  | run_arn :: rest =>
      match poll_run run_arn st with
      | Continue st' => poll_runs rest st'
      | Return e st' => Return e st'
      end
  end.

(** One turn of [while True]. *)
Definition poll_cycle (st : state) : flow :=
  if forallb completed (values (runs st)) then Return AllCompleted st
  else
    match poll_runs (keys (runs st)) st with
    | Continue st' =>
        if keyboard_interrupt env (clock st') then Return Interrupted st'
        else Continue (next_cycle (called Sleep st'))
    | Return e st' => Return e st'
    end.

(** [n] turns of the loop: [Return] when the monitor has returned by then,
    [Continue] when it is still polling. *)
Fixpoint run_cycles (n : nat) (st : state) : flow :=
  match n with
  | O => Continue st
  | S n' =>
      match poll_cycle st with
      | Continue st' => run_cycles n' st'
      | Return e st' => Return e st'
      end
  end.

End Monitor.

(** [runs] as built from [enumerate(initial_run_arns)]. *)
Fixpoint register (idx : nat) (arns : list string) (d : dict run_info)
  : dict run_info :=
  match arns with
  | [] => d
  | run_arn :: rest =>
      register (S idx) rest (dict_set run_arn (fresh_run idx 1) d)
  end.

Definition initial_state (req : request) : state :=
  {| runs := register 0 (initial_run_arns req) [];
     all_traces := []; clock := 0; cycle_no := 0; events := [] |}.

(** The monitor, observed after [n] turns of its loop. *)
Definition monitor_runs_parallel_with_retry (env : services) (req : request)
    (n : nat) : flow :=
  run_cycles env req n (initial_state req).

(** ** Reading the record of calls *)

(** A scheduling call that gave a run. *)
Definition is_retry_of (b : nat) (e : event) : bool :=
  match e with
  | Schedule _ b' _ (Some a) => Nat.eqb b' b && negb (a =? "")
  | _ => false
  end.

(** Retries scheduled for a batch. *)
Definition retries_of (b : nat) (es : list event) : nat :=
  List.length (filter (is_retry_of b) es).

(** The files of the downloads, oldest first. *)
Fixpoint downloaded_files (es : list event) : list string :=
  match es with
  | [] => []
  | Download _ _ _ files :: es' => (downloaded_files es' ++ files)%list
  | _ :: es' => downloaded_files es'
  end.

(** ** Vocabulary of the statements *)

Section Paths.

Variable env : services.
Variable req : request.

(** The paths through [poll_run], each with the conditions under which it
    is taken. *)
Inductive polled (run_arn : string) (st : state) : flow -> Prop :=
| polled_missing :
    dict_get run_arn (runs st) = None ->
    polled run_arn st (Return Fault st)
| polled_skip ri :
    dict_get run_arn (runs st) = Some ri ->
    completed ri = true ->
    polled run_arn st (Continue st)
| polled_interrupt_query ri :
    dict_get run_arn (runs st) = Some ri ->
    completed ri = false ->
    keyboard_interrupt env (clock st) = true ->
    polled run_arn st (Return Interrupted st)
| polled_query_raises ri :
    dict_get run_arn (runs st) = Some ri ->
    completed ri = false ->
    keyboard_interrupt env (clock st) = false ->
    get_run env (clock st) run_arn = None ->
    polled run_arn st (Continue (queried run_arn st))
| polled_running ri s :
    dict_get run_arn (runs st) = Some ri ->
    completed ri = false ->
    keyboard_interrupt env (clock st) = false ->
    get_run env (clock st) run_arn = Some s ->
    is_terminal s = false ->
    polled run_arn st (Continue (observed run_arn ri s st))
| polled_interrupt_download ri s :
    dict_get run_arn (runs st) = Some ri ->
    completed ri = false ->
    keyboard_interrupt env (clock st) = false ->
    get_run env (clock st) run_arn = Some s ->
    is_terminal s = true ->
    keyboard_interrupt env (S (clock st)) = true ->
    polled run_arn st (Return Interrupted (observed run_arn ri s st))
| polled_succeeded ri s f fs :
    dict_get run_arn (runs st) = Some ri ->
    completed ri = false ->
    keyboard_interrupt env (clock st) = false ->
    get_run env (clock st) run_arn = Some s ->
    is_terminal s = true ->
    keyboard_interrupt env (S (clock st)) = false ->
    download_artifacts env (S (clock st)) run_arn = f :: fs ->
    polled run_arn st (Continue (succeeded run_arn ri s (f :: fs) st))
| polled_exhausted ri s :
    dict_get run_arn (runs st) = Some ri ->
    completed ri = false ->
    keyboard_interrupt env (clock st) = false ->
    get_run env (clock st) run_arn = Some s ->
    is_terminal s = true ->
    keyboard_interrupt env (S (clock st)) = false ->
    download_artifacts env (S (clock st)) run_arn = [] ->
    (max_retries req + 1 <= attempt ri)%Z ->
    polled run_arn st (Return RetriesExhausted (fetched run_arn ri s [] st))
| polled_lookup_raises ri s :
    dict_get run_arn (runs st) = Some ri ->
    completed ri = false ->
    keyboard_interrupt env (clock st) = false ->
    get_run env (clock st) run_arn = Some s ->
    is_terminal s = true ->
    keyboard_interrupt env (S (clock st)) = false ->
    download_artifacts env (S (clock st)) run_arn = [] ->
    (attempt ri < max_retries req + 1)%Z ->
    nth_error (test_spec_arns req) (batch_idx ri) = None \/
    nth_error (run_names req) (batch_idx ri) = None ->
    polled run_arn st (Continue (fetched run_arn ri s [] st))
| polled_interrupt_schedule ri s :
    dict_get run_arn (runs st) = Some ri ->
    completed ri = false ->
    keyboard_interrupt env (clock st) = false ->
    get_run env (clock st) run_arn = Some s ->
    is_terminal s = true ->
    keyboard_interrupt env (S (clock st)) = false ->
    download_artifacts env (S (clock st)) run_arn = [] ->
    (attempt ri < max_retries req + 1)%Z ->
    keyboard_interrupt env (S (S (clock st))) = true ->
    polled run_arn st (Return Interrupted (fetched run_arn ri s [] st))
| polled_not_scheduled ri s spec rname r :
    dict_get run_arn (runs st) = Some ri ->
    completed ri = false ->
    keyboard_interrupt env (clock st) = false ->
    get_run env (clock st) run_arn = Some s ->
    is_terminal s = true ->
    keyboard_interrupt env (S (clock st)) = false ->
    download_artifacts env (S (clock st)) run_arn = [] ->
    (attempt ri < max_retries req + 1)%Z ->
    nth_error (test_spec_arns req) (batch_idx ri) = Some spec ->
    nth_error (run_names req) (batch_idx ri) = Some rname ->
    keyboard_interrupt env (S (S (clock st))) = false ->
    schedule_test_run env (S (S (clock st))) spec rname = r ->
    r = None \/ r = Some "" ->
    polled run_arn st
      (Return RetryNotScheduled (rescheduled run_arn ri s r st))
| polled_retried ri s spec rname new_arn :
    dict_get run_arn (runs st) = Some ri ->
    completed ri = false ->
    keyboard_interrupt env (clock st) = false ->
    get_run env (clock st) run_arn = Some s ->
    is_terminal s = true ->
    keyboard_interrupt env (S (clock st)) = false ->
    download_artifacts env (S (clock st)) run_arn = [] ->
    (attempt ri < max_retries req + 1)%Z ->
    nth_error (test_spec_arns req) (batch_idx ri) = Some spec ->
    nth_error (run_names req) (batch_idx ri) = Some rname ->
    keyboard_interrupt env (S (S (clock st))) = false ->
    schedule_test_run env (S (S (clock st))) spec rname = Some new_arn ->
    new_arn <> "" ->
    polled run_arn st (Continue (retried run_arn ri s new_arn st)).

(** A run handle the monitor can have met by the time [t]: an initial one,
    or one returned by a scheduling call made before [t]. *)
Definition known (t : nat) (a : string) : Prop :=
  In a (initial_run_arns req) \/
  exists t' spec rname,
    (t' < t)%nat /\ schedule_test_run env t' spec rname = Some a.

(** The service names every run it schedules with a handle of its own. *)
Definition fresh_scheduler : Prop :=
  forall t spec rname a,
    schedule_test_run env t spec rname = Some a ->
    ~ In a (initial_run_arns req) /\
    forall t' spec' rname',
      schedule_test_run env t' spec' rname' = Some a -> t' = t.

(** The calls after which the monitor gives up: a download that found no
    trace for a run out of retries, and a retry that was not scheduled. *)
Definition out_of_retries (e : event) : Prop :=
  exists a b att, e = Download a b att [] /\ (max_retries req + 1 <= att)%Z.

Definition scheduling_failed (e : event) : Prop :=
  exists c b att r, e = Schedule c b att r /\ (r = None \/ r = Some "").

Definition fatal (e : event) : Prop :=
  out_of_retries e \/ scheduling_failed e.

End Paths.

(** A property of the monitor: [Inv] while it polls, [Out] when it
    returns. *)
Definition holds (Inv : state -> Prop) (Out : exit -> state -> Prop)
    (fl : flow) : Prop :=
  match fl with
  | Continue st => Inv st
  | Return e st => Out e st
  end.

(** What the record of calls is like when the monitor returns through [e]:
    a call after which the monitor gives up is the last call made, and it is
    there exactly when the monitor returns through the matching exit. *)
Definition exit_matches (req : request) (e : exit) (es : list event) : Prop :=
  match e with
  | RetriesExhausted =>
      exists ev old, es = ev :: old /\ out_of_retries req ev /\
                     Forall (fun x => ~ fatal req x) old
  | RetryNotScheduled =>
      exists ev old, es = ev :: old /\ scheduling_failed ev /\
                     Forall (fun x => ~ fatal req x) old
  | _ => Forall (fun x => ~ fatal req x) es
  end.

(** An entry is in the state the specification calls Succeeded. *)
Definition Succeeded (st : state) (run_arn : string) (ri : run_info) : Prop :=
  completed ri = true /\
  is_terminal (status ri) = true /\
  exists f fs,
    In (Download run_arn (batch_idx ri) (attempt ri) (f :: fs)) (events st).

(** What holds of every state of the monitor: the keys of [runs] are
    distinct, [all_traces] holds the files of the downloads in their order,
    and a completed entry is Succeeded. *)
Definition sound (st : state) : Prop :=
  NoDup (keys (runs st)) /\
  all_traces st = downloaded_files (events st) /\
  (forall k v, dict_get k (runs st) = Some v -> completed v = true ->
               Succeeded st k v).

(** What holds while the monitor polls, with the runs of [snapshot] still
    to be polled in the current cycle: no call so far is one after which
    the monitor gives up, and the runs to be polled are in [runs]. *)
Definition polling (req : request) (snapshot : list string) (st : state)
  : Prop :=
  sound st /\
  Forall (fun x => ~ fatal req x) (events st) /\
  NoDup snapshot /\
  incl snapshot (keys (runs st)).

(** What holds when the monitor returns through [e]. *)
Definition returned (req : request) (e : exit) (st : state) : Prop :=
  sound st /\
  exit_matches req e (events st) /\
  e <> Fault /\
  (e = AllCompleted -> forallb completed (values (runs st)) = true) /\
  (e = RetriesExhausted \/ e = RetryNotScheduled ->
   exists k v, dict_get k (runs st) = Some v /\ completed v = false).

(** The calls of one poll of [run_arn], of batch [b], in cycle [c], that
    leave the run in place: queries, downloads, retries not scheduled. *)
Definition own (run_arn : string) (b c : nat) (ev : event) : Prop :=
  match ev with
  | GetRun c' a => c' = c /\ a = run_arn
  | Download a b' _ _ => a = run_arn /\ b' = b
  | Schedule c' b' _ r => c' = c /\ b' = b /\ (r = None \/ r = Some "")
  | Sleep => False
  end.

(** The call concerns the run [a] or its batch [b]. *)
Definition touches (a : string) (b : nat) (ev : event) : Prop :=
  match ev with
  | GetRun _ a' => a' = a
  | Download a' _ _ _ => a' = a
  | Schedule _ b' _ _ => b' = b
  | Sleep => False
  end.

(** No call concerns a run, or the batch of a run, whose traces an earlier
    call has downloaded. *)
Fixpoint settled (es : list event) : Prop :=
  match es with
  | [] => True
  | ev :: old =>
      (forall a b att f fs,
         In (Download a b att (f :: fs)) old -> ~ touches a b ev) /\
      settled old
  end.

(** What a poll of [run_arn] does to the state: nothing; or it updates the
    entry of the run in place; or it replaces the entry by the one of a
    newly scheduled run. *)
Inductive effect (env : services) (req : request) (run_arn : string)
    (st st' : state) : Prop :=
| effect_none :
    st' = st -> effect env req run_arn st st'
| effect_update ri ri' new :
    dict_get run_arn (runs st) = Some ri ->
    completed ri = false ->
    (forall k, dict_get k (runs st')
               = if run_arn =? k then Some ri' else dict_get k (runs st)) ->
    (forall k, In k (keys (runs st')) <-> In k (keys (runs st))) ->
    batch_idx ri' = batch_idx ri ->
    attempt ri' = attempt ri ->
    events st' = (new ++ events st)%list ->
    Forall (own run_arn (batch_idx ri) (cycle_no st)) new ->
    (forall a b att f fs,
       In (Download a b att (f :: fs)) new ->
       completed ri' = true /\
       exists old, new = Download a b att (f :: fs) :: old /\
                   forall a' b' att' f' fs',
                     ~ In (Download a' b' att' (f' :: fs')) old) ->
    (clock st <= clock st')%nat ->
    cycle_no st' = cycle_no st ->
    effect env req run_arn st st'
| effect_retry ri spec rname new_arn :
    dict_get run_arn (runs st) = Some ri ->
    completed ri = false ->
    (forall k, dict_get k (runs st')
               = if new_arn =? k
                 then Some (fresh_run (batch_idx ri) (attempt ri + 1))
                 else if run_arn =? k then None else dict_get k (runs st)) ->
    (forall k, In k (keys (runs st')) <->
               k = new_arn \/ (k <> run_arn /\ In k (keys (runs st)))) ->
    schedule_test_run env (S (S (clock st))) spec rname = Some new_arn ->
    new_arn <> "" ->
    (attempt ri < max_retries req + 1)%Z ->
    events st'
    = Schedule (cycle_no st) (batch_idx ri) (attempt ri + 1) (Some new_arn)
      :: Download run_arn (batch_idx ri) (attempt ri) []
      :: GetRun (cycle_no st) run_arn :: events st ->
    clock st' = S (S (S (clock st))) ->
    cycle_no st' = cycle_no st ->
    effect env req run_arn st st'.

(** The registry of runs and the record of calls, with the runs of
    [snapshot] still to be polled in the current cycle. *)
Record registry (env : services) (req : request) (snapshot : list string)
    (st : state) : Prop := {
  reg_known :
    forall k, In k (keys (runs st)) -> known env req (clock st) k;
  reg_batches :
    forall k1 k2 v1 v2,
      dict_get k1 (runs st) = Some v1 -> dict_get k2 (runs st) = Some v2 ->
      batch_idx v1 = batch_idx v2 -> k1 = k2;
  reg_tracked :
    forall b, (b < List.length (initial_run_arns req))%nat <->
              exists k v, dict_get k (runs st) = Some v /\ batch_idx v = b;
  reg_attempts :
    forall k v, dict_get k (runs st) = Some v ->
                attempt v
                = (1 + Z.of_nat (retries_of (batch_idx v) (events st)))%Z;
  reg_queried :
    forall c a, In (GetRun c a) (events st) ->
                known env req (clock st) a /\ (c <= cycle_no st)%nat;
  reg_scheduled :
    forall c b att a,
      In (Schedule c b att (Some a)) (events st) -> a <> "" ->
      (c <= cycle_no st)%nat /\ (c = cycle_no st -> ~ In a snapshot);
  reg_order :
    forall c c' b att a,
      In (Schedule c b att (Some a)) (events st) -> a <> "" ->
      In (GetRun c' a) (events st) -> (c < c')%nat;
  reg_downloaded :
    forall a b att f fs,
      In (Download a b att (f :: fs)) (events st) ->
      exists v, dict_get a (runs st) = Some v /\ completed v = true /\
                batch_idx v = b;
  reg_settled : settled (events st)
}.

(** The registry at the head of the loop: every retry was scheduled in an
    earlier cycle. *)
Definition registry_at_start (env : services) (req : request) (st : state)
  : Prop :=
  registry env req [] st /\
  forall c b att a,
    In (Schedule c b att (Some a)) (events st) -> a <> "" ->
    (c < cycle_no st)%nat.

(** The attempt counters stay within the budget. *)
Definition bounded (req : request) (st : state) : Prop :=
  forall k v, dict_get k (runs st) = Some v ->
              (1 <= attempt v <= max_retries req + 1)%Z.

(** The batch [b] fails silently: its runs, those of [mine], are found
    completed with no trace file whenever they are polled.  Every retry is
    scheduled and the operator does not interrupt. *)
Record silent_failure (env : services) (req : request) (b : nat)
    (mine : string -> Prop) : Prop := {
  sf_initial :
    exists a, nth_error (initial_run_arns req) b = Some a /\ mine a;
  sf_retries :
    exists spec rname,
      nth_error (test_spec_arns req) b = Some spec /\
      nth_error (run_names req) b = Some rname /\
      forall t a, schedule_test_run env t spec rname = Some a -> mine a;
  sf_fails :
    forall t a, mine a ->
      (exists s, get_run env t a = Some s /\ is_terminal s = true) /\
      download_artifacts env t a = [];
  sf_scheduled :
    forall t spec rname,
      exists a, schedule_test_run env t spec rname = Some a /\ a <> "";
  sf_no_interrupt :
    forall t, keyboard_interrupt env t = false
}.

(** The run of batch [b] during the cycles in which it is retried: it has
    been retried once per cycle, and no run more often. *)
Definition chased (req : request) (b : nat) (mine : string -> Prop)
    (snapshot : list string) (st : state) : Prop :=
  (Z.of_nat (cycle_no st) <= max_retries req)%Z /\
  (forall k v, dict_get k (runs st) = Some v ->
     (attempt v <= Z.of_nat (cycle_no st) + 2)%Z /\
     (In k snapshot -> (attempt v <= Z.of_nat (cycle_no st) + 1)%Z)) /\
  exists k v,
    dict_get k (runs st) = Some v /\ batch_idx v = b /\ mine k /\
    completed v = false /\
    ((In k snapshot /\ attempt v = (Z.of_nat (cycle_no st) + 1)%Z) \/
     (~ In k snapshot /\ attempt v = (Z.of_nat (cycle_no st) + 2)%Z)).

Definition chased_at_start (req : request) (b : nat) (mine : string -> Prop)
    (st : state) : Prop :=
  (Z.of_nat (cycle_no st) <= max_retries req)%Z /\
  (forall k v, dict_get k (runs st) = Some v ->
     (attempt v <= Z.of_nat (cycle_no st) + 1)%Z) /\
  exists k v,
    dict_get k (runs st) = Some v /\ batch_idx v = b /\ mine k /\
    completed v = false /\ attempt v = (Z.of_nat (cycle_no st) + 1)%Z.

(** The monitor gives up with the run of batch [b] at its last attempt. *)
Definition given_up (req : request) (b : nat) (e : exit) (st : state)
  : Prop :=
  e = RetriesExhausted /\
  exists k v, dict_get k (runs st) = Some v /\ batch_idx v = b /\
              attempt v = (max_retries req + 1)%Z.

(** The exit for lack of traces is taken right after the download for a
    run that is out of retries. *)
Definition at_last_attempt (req : request) (e : exit) (st : state) : Prop :=
  e = RetriesExhausted ->
  exists k v old,
    dict_get k (runs st) = Some v /\
    events st = Download k (batch_idx v) (attempt v) [] :: old /\
    (max_retries req + 1 <= attempt v)%Z.

(** The exit through the [KeyboardInterrupt] handler is taken at an
    interrupted call. *)
Definition at_interrupt (env : services) (e : exit) (st : state) : Prop :=
  e = Interrupted -> keyboard_interrupt env (clock st) = true.

(** The batch [b] fails: each of its runs, those of [mine], reaches a
    terminal status, from some time on, and no trace file is downloaded
    from it.  Every retry is scheduled and the operator does not
    interrupt. *)
Record failing_batch (env : services) (req : request) (b : nat)
    (mine : string -> Prop) : Prop := {
  fb_initial :
    exists a, nth_error (initial_run_arns req) b = Some a /\ mine a;
  fb_retries :
    exists spec rname,
      nth_error (test_spec_arns req) b = Some spec /\
      nth_error (run_names req) b = Some rname /\
      forall t a, schedule_test_run env t spec rname = Some a -> mine a;
  fb_reaches :
    forall a, mine a ->
      exists T, forall t, (T <= t)%nat ->
        exists s, get_run env t a = Some s /\ is_terminal s = true;
  fb_no_trace :
    forall t a, mine a -> download_artifacts env t a = [];
  fb_scheduled :
    forall t spec rname,
      exists a, schedule_test_run env t spec rname = Some a /\ a <> "";
  fb_no_interrupt :
    forall t, keyboard_interrupt env t = false
}.

(** No other batch fails: the runs that deliver no trace file are those of
    [mine], and the initial run of no other batch is one of them. *)
Definition only_failing (env : services) (req : request) (b : nat)
    (mine : string -> Prop) : Prop :=
  (forall t a, download_artifacts env t a = [] -> mine a) /\
  (forall i a, nth_error (initial_run_arns req) i = Some a -> mine a ->
               i = b).

(** The entry of batch [b] at attempt [att], under the key [k]. *)
Definition tracks (b : nat) (k : string) (att : Z) (st : state) : Prop :=
  exists v, dict_get k (runs st) = Some v /\ batch_idx v = b /\
            completed v = false /\ attempt v = att.

(** The run [k] of batch [b], at attempt [att], during a cycle begun at
    the time [t0], with the runs of [snapshot] still to be polled: it is
    still to be polled; or it was polled and not found terminal; or it was
    retried. *)
Definition followed (env : services) (b : nat) (mine : string -> Prop)
    (t0 : nat) (k : string) (att : Z) (snapshot : list string) (st : state)
  : Prop :=
  (t0 <= clock st)%nat /\
  ((In k snapshot /\ tracks b k att st) \/
   (~ In k snapshot /\ tracks b k att st /\
    exists t, (t0 <= t)%nat /\
              forall s, get_run env t k = Some s -> is_terminal s = false) \/
   (exists k', ~ In k' snapshot /\ mine k' /\ tracks b k' (att + 1) st)).

(** The entries of the runs of [mine] are those of batch [b]. *)
Definition owned (b : nat) (mine : string -> Prop) (st : state) : Prop :=
  forall k v, dict_get k (runs st) = Some v -> mine k -> batch_idx v = b.

(** The exit for lack of traces is taken for a run whose download was
    empty. *)
Definition at_empty_download (env : services) (e : exit) (st : state)
  : Prop :=
  e = RetriesExhausted ->
  exists k v old t,
    dict_get k (runs st) = Some v /\
    events st = Download k (batch_idx v) (attempt v) [] :: old /\
    download_artifacts env t k = [].

(** ** Services used as examples *)

Fixpoint tally (n : nat) : string :=
  match n with
  | O => ""
  | S n' => String "i" (tally n')
  end.

(** Handles the example service gives to retries: one per call time. *)
Definition retry_arn (t : nat) : string := "arn:run:retry-" ++ tally t.

(** Every run completes with no trace; every retry is scheduled. *)
Definition silent_failures : services :=
  {| get_run := fun _ _ => Some "COMPLETED";
     download_artifacts := fun _ _ => [];
     schedule_test_run := fun t _ _ => Some (retry_arn t);
     keyboard_interrupt := fun _ => false |}.

(** The first batch is still running when the operator interrupts, at the
    fourth call; the second batch has delivered its traces. *)
Definition interrupted_service : services :=
  {| get_run := fun _ a => if a =? "arn:run:0" then Some "RUNNING"
                           else Some "COMPLETED";
     download_artifacts := fun _ a => [a ++ "/iter1.perfetto-trace"];
     schedule_test_run := fun t _ _ => Some (retry_arn t);
     keyboard_interrupt := fun t => Nat.eqb t 3 |}.

(** The first batch delivers traces at its second run, the second batch at
    once. *)
Definition recovering_service : services :=
  {| get_run := fun _ _ => Some "COMPLETED";
     download_artifacts :=
       fun _ a => if a =? "arn:run:0" then []
                  else [a ++ "/iter1.perfetto-trace"];
     schedule_test_run := fun t _ _ => Some (retry_arn t);
     keyboard_interrupt := fun _ => false |}.

(** The first batch is still running at the first turn and completes with
    no trace at the second; the second batch delivers its traces. *)
Definition abandoning_service : services :=
  {| get_run := fun t a => if (a =? "arn:run:0") && Nat.ltb t 4
                           then Some "RUNNING" else Some "COMPLETED";
     download_artifacts :=
       fun _ a => if a =? "arn:run:0" then []
                  else [a ++ "/iter1.perfetto-trace"];
     schedule_test_run := fun t _ _ => Some (retry_arn t);
     keyboard_interrupt := fun _ => false |}.

(** Every run is still running until the time that is the length of its
    handle, and completed from then on; only the second initial run
    delivers a trace file. *)
Definition late_failures : services :=
  {| get_run := fun t a => if Nat.ltb t (length a) then Some "RUNNING"
                           else Some "COMPLETED";
     download_artifacts :=
       fun _ a => if a =? "arn:run:1" then [a ++ "/iter1.perfetto-trace"]
                  else [];
     schedule_test_run := fun t _ _ => Some (retry_arn t);
     keyboard_interrupt := fun _ => false |}.

(** Both batches deliver their traces at once; the operator interrupts
    during the wait that follows. *)
Definition interrupted_wait : services :=
  {| get_run := fun _ _ => Some "COMPLETED";
     download_artifacts := fun _ a => [a ++ "/iter1.perfetto-trace"];
     schedule_test_run := fun t _ _ => Some (retry_arn t);
     keyboard_interrupt := fun t => Nat.eqb t 4 |}.

Definition two_batches (r : Z) : request :=
  {| test_spec_arns := ["arn:spec:0"; "arn:spec:1"];
     run_names := ["perf [1 / 2]"; "perf [2 / 2]"];
     initial_run_arns := ["arn:run:0"; "arn:run:1"];
     max_retries := r |}.

End DeviceFarm.

(* ------------------------------------------------------------------ *)
(** * Python text primitives used for names and messages *)
(* ------------------------------------------------------------------ *)


Module PyText.
Import Ascii String.
Local Open Scope string_scope.

(** A Python [str] is a [string] here, one [ascii] per character: the texts
    whose characters have code points below 256. *)

(** [sub in s] *)
Fixpoint contains (sub s : string) : bool :=
  prefix sub s ||
  match s with
  | EmptyString => false
  | String _ s' => contains sub s'
  end.

(** [s.replace(old, new)] for a non-empty [old]: the occurrences are found
    from the left and do not overlap; [skip] counts the characters of the
    occurrence being replaced that are still to be passed over. *)
Fixpoint replace_from (old new : string) (skip : nat) (s : string) : string :=
  match s with
  | EmptyString => EmptyString
  | String c s' =>
      match skip with
      | S k => replace_from old new k s'
      | O =>
          if prefix old s
          then new ++ replace_from old new (length old - 1) s'
          else String c (replace_from old new 0 s')
      end
  end.

(** [s.replace('', new)]: [new] before every character and at the end. *)
Fixpoint replace_empty (new s : string) : string :=
  match s with
  | EmptyString => new
  | String c s' => new ++ String c (replace_empty new s')
  end.

(** [s.replace(old, new)] *)
Definition replace (old new s : string) : string :=
  match old with
  | EmptyString => replace_empty new s
  | String _ _ => replace_from old new 0 s
  end.

(** The position a slice bound [i] stands for in a text of [n]
    characters: counted from the end when negative, cut to [0 .. n]. *)
Definition slice_index (n : nat) (i : Z) : nat :=
  if (i <? 0)%Z then Z.to_nat (Z.max 0 (Z.of_nat n + i))
  else Nat.min n (Z.to_nat i).

(** [s[:j]] *)
Definition slice_to (j : Z) (s : string) : string :=
  substring 0 (slice_index (length s) j) s.

(** [s[i:]] *)
Definition slice_from (i : Z) (s : string) : string :=
  let k := slice_index (length s) i in substring k (length s - k) s.

End PyText.

(* ------------------------------------------------------------------ *)
(** * Names of build directories and run folders, masked secrets *)
(* ------------------------------------------------------------------ *)


Module Naming.
Import Ascii String PyText.
Local Open Scope string_scope.

(** [branch.replace('/', '-').replace('\\', '-')], in
    [build_apk_for_pipeline], [schedule_test_for_pipeline],
    [non_interactive_upload_and_test] and [non_interactive_analyze]. *)
Definition branch_sanitized (branch : string) : string :=
  replace "\" "-" (replace "/" "-" branch).

(** [commit[:8] if len(commit) >= 8 else commit] *)
Definition commit_short (commit : string) : string :=
  if (8 <=? length commit)%nat then slice_to 8 commit else commit.

(** [f"{branch_sanitized}_{commit_short}"]: the name of the build under
    the output directory. *)
Definition build_name (branch commit : string) : string :=
  branch_sanitized branch ++ "_" ++ commit_short commit.

(** [run_arn.replace(':', '_').replace('/', '_')], the folder
    [download_artifacts] saves the traces of a run in. *)
Definition run_folder_name (run_arn : string) : string :=
  replace "/" "_" (replace ":" "_" run_arn).

(** [mask_secret] of [logger.py] *)
Definition mask_secret (secret : string) (visible_chars : Z) : string :=
  if (secret =? "") || (Z.of_nat (length secret) <=? visible_chars * 2)%Z
  then "***"
  else slice_to visible_chars secret ++ "..."
       ++ slice_from (- visible_chars) secret.

End Naming.

(* ------------------------------------------------------------------ *)
(** * The directory tree of the traces *)
(* ------------------------------------------------------------------ *)


Module TraceTree.
Import Ascii String PyStr TraceProcessor.
Local Open Scope string_scope.

(** Induction over a directory tree. *)
Fixpoint node_rect' (P : node -> Prop)
    (HF : forall f c, P (File f c))
    (HD : forall d ch, Forall P ch -> P (Dir d ch)) (n : node) : P n :=
  match n with
  | File f c => HF f c
  | Dir d ch =>
      HD d ch
        ((fix go (l : list node) : Forall P l :=
            match l with
            | [] => Forall_nil P
            | x :: l' => Forall_cons x (node_rect' P HF HD x) (go l')
            end) ch)
  end.

(** The sub-directories of the directory whose name begins with [arn], each
    with its path and its entries, as the directory lists them. *)
Definition arn_folders (d : directory) : list (path * list node) :=
  flat_map (fun n => match n with
                     | Dir dn ch =>
                         if startswith "arn" dn
                         then [((base_parts d ++ [dn])%list, ch)] else []
                     | File _ _ => []
                     end) (entries d).

End TraceTree.

(* ------------------------------------------------------------------ *)
(** * States and examples of the monitor *)
(* ------------------------------------------------------------------ *)


Module MonitorStates.
Import Ascii String DeviceFarm.
Local Open Scope string_scope.

(** The registry is as at the start, and only status queries and sleeps
    have been made. *)
Definition waiting (req : request) (st : state) : Prop :=
  keys (runs st) = keys (runs (initial_state req)) /\
  (forall k v, dict_get k (runs st) = Some v -> completed v = false) /\
  all_traces st = [] /\
  Forall (fun ev => ev = Sleep \/ exists c a, ev = GetRun c a) (events st).

(** The batch index of every entry is that of an initial run. *)
Definition indexed (req : request) (st : state) : Prop :=
  Forall (fun kv => (batch_idx (snd kv) < List.length (initial_run_arns req))%nat)
         (runs st).

End MonitorStates.

Module MonitorExamples.
Import Ascii String DeviceFarm.
Local Open Scope string_scope.

(** The status query fails at every other call and the runs stay in
    [RUNNING] otherwise; nobody interrupts. *)
Definition stuck_service : services :=
  {| get_run := fun t _ => if Nat.even t then None else Some "RUNNING";
     download_artifacts := fun _ a => [a ++ "/iter1.perfetto-trace"];
     schedule_test_run := fun t _ _ => Some (retry_arn t);
     keyboard_interrupt := fun _ => false |}.

(** The service gave the same handle for the first and the third batch. *)
Definition repeated_handle : request :=
  {| test_spec_arns := ["arn:spec:0"; "arn:spec:1"; "arn:spec:2"];
     run_names := ["perf [1 / 3]"; "perf [2 / 3]"; "perf [3 / 3]"];
     initial_run_arns := ["arn:run:0"; "arn:run:1"; "arn:run:0"];
     max_retries := 3 |}.

End MonitorExamples.

(* ------------------------------------------------------------------ *)
(** * The commands that upload, schedule and monitor *)
(* ------------------------------------------------------------------ *)


Module Orchestration.
Import Ascii String PyNum PyStr PyText Naming BatchPlanner DeviceFarm.
Local Open Scope string_scope.

(** [str(n)] of an integer *)
Definition str (n : Z) : string :=
  DecimalString.NilZero.string_of_int (Z.to_int n).

(** [s.split(sep)] for a separator of one character *)
Fixpoint split (sep : ascii) (s : string) : list string :=
  match s with
  | EmptyString => [""]
  | String c s' =>
      if Ascii.eqb c sep then "" :: split sep s'
      else match split sep s' with
           | head :: tail => String c head :: tail
           | [] => [String c ""]
           end
  end.

(** ** [get_available_tests] *)

(** [benchmark_tests.yml] as [yaml.safe_load] gives it: the entries of
    [test_classes], each with its [class] and [tests] where the keys are
    there (a missing [tests] is the empty list), each test with its [name]
    and [description] where they are there. *)
Record yaml_test : Type := {
  yaml_name : option string;
  yaml_description : option string
}.

Record yaml_class : Type := {
  yaml_class_name : option string;
  yaml_tests : list yaml_test
}.

Inductive tests_config : Type :=
| NoTestsConfig                         (* the file does not exist *)
| UnreadableTestsConfig                 (* opening or parsing raises *)
| TestClasses (test_classes : list yaml_class).

Record benchmark_test : Type := {
  test_class : string;
  test_name : string;
  full_name : string;
  description : string
}.

(** The inner loop; [None] is the [KeyError] of a test without [name]. *)
Fixpoint tests_of_class (class_name : string) (l : list yaml_test)
  : option (list benchmark_test) :=
  match l with
  | [] => Some []
  | t :: l' =>
      match yaml_name t with
      | None => None
      | Some n =>
          match tests_of_class class_name l' with
          | None => None
          | Some tests =>
              Some ({| test_class := class_name;
                       test_name := n;
                       full_name := class_name ++ "#" ++ n;
                       description :=
                         match yaml_description t with
                         | Some d => d
                         | None => ""
                         end |} :: tests)
          end
      end
  end.

(** The outer loop; [None] is a [KeyError]. *)
Fixpoint tests_of_classes (l : list yaml_class)
  : option (list benchmark_test) :=
  match l with
  | [] => Some []
  | c :: l' =>
      match yaml_class_name c with
      | None => None
      | Some class_name =>
          match tests_of_class class_name (yaml_tests c),
                tests_of_classes l' with
          | Some tests, Some more => Some (tests ++ more)%list
          | _, _ => None
          end
      end
  end.

Definition get_available_tests (config : tests_config)
  : list benchmark_test :=
  match config with
  | NoTestsConfig | UnreadableTestsConfig => []
  | TestClasses l =>
      match tests_of_classes l with
      | Some tests => tests
      | None => []
      end
  end.

(** The loop [for test in available_tests: if test['name'] == test_name:
    selected_test = test; break]. *)
Fixpoint select_test (name : string) (available_tests : list benchmark_test)
  : option benchmark_test :=
  match available_tests with
  | [] => None
  | test :: rest =>
      if test_name test =? name then Some test else select_test name rest
  end.

(** ** The world the commands run in *)

Record apk_file : Type := {
  apk_name : string;    (* [f.name] *)
  apk_path : string     (* [str(f)] *)
}.

Inductive text_file : Type :=
| MissingFile
| UnreadableFile
| FileContent (content : string).

(** What the commands find and what the services answer.  The calls to
    Device Farm are made at a time, the number of calls recorded before. *)
Record world : Type := {
  exists_path : string -> bool;
  glob_apks : string -> list apk_file;
  tests_file : tests_config;
  get_device_pool : string -> option string;
  test_execution_config : option (Z * Z);   (* batch_size, max_retries *)
  spec_template : text_file;
  can_write : string -> bool;
  can_make_dirs : list string -> bool;
  now : string;
  upload_apk : nat -> string -> string -> string -> option string;
  schedule_test_run :
    nat -> string -> string -> string -> string -> string -> option string
}.

(** The calls with an effect outside the process, most recent first in
    the record. *)
Inductive call : Type :=
| UploadApk (project_arn apk_path upload_type : string)
            (upload_arn : option string)
| WriteSpec (spec_path contents : string)
| Unlink (spec_path : string)
| MakeDirs (parts : list string)
| ScheduleRun (app_arn test_package_arn test_spec_arn test_class_name
               run_name : string) (run_arn : option string)
| MonitorRuns (req : request) (output_dir : list string).

Inductive exception : Type :=
| NoExecutionConfig      (* [load_test_execution_config] raises *)
| BatchArithmetic        (* [ZeroDivisionError], [OverflowError] *)
| CannotRead
| CannotWrite
| CannotMakeDirs
| IndexError.

Inductive outcome (A : Type) : Type :=
| Done (a : A)
| SysExit (code : Z)
| Raised (e : exception)
| Monitoring.            (* the monitor has not returned yet *)

Arguments Done {A} a.
Arguments SysExit {A} code.
Arguments Raised {A} e.
Arguments Monitoring {A}.

(** A command: from the record of calls to a result and the record. *)
Definition script (A : Type) : Type := list call -> outcome A * list call.

Definition ret {A : Type} (a : A) : script A := fun log => (Done a, log).

Definition bind {A B : Type} (m : script A) (f : A -> script B) : script B :=
  fun log =>
    match m log with
    | (Done a, log') => f a log'
    | (SysExit code, log') => (SysExit code, log')
    | (Raised e, log') => (Raised e, log')
    | (Monitoring, log') => (Monitoring, log')
    end.

Definition sys_exit {A : Type} (code : Z) : script A :=
  fun log => (SysExit code, log).

Definition raise {A : Type} (e : exception) : script A :=
  fun log => (Raised e, log).

Definition record (c : call) : script unit := fun log => (Done tt, c :: log).

Declare Scope script_scope.
Delimit Scope script_scope with script.
Notation "x <- m ;; k" := (bind m (fun x => k))
  (at level 61, m at next level, right associativity) : script_scope.
Notation "' pat <- m ;; k" := (bind m (fun x => let 'pat := x in k))
  (at level 61, pat pattern, m at next level, right associativity)
  : script_scope.
Notation "m ;; k" := (bind m (fun _ => k))
  (at level 61, right associativity) : script_scope.
Local Open Scope script_scope.

Section Commands.

Variable w : world.

(** [upload_apk(project_arn, path, upload_type)] *)
Definition do_upload (project_arn path upload_type : string)
  : script (option string) :=
  fun log =>
    let r := upload_apk w (List.length log) project_arn path upload_type in
    (Done r, UploadApk project_arn path upload_type r :: log).

(** [schedule_test_run(project_arn, device_pool_arn, app_arn,
    test_package_arn, test_spec_arn, test_class, run_name)] *)
Definition do_schedule (app_arn test_package_arn test_spec_arn class_name
    run_name : string) : script (option string) :=
  fun log =>
    let r := schedule_test_run w (List.length log) app_arn test_package_arn
               test_spec_arn class_name run_name in
    (Done r,
     ScheduleRun app_arn test_package_arn test_spec_arn class_name run_name r
     :: log).

(** [with open(test_spec_path, 'w') as f: f.write(spec_contents)] *)
Definition write_spec (path contents : string) : script unit :=
  if can_write w path then record (WriteSpec path contents)
  else raise CannotWrite.

(** The contents of the test spec of one batch. *)
Definition spec_contents (template_content test_selector : string)
    (batch_iterations : Z) : string :=
  replace "{{NUM_ITERATIONS}}" (str batch_iterations)
    (replace "{{TEST_SELECTOR}}" test_selector template_content).

Definition test_spec_path (branch_s commit_s name : string) (batch_idx : Z)
  : string :=
  "/tmp/" ++ branch_s ++ "_" ++ commit_s ++ "_" ++ name ++ "_batch"
  ++ str batch_idx ++ "_testspec.yml".

(** [f"{base_name} [{batch_idx} / {num_batches}]"], or the base name for a
    single batch. *)
Definition batch_run_name (base_name : string) (batch_idx num_batches : Z)
  : string :=
  if (1 <? num_batches)%Z
  then base_name ++ " [" ++ str batch_idx ++ " / " ++ str num_batches ++ "]"
  else base_name.

(** The "Calculate batches" block: [num_batches] and [batches]. *)
Definition calculate_batches (num_iterations batch_size : Z)
  : script (Z * list Z) :=
  match num_batches num_iterations batch_size with
  | None => raise BatchArithmetic
  | Some n => ret (n, batches_of n num_iterations batch_size)
  end.

(** ** [non_interactive_upload_and_test] *)

(** The loop that prepares the test specs, from the batch numbered
    [batch_idx] on. *)
Fixpoint prepare_specs (project_arn branch_s commit_s name test_selector
    template_content base_name : string) (num_batches batch_idx : Z)
    (batches : list Z) (test_spec_arns run_names : list string)
  : script (list string * list string) :=
  match batches with
  | [] => ret (test_spec_arns, run_names)
  | batch_iterations :: rest =>
      let path := test_spec_path branch_s commit_s name batch_idx in
      write_spec path
        (spec_contents template_content test_selector batch_iterations) ;;
      test_spec_arn <-
        do_upload project_arn path "INSTRUMENTATION_TEST_SPEC" ;;
      match test_spec_arn with
      | Some arn =>
          if arn =? "" then record (Unlink path) ;; sys_exit 1
          else
            record (Unlink path) ;;
            prepare_specs project_arn branch_s commit_s name test_selector
              template_content base_name num_batches (batch_idx + 1) rest
              (test_spec_arns ++ [arn])
              (run_names ++ [batch_run_name base_name batch_idx num_batches])
      | None => record (Unlink path) ;; sys_exit 1
      end
  end.

(** The loop [for batch_idx in range(num_batches)] that schedules the
    runs. *)
Fixpoint schedule_batches (app_arn test_package_arn class_name : string)
    (test_spec_arns run_names : list string) (indexes : list Z)
    (initial_run_arns : list string) : script (list string) :=
  match indexes with
  | [] => ret initial_run_arns
  | batch_idx :: rest =>
      match nth_error test_spec_arns (Z.to_nat batch_idx),
            nth_error run_names (Z.to_nat batch_idx) with
      | Some test_spec_arn, Some run_name =>
          run_arn <- do_schedule app_arn test_package_arn test_spec_arn
                       class_name run_name ;;
          match run_arn with
          | Some arn =>
              if arn =? "" then sys_exit 1
              else schedule_batches app_arn test_package_arn class_name
                     test_spec_arns run_names rest
                     (initial_run_arns ++ [arn])
          | None => sys_exit 1
          end
      | _, _ => raise IndexError
      end
  end.

(** What the command prints at its end. *)
Inductive report : Type :=
| TracesSaved (traces : nat) (runs : Z)
| NoTracesDownloaded.

(** [device_pool_arn.split('/')[-1] if '/' in device_pool_arn
     else device_pool_arn] *)
Definition pool_id (device_pool_arn : string) : string :=
  if contains "/" device_pool_arn
  then last (split "/" device_pool_arn) ""
  else device_pool_arn.

Definition non_interactive_upload_and_test (env : services) (fuel : nat)
    (branch commit project_arn device_pool_arn name : string)
    (run_name : option string) (num_iterations : Z) : script report :=
  let branch_s := branch_sanitized branch in
  let commit_s := commit_short commit in
  let build_output_dir := "/workspace/output/" ++ branch_s ++ "_" ++ commit_s in
  if negb (exists_path w build_output_dir) then sys_exit 1 else
  let apk_dir := build_output_dir ++ "/apks" in
  if negb (exists_path w apk_dir) then sys_exit 1 else
  let apk_files := glob_apks w apk_dir in
  let app_apks := filter (fun f => startswith "app-" (apk_name f)) apk_files in
  let test_apks :=
    filter (fun f => negb (startswith "app-" (apk_name f))) apk_files in
  match app_apks, test_apks with
  | [], _ => sys_exit 1
  | _ :: _, [] => sys_exit 1
  | app_apk :: _, test_apk :: _ =>
      match select_test name (get_available_tests (tests_file w)) with
      | None => sys_exit 1
      | Some selected_test =>
          let device_pool :=
            match get_device_pool w device_pool_arn with
            | Some pool_name => pool_name
            | None => pool_id device_pool_arn
            end in
          match test_execution_config w with
          | None => raise NoExecutionConfig
          | Some (batch_size, max_retries) =>
              '(num_batches, batches) <-
                calculate_batches num_iterations batch_size ;;
              app_arn <- do_upload project_arn (apk_path app_apk)
                           "ANDROID_APP" ;;
              match app_arn with
              | None => sys_exit 1
              | Some app_arn =>
              if app_arn =? "" then sys_exit 1 else
              test_package_arn <- do_upload project_arn (apk_path test_apk)
                                    "INSTRUMENTATION_TEST_PACKAGE" ;;
              match test_package_arn with
              | None => sys_exit 1
              | Some test_package_arn =>
              if test_package_arn =? "" then sys_exit 1 else
              let test_selector := "-e class " ++ full_name selected_test in
              match spec_template w with
              | MissingFile => sys_exit 1
              | UnreadableFile => raise CannotRead
              | FileContent template_content =>
                  let traces_dir :=
                    [build_output_dir; "traces"; device_pool; name] in
                  (if can_make_dirs w traces_dir
                   then record (MakeDirs traces_dir)
                   else raise CannotMakeDirs) ;;
                  let base_name :=
                    match run_name with
                    | Some n =>
                        if n =? "" then "Performance Test - " ++ now w else n
                    | None => "Performance Test - " ++ now w
                    end in
                  '(test_spec_arns, run_names) <-
                    prepare_specs project_arn branch_s commit_s name
                      test_selector template_content base_name num_batches 1
                      batches [] [] ;;
                  initial_run_arns <-
                    schedule_batches app_arn test_package_arn
                      (full_name selected_test) test_spec_arns run_names
                      (range num_batches) [] ;;
                  let req :=
                    {| DeviceFarm.test_spec_arns := test_spec_arns;
                       DeviceFarm.run_names := run_names;
                       DeviceFarm.initial_run_arns := initial_run_arns;
                       DeviceFarm.max_retries := max_retries |} in
                  record (MonitorRuns req traces_dir) ;;
                  match monitor_runs_parallel_with_retry env req fuel with
                  | Continue _ => fun log => (Monitoring, log)
                  | Return e st =>
                      let '(success, all_downloaded_traces) :=
                        return_value e st in
                      if negb success then sys_exit 1
                      else match all_downloaded_traces with
                           | [] => ret NoTracesDownloaded
                           | _ :: _ =>
                               ret (TracesSaved
                                      (List.length all_downloaded_traces)
                                      num_batches)
                           end
                  end
              end
              end
              end
          end
      end
  end.

(** ** [schedule_test_for_pipeline] *)

(** The dictionary the function returns. *)
Record scheduling_info : Type := {
  info_run_arns : list string;
  info_app_arn : string;
  info_test_package_arn : string;
  info_test_spec_arns : list string;
  info_test_class : string;
  info_run_names : list string
}.

(** The loop over the batches: the spec of a batch is uploaded and its run
    scheduled before the next batch is looked at.  [None] is the
    function's [return None]. *)
Fixpoint schedule_each (project_arn app_arn test_package_arn branch_s
    commit_s name test_selector template_content class_name : string) (num_batches batch_idx : Z)
    (batches : list Z) (run_arns test_spec_arns run_names : list string)
  : script (option (list string * list string * list string)) :=
  match batches with
  | [] => ret (Some (run_arns, test_spec_arns, run_names))
  | batch_iterations :: rest =>
      let path := test_spec_path branch_s commit_s name batch_idx in
      write_spec path
        (spec_contents template_content test_selector batch_iterations) ;;
      test_spec_arn <-
        do_upload project_arn path "INSTRUMENTATION_TEST_SPEC" ;;
      match test_spec_arn with
      | Some spec_arn =>
          if spec_arn =? "" then record (Unlink path) ;; ret None
          else
            record (Unlink path) ;;
            let run_name :=
              batch_run_name (branch_s ++ "_" ++ commit_s) batch_idx
                num_batches in
            run_arn <- do_schedule app_arn test_package_arn spec_arn
                         class_name run_name ;;
            match run_arn with
            | Some arn =>
                if arn =? "" then ret None
                else schedule_each project_arn app_arn test_package_arn
                       branch_s commit_s name
                       test_selector template_content class_name num_batches
                       (batch_idx + 1) rest (run_arns ++ [arn])
                       (test_spec_arns ++ [spec_arn]) (run_names ++ [run_name])
            | None => ret None
            end
      | None => record (Unlink path) ;; ret None
      end
  end.

Definition schedule_test_for_pipeline (branch commit project_arn
    device_pool_arn name : string) (num_iterations : Z)
  : script (option scheduling_info) :=
  let branch_s := branch_sanitized branch in
  let commit_s := commit_short commit in
  let build_output_dir := "/workspace/output/" ++ branch_s ++ "_" ++ commit_s in
  let apk_dir := build_output_dir ++ "/apks" in
  if negb (exists_path w apk_dir) then ret None else
  let apk_files := glob_apks w apk_dir in
  let app_apks := filter (fun f => startswith "app-" (apk_name f)) apk_files in
  let test_apks :=
    filter (fun f => negb (startswith "app-" (apk_name f))) apk_files in
  match app_apks, test_apks with
  | app_apk :: _, test_apk :: _ =>
      match select_test name (get_available_tests (tests_file w)) with
      | None => ret None
      | Some selected_test =>
          match test_execution_config w with
          | None => raise NoExecutionConfig
          | Some (batch_size, _) =>
              '(num_batches, batches) <-
                calculate_batches num_iterations batch_size ;;
              app_arn <- do_upload project_arn (apk_path app_apk)
                           "ANDROID_APP" ;;
              match app_arn with
              | None => ret None
              | Some app_arn =>
              if app_arn =? "" then ret None else
              test_package_arn <- do_upload project_arn (apk_path test_apk)
                                    "INSTRUMENTATION_TEST_PACKAGE" ;;
              match test_package_arn with
              | None => ret None
              | Some test_package_arn =>
              if test_package_arn =? "" then ret None else
              let test_selector := "-e class " ++ full_name selected_test in
              match spec_template w with
              | MissingFile => ret None
              | UnreadableFile => raise CannotRead
              | FileContent template_content =>
                  scheduled <-
                    schedule_each project_arn app_arn test_package_arn
                      branch_s commit_s name test_selector template_content
                      (full_name selected_test) num_batches 1 batches
                      [] [] [] ;;
                  match scheduled with
                  | None => ret None
                  | Some (run_arns, test_spec_arns, run_names) =>
                      ret (Some {| info_run_arns := run_arns;
                                   info_app_arn := app_arn;
                                   info_test_package_arn := test_package_arn;
                                   info_test_spec_arns := test_spec_arns;
                                   info_test_class := full_name selected_test;
                                   info_run_names := run_names |})
                  end
              end
              end
              end
          end
      end
  | _, _ => ret None
  end.

End Commands.

(** ** Worlds used as examples *)

(** A build with its two APKs and one benchmark test; batches of 50
    iterations and 3 retries.  The uploads of test specs fail from the
    time [specs_fail_from] on, the scheduling calls from the time
    [scheduling_fails_from] on. *)
Definition lab (specs_fail_from scheduling_fails_from : nat) : world :=
  {| exists_path := fun _ => true;
     glob_apks := fun d =>
       [ {| apk_name := "benchmark-dev-perf.apk";
            apk_path := d ++ "/benchmark-dev-perf.apk" |};
         {| apk_name := "app-dev-perf.apk";
            apk_path := d ++ "/app-dev-perf.apk" |} ];
     tests_file :=
       TestClasses
         [ {| yaml_class_name := Some "com.example.Benchmark";
              yaml_tests := [ {| yaml_name := Some "coldStartup";
                                 yaml_description := None |} ] |} ];
     get_device_pool := fun _ => Some "Pixel";
     test_execution_config := Some (50%Z, 3%Z);
     spec_template :=
       FileContent "args: {{TEST_SELECTOR}} -e n {{NUM_ITERATIONS}}";
     can_write := fun _ => true;
     can_make_dirs := fun _ => true;
     now := "2024-01-01 00:00:00";
     upload_apk := fun t _ _ ty =>
       if (ty =? "INSTRUMENTATION_TEST_SPEC") && Nat.leb specs_fail_from t
       then None else Some ("arn:upload:" ++ tally t);
     schedule_test_run := fun t _ _ _ _ _ =>
       if Nat.leb scheduling_fails_from t then None
       else Some ("arn:run:" ++ tally t) |}.

(** The same world with another [benchmark_tests.yml]. *)
Definition with_tests (w : world) (classes : list yaml_class) : world :=
  {| exists_path := exists_path w;
     glob_apks := glob_apks w;
     tests_file := TestClasses classes;
     get_device_pool := get_device_pool w;
     test_execution_config := test_execution_config w;
     spec_template := spec_template w;
     can_write := can_write w;
     can_make_dirs := can_make_dirs w;
     now := now w;
     upload_apk := upload_apk w;
     schedule_test_run := schedule_test_run w |}.

(** Two classes with a test of the same name, and an entry without its
    [class]. *)
Definition startup_class : yaml_class :=
  {| yaml_class_name := Some "com.example.Startup";
     yaml_tests := [ {| yaml_name := Some "warmStartup";
                        yaml_description := Some "warm" |};
                     {| yaml_name := Some "coldStartup";
                        yaml_description := None |} ] |}.

Definition scroll_class : yaml_class :=
  {| yaml_class_name := Some "com.example.Scroll";
     yaml_tests := [ {| yaml_name := Some "scroll";
                        yaml_description := None |} ] |}.

Definition legacy_class : yaml_class :=
  {| yaml_class_name := Some "com.example.Legacy";
     yaml_tests := [ {| yaml_name := Some "coldStartup";
                        yaml_description := None |} ] |}.

Definition nameless_class : yaml_class :=
  {| yaml_class_name := None; yaml_tests := [] |}.

End Orchestration.

(* ------------------------------------------------------------------ *)
(** * Reading the record of the calls of a command *)
(* ------------------------------------------------------------------ *)


Module OrchestrationLog.
Import Ascii String PyNum PyStr PyText Naming BatchPlanner DeviceFarm
       Orchestration.
Local Open Scope string_scope.

Definition is_schedule (c : call) : bool :=
  match c with ScheduleRun _ _ _ _ _ _ => true | _ => false end.

Definition is_upload (c : call) : bool :=
  match c with UploadApk _ _ _ _ => true | _ => false end.

Definition is_monitor (c : call) : bool :=
  match c with MonitorRuns _ _ => true | _ => false end.

(** A run was scheduled. *)
Definition scheduled_ok (c : call) : bool :=
  match c with
  | ScheduleRun _ _ _ _ _ (Some a) => negb (a =? "")
  | _ => false
  end.

(** A test spec was uploaded. *)
Definition spec_uploaded_ok (c : call) : bool :=
  match c with
  | UploadApk _ _ ty (Some a) =>
      (ty =? "INSTRUMENTATION_TEST_SPEC") && negb (a =? "")
  | _ => false
  end.

(** A call returned nothing: [None] or the empty string. *)
Definition nothing (r : option string) : bool :=
  match r with Some a => a =? "" | None => true end.

(** The upload of a test spec or the scheduling of a run gave nothing. *)
Definition batch_failed (c : call) : bool :=
  match c with
  | ScheduleRun _ _ _ _ _ r => nothing r
  | UploadApk _ _ ty r => (ty =? "INSTRUMENTATION_TEST_SPEC") && nothing r
  | _ => false
  end.

(** The test specs written, oldest first, each with its path. *)
Fixpoint written (log : list call) : list (string * string) :=
  match log with
  | [] => []
  | WriteSpec path contents :: older =>
      (written older ++ [(path, contents)])%list
  | _ :: older => written older
  end.

(** The test specs of the batches numbered from [batch_idx]. *)
Fixpoint planned_specs (branch_s commit_s name template_content
    test_selector : string) (batch_idx : Z) (batches : list Z)
  : list (string * string) :=
  match batches with
  | [] => []
  | batch_iterations :: rest =>
      (test_spec_path branch_s commit_s name batch_idx,
       spec_contents template_content test_selector batch_iterations)
      :: planned_specs branch_s commit_s name template_content test_selector
           (batch_idx + 1) rest
  end.

(** The calls made for the test specs: each spec is written, uploaded and
    removed before the next one is written. *)
Inductive spec_rounds (project_arn : string) : list call -> Prop :=
| rounds_nil : spec_rounds project_arn []
| rounds_cons path contents r older :
    spec_rounds project_arn older ->
    spec_rounds project_arn
      (Unlink path
       :: UploadApk project_arn path "INSTRUMENTATION_TEST_SPEC" r
       :: WriteSpec path contents :: older).

(** The names given to the runs of the batches numbered from
    [batch_idx]. *)
Fixpoint names_from (base_name : string) (num_batches batch_idx : Z)
    (count : nat) : list string :=
  match count with
  | O => []
  | S n => batch_run_name base_name batch_idx num_batches
           :: names_from base_name num_batches (batch_idx + 1) n
  end.

(** The calls that schedule the runs of [indexes], oldest first. *)
Fixpoint schedule_calls (app_arn test_package_arn class_name : string)
    (test_spec_arns run_names : list string) (indexes : list Z)
    (run_arns : list string) : list call :=
  match indexes, run_arns with
  | i :: indexes', a :: run_arns' =>
      ScheduleRun app_arn test_package_arn
        (nth (Z.to_nat i) test_spec_arns "") class_name
        (nth (Z.to_nat i) run_names "") (Some a)
      :: schedule_calls app_arn test_package_arn class_name test_spec_arns
           run_names indexes' run_arns'
  | _, _ => []
  end.

(** The value the command ends with once the monitor was called. *)
Definition after_monitor (env : services) (fuel : nat) (req : request)
    (num_batches : Z) : outcome report :=
  match monitor_runs_parallel_with_retry env req fuel with
  | Continue _ => Monitoring
  | Return e st =>
      if fst (return_value e st)
      then match snd (return_value e st) with
           | [] => Done NoTracesDownloaded
           | _ :: _ =>
               Done (TracesSaved (List.length (snd (return_value e st)))
                       num_batches)
           end
      else SysExit 1
  end.

(** The calls made before the test specs are prepared: the uploads of the
    two APKs and the creation of the traces directory. *)
Definition preparation (c : call) : Prop :=
  (exists project_arn path ty r,
     c = UploadApk project_arn path ty r /\
     ty <> "INSTRUMENTATION_TEST_SPEC") \/
  (exists parts, c = MakeDirs parts).

(** The calls of the batches that went through, with the runs, test specs
    and names they gave: for each batch the spec is written, uploaded and
    removed and the run is scheduled. *)
Inductive scheduled_rounds (project_arn app pkg cls : string)
  : list call -> list string -> list string -> list string -> Prop :=
| scheduled_none : scheduled_rounds project_arn app pkg cls [] [] [] []
| scheduled_more older arns specs names path contents spec_arn rname arn :
    scheduled_rounds project_arn app pkg cls older arns specs names ->
    spec_arn <> "" -> arn <> "" ->
    scheduled_rounds project_arn app pkg cls
      (ScheduleRun app pkg spec_arn cls rname (Some arn)
       :: Unlink path
       :: UploadApk project_arn path "INSTRUMENTATION_TEST_SPEC"
            (Some spec_arn)
       :: WriteSpec path contents :: older)
      (arns ++ [arn]) (specs ++ [spec_arn]) (names ++ [rname]).

(** The calls of a batch that did not go through: the upload of its spec
    failed, or its run was not scheduled. *)
Definition unfinished_round (project_arn app pkg cls : string)
    (partial : list call) : Prop :=
  (exists path contents r,
     (r = None \/ r = Some "") /\
     partial = [Unlink path;
                UploadApk project_arn path "INSTRUMENTATION_TEST_SPEC" r;
                WriteSpec path contents]) \/
  (exists path contents spec_arn rname r,
     spec_arn <> "" /\ (r = None \/ r = Some "") /\
     partial = [ScheduleRun app pkg spec_arn cls rname r;
                Unlink path;
                UploadApk project_arn path "INSTRUMENTATION_TEST_SPEC"
                  (Some spec_arn);
                WriteSpec path contents]).

(** An entry of [test_classes] without [class], or with a test without
    [name]. *)
Definition malformed (c : yaml_class) : Prop :=
  yaml_class_name c = None \/
  exists t, In t (yaml_tests c) /\ yaml_name t = None.

Section Shapes.

Variable w : world.

(** How a run of [non_interactive_upload_and_test] went: the calls made,
    oldest last, are those of the preparation, then those for the test
    specs, then those that schedule the runs, then the call of the
    monitor. *)
Definition upload_and_test_run (env : services) (fuel : nat)
    (branch commit project_arn name : string) (num_iterations : Z)
    (out : outcome report) (log : list call) : Prop :=
  exists spec_part prelude,
    Forall preparation prelude /\
    spec_rounds project_arn spec_part /\
    (spec_part = [] \/
     exists batch_size retries nb selected template_content k,
       test_execution_config w = Some (batch_size, retries) /\
       num_batches num_iterations batch_size = Some nb /\
       select_test name (get_available_tests (tests_file w)) = Some selected /\
       spec_template w = FileContent template_content /\
       (k <= Z.to_nat nb)%nat /\
       written spec_part
       = planned_specs (branch_sanitized branch) (commit_short commit) name
           template_content ("-e class " ++ full_name selected) 1
           (firstn k (batches_of nb num_iterations batch_size))) /\
    ((log = (spec_part ++ prelude)%list /\
      (out = SysExit 1 \/ exists e, out = Raised e /\ e <> IndexError)) \/
     exists batch_size retries nb specs names app pkg cls,
       test_execution_config w = Some (batch_size, retries) /\
       num_batches num_iterations batch_size = Some nb /\
       List.length specs = Z.to_nat nb /\
       List.length names = Z.to_nat nb /\
       List.length (written spec_part) = Z.to_nat nb /\
       Forall (fun c => is_upload c = true -> spec_uploaded_ok c = true)
              spec_part /\
       ((exists spec rname r added,
           (r = None \/ r = Some "") /\
           (List.length added < Z.to_nat nb)%nat /\
           Forall (fun a => a <> "") added /\
           log = (ScheduleRun app pkg spec cls rname r
                  :: rev (schedule_calls app pkg cls specs names (range nb)
                            added)
                  ++ spec_part ++ prelude)%list /\
           out = SysExit 1) \/
        (exists arns dir,
           List.length arns = Z.to_nat nb /\
           Forall (fun a => a <> "") arns /\
           let req := {| test_spec_arns := specs; run_names := names;
                         initial_run_arns := arns;
                         max_retries := retries |} in
           log = (MonitorRuns req dir
                  :: rev (schedule_calls app pkg cls specs names (range nb)
                            arns)
                  ++ spec_part ++ prelude)%list /\
           out = after_monitor env fuel req nb))).

(** How a run of [schedule_test_for_pipeline] went: the two APKs are
    uploaded, then come the batches that went through, then the calls of
    the batch that did not, if there is one. *)
Definition scheduling_run (project_arn : string) (num_iterations : Z)
    (out : outcome (option scheduling_info)) (log : list call) : Prop :=
  exists partial done prelude app pkg cls arns specs names,
    log = (partial ++ done ++ prelude)%list /\
    Forall preparation prelude /\
    scheduled_rounds project_arn app pkg cls done arns specs names /\
    ((unfinished_round project_arn app pkg cls partial /\ out = Done None) \/
     (partial = [] /\
      ((out = Done None /\ done = []) \/
       (exists e, out = Raised e /\ e <> IndexError) \/
       (exists batch_size retries nb,
          test_execution_config w = Some (batch_size, retries) /\
          num_batches num_iterations batch_size = Some nb /\
          List.length arns = Z.to_nat nb /\
          out = Done (Some {| info_run_arns := arns;
                              info_app_arn := app;
                              info_test_package_arn := pkg;
                              info_test_spec_arns := specs;
                              info_test_class := cls;
                              info_run_names := names |}))))).

End Shapes.

End OrchestrationLog.

(* ------------------------------------------------------------------ *)
(** * Cloning the repository *)
(* ------------------------------------------------------------------ *)


Module Cloner.
Import Ascii String PyText.
Local Open Scope string_scope.

(** An exception of class [Exception] raised by GitPython, with its text
    [str(e)]. *)
Inductive git_exception : Type :=
| GitCommandError (text : string)
| OtherException (text : string).

(** What the function finds and what git answers. *)
Record git : Type := {
  target_exists : bool;       (* [target_dir.exists()] *)
  rmtree : bool;              (* [shutil.rmtree(target_dir)] succeeds *)
  mkdir_parent : bool;        (* [target_dir.parent.mkdir(...)] succeeds *)
  (* [Repo.clone_from(url, target_dir)], with [branch=..., single_branch]
     when a branch is given *)
  clone_from : string -> option string -> option git_exception;
  checkout : string -> option git_exception   (* [repo.git.checkout(commit)] *)
}.

Inductive clone_outcome : Type :=
| Cloned (url : string) (branch commit : option string)
| CloneError (message : string)
| Propagated.         (* an exception raised before the [try] *)

(** [repo_url.replace('https://', f'https://{token}@')] *)
Definition auth_url (repo_url token : string) : string :=
  replace "https://" ("https://" ++ token ++ "@") repo_url.

(** The two [except] clauses. *)
Definition clone_error (token : string) (e : git_exception) : clone_outcome :=
  match e with
  | GitCommandError text =>
      CloneError ("Git operation failed: " ++ replace token "***" text)
  | OtherException text =>
      CloneError ("Failed to clone repository: " ++ replace token "***" text)
  end.

(** [if branch:], [if commit:] *)
Definition given (s : option string) : option string :=
  match s with
  | Some x => if x =? "" then None else Some x
  | None => None
  end.

Definition clone_repository (g : git) (repo_url token : string)
    (commit branch : option string) : clone_outcome :=
  if target_exists g && negb (rmtree g) then Propagated
  else if negb (mkdir_parent g) then Propagated
  else
    let url := auth_url repo_url token in
    match clone_from g url (given branch) with
    | Some e => clone_error token e
    | None =>
        match given commit with
        | Some c =>
            match checkout g c with
            | Some e => clone_error token e
            | None => Cloned url (given branch) (Some c)
            end
        | None => Cloned url (given branch) None
        end
    end.

(** A git whose clone fails with the command line in its message. *)
Definition refusing_git : git :=
  {| target_exists := true; rmtree := true; mkdir_parent := true;
     clone_from := fun url _ =>
       Some (GitCommandError ("Cmd('git') failed: git clone -v " ++ url
                              ++ " /tmp/repo: Authentication failed for '"
                              ++ url ++ "'"));
     checkout := fun _ => None |}.

End Cloner.


(** ** Facts on the rounded quotient *)

Module BatchPlannerFacts.
Import PyNum BatchPlanner.

Lemma pow2_pos (n : Z) : 0 <= n -> 0 < 2 ^ n.
Proof. intros; apply Z.pow_pos_nonneg; lia. Qed.

Lemma pow2_split (n m : Z) : 0 <= n -> 0 <= m -> 2 ^ (n + m) = 2 ^ n * 2 ^ m.
Proof. intros; apply Z.pow_add_r; lia. Qed.

(** Lower bound given by the exponent: [b * 2^e <= a], with the negative
    powers moved to the other side. *)
Lemma quot_exponent_lower (a b : Z) :
  0 < a -> 0 < b ->
  let e := quot_exponent a b in
  b * 2 ^ Z.max 0 e <= a * 2 ^ Z.max 0 (- e).
Proof.
  intros Ha Hb e. subst e. unfold quot_exponent.
  destruct (Z.log2_spec a Ha) as [La _].
  destruct (Z.log2_spec b Hb) as [_ Ub].
  pose proof (Z.log2_nonneg a) as Na.
  pose proof (Z.log2_nonneg b) as Nb.
  set (la := Z.log2 a) in *. set (lb := Z.log2 b) in *.
  destruct (Z.ltb_spec (a * 2 ^ Z.max 0 (- (la - lb)))
                       (b * 2 ^ Z.max 0 (la - lb))) as [Hlt | Hge];
    [ | lia ].
  destruct (Z_lt_le_dec 0 (la - lb)) as [Hpos | Hneg].
  - replace (Z.max 0 (la - lb - 1)) with (la - lb - 1) by lia.
    replace (Z.max 0 (- (la - lb - 1))) with 0 by lia.
    rewrite Z.pow_0_r, Z.mul_1_r.
    assert (H1 : 2 ^ la = 2 ^ (lb + 1) * 2 ^ (la - lb - 1)).
    { rewrite <- pow2_split by lia. f_equal; lia. }
    pose proof (pow2_pos (la - lb - 1) ltac:(lia)). nia.
  - replace (Z.max 0 (la - lb - 1)) with 0 by lia.
    replace (Z.max 0 (- (la - lb - 1))) with (lb + 1 - la) by lia.
    rewrite Z.pow_0_r, Z.mul_1_r.
    assert (H1 : 2 ^ (lb + 1) = 2 ^ la * 2 ^ (lb + 1 - la)).
    { rewrite <- pow2_split by lia. f_equal; lia. }
    pose proof (pow2_pos (lb + 1 - la) ltac:(lia)). nia.
Qed.

Lemma quot_exponent_ge (a b : Z) :
  0 < a -> 0 < b -> Z.log2 a - Z.log2 b - 1 <= quot_exponent a b.
Proof.
  intros _ _. unfold quot_exponent.
  destruct (_ <? _); lia.
Qed.

(** Standard bracket of the integer ceiling. *)
Lemma ceil_div_bracket (t b : Z) :
  0 < b -> b * (ceil_div t b - 1) < t <= b * ceil_div t b.
Proof.
  intros Hb. unfold ceil_div.
  pose proof (Z.div_mod (t + b - 1) b ltac:(lia)).
  pose proof (Z.mod_pos_bound (t + b - 1) b Hb). lia.
Qed.

(** [math.ceil] of [m * 2^-s] from a bracket of [m]. *)
Lemma math_ceil_bracket (m s k : Z) :
  0 < s -> (k - 1) * 2 ^ s < m <= k * 2 ^ s -> math_ceil (m, - s) = k.
Proof.
  intros Hs [Hlo Hhi]. unfold math_ceil.
  destruct (Z.leb_spec 0 (- s)); [lia | ].
  rewrite Z.opp_involutive.
  pose proof (pow2_pos s ltac:(lia)) as HD.
  set (D := 2 ^ s) in *.
  assert (Hq : - m / D = - k).
  { symmetry. apply Z.div_unique with (r := k * D - m); lia. }
  lia.
Qed.

(** Below [2^53] the float detour is exact: the rounded quotient has the
    same ceiling as the rational quotient. *)
Lemma num_batches_exact (t b : Z) :
  0 < t < 2 ^ 53 -> 0 < b < 2 ^ 1022 ->
  num_batches t b = Some (ceil_div t b).
Proof.
  intros [Ht0 Ht] [Hb0 Hb].
  unfold num_batches, int_true_divide.
  destruct (Z.eqb_spec b 0); [lia | ].
  destruct (Z.eqb_spec t 0); [lia | ].
  rewrite (Z.abs_eq t), (Z.abs_eq b) by lia.
  rewrite (Z.sgn_pos t), (Z.sgn_pos b) by lia.
  pose proof (quot_exponent_lower t b Ht0 Hb0) as HL. cbv zeta in HL.
  pose proof (quot_exponent_ge t b Ht0 Hb0) as HG.
  assert (Hlb : Z.log2 b < 1022) by (apply Z.log2_lt_pow2; lia).
  pose proof (Z.log2_nonneg t) as Hlt.
  unfold round_quot.
  set (e := quot_exponent t b) in *.
  assert (He : e <= 52).
  { destruct (Z_le_gt_dec e 52) as [ | Hbig]; [assumption | exfalso].
    replace (Z.max 0 e) with (53 + (e - 53)) in HL by lia.
    replace (Z.max 0 (- e)) with 0 in HL by lia.
    rewrite pow2_split in HL by lia.
    pose proof (pow2_pos (e - 53) ltac:(lia)).
    rewrite Z.pow_0_r in HL. nia. }
  replace (Z.max (e - 52) (-1074)) with (e - 52) by lia.
  pose proof (ceil_div_bracket t b Hb0) as [Hk1 Hk2].
  set (k := ceil_div t b) in *.
  destruct (Z.eq_dec e 52) as [E52 | NE52].
  - (* the quotient is at least 2^52: the divisor is 1 *)
    rewrite E52 in *. change (52 - 52) with 0.
    change (Z.max 0 (- 0)) with 0. change (Z.max 0 0) with 0.
    change (Z.max 0 52) with 52 in HL. change (Z.max 0 (- 52)) with 0 in HL.
    rewrite Z.pow_0_r in *. rewrite !Z.mul_1_r in *.
    assert (b = 1) by lia. subst b.
    rewrite Z.div_1_r, Z.mod_1_r.
    change (2 * 0 <? 1) with true. change (0 <=? 0) with true.
    cbv iota.
    assert (Hov : (2 ^ 1024 <=? t) = false) by (apply Z.leb_gt; lia).
    cbn [andb]. rewrite Hov. cbn [option_map].
    f_equal. unfold math_ceil. change (0 <=? 0) with true. cbv iota.
    rewrite Z.pow_0_r. lia.
  - set (s := 52 - e).
    assert (Hs : 0 < s) by (unfold s; lia).
    replace (e - 52) with (- s) by (unfold s; lia).
    replace (Z.max 0 (- - s)) with s by lia.
    replace (Z.max 0 (- s)) with 0 by lia.
    rewrite Z.pow_0_r, Z.mul_1_r.
    destruct (Z.leb_spec 0 (- s)); [lia | ]. cbn [andb option_map].
    pose proof (pow2_pos s ltac:(lia)) as HD.
    (* b < 2 * 2^s, from b * 2^e <= t < 2^53 *)
    assert (HbD : b < 2 * 2 ^ s).
    { destruct (Z_le_gt_dec 0 e) as [Hpos | Hneg].
      - replace (Z.max 0 e) with e in HL by lia.
        replace (Z.max 0 (- e)) with 0 in HL by lia.
        rewrite Z.pow_0_r, Z.mul_1_r in HL.
        assert (E : 2 ^ 53 = 2 ^ e * (2 * 2 ^ s)).
        { replace 53 with (e + (1 + s)) by (unfold s; lia).
          rewrite pow2_split by lia. rewrite pow2_split by lia.
          reflexivity. }
        pose proof (pow2_pos e Hpos). nia.
      - replace (Z.max 0 e) with 0 in HL by lia.
        replace (Z.max 0 (- e)) with (- e) in HL by lia.
        rewrite Z.pow_0_r, Z.mul_1_r in HL.
        assert (E : 2 * 2 ^ s = 2 ^ 53 * 2 ^ (- e)).
        { replace s with (52 + - e) by (unfold s; lia).
          rewrite pow2_split by lia. lia. }
        pose proof (pow2_pos (- e) ltac:(lia)). nia. }
    set (D := 2 ^ s) in *.
    pose proof (Z.div_mod (t * D) b ltac:(lia)) as Hdm.
    pose proof (Z.mod_pos_bound (t * D) b Hb0) as Hr.
    set (q := t * D / b) in *. set (r := (t * D) mod b) in *.
    rewrite !Z.mul_1_l.
    f_equal. apply math_ceil_bracket; [assumption | ]. fold D.
    assert (Hq1 : (k - 1) * D <= q) by nia.
    assert (Hq2 : q <= k * D) by nia.
    destruct (Z.ltb_spec (2 * r) b) as [Hlo | Hhi].
    + (* rounded down *)
      split; [ | assumption ].
      destruct (Z.eq_dec q ((k - 1) * D)) as [Eq | ]; [exfalso | lia].
      assert (r = (t - b * (k - 1)) * D) by nia. nia.
    + assert (Hup : q + 1 <= k * D).
      { destruct (Z.eq_dec q (k * D)) as [Eq | ]; [exfalso | lia]. nia. }
      destruct (Z.ltb_spec b (2 * r)); [lia | ].
      destruct (Z.even q); [ | lia ].
      split; [ | assumption ].
      destruct (Z.eq_dec q ((k - 1) * D)) as [Eq | ]; [exfalso | lia].
      assert (r = (t - b * (k - 1)) * D) by nia. nia.
Qed.

(** ** The planning loop *)

Lemma batches_of_length (n t b : Z) :
  length (batches_of n t b) = Z.to_nat n.
Proof. unfold batches_of, range. now rewrite !length_map, length_seq. Qed.

Lemma batches_of_nth (n t b : Z) (i : nat) :
  (i < Z.to_nat n)%nat ->
  nth i (batches_of n t b) 0 = Z.min b (t - Z.of_nat i * b).
Proof.
  intros Hi. unfold batches_of, range.
  rewrite nth_indep with (d' := Z.min b (t - Z.of_nat 0 * b))
    by now rewrite !length_map, length_seq.
  rewrite map_nth with (f := fun i => Z.min b (t - i * b)).
  rewrite map_nth, seq_nth by assumption. reflexivity.
Qed.

Lemma sum_app (l1 l2 : list Z) : sum (l1 ++ l2) = sum l1 + sum l2.
Proof.
  unfold sum. induction l1 as [ | x l1 IH]; cbn [app fold_right]; lia.
Qed.

(** Every full batch contributes [b]. *)
Lemma sum_full_batches (m : nat) (t b : Z) :
  0 < b -> Z.of_nat m * b <= t ->
  sum (batches_of (Z.of_nat m) t b) = Z.of_nat m * b.
Proof.
  intros Hb. unfold batches_of, range. rewrite Nat2Z.id.
  induction m as [ | m IH]; intros Hm; [reflexivity | ].
  rewrite seq_S, !map_app, sum_app, IH by lia.
  cbn [map sum fold_right Nat.add]. lia.
Qed.

Lemma batches_of_succ (m : nat) (t b : Z) :
  batches_of (Z.of_nat (S m)) t b
  = batches_of (Z.of_nat m) t b ++ [Z.min b (t - Z.of_nat m * b)].
Proof.
  unfold batches_of, range. rewrite !Nat2Z.id, seq_S, !map_app. reflexivity.
Qed.

(** What the loop produces when it is run for the exact ceiling. *)
Lemma batches_of_ceil (t b : Z) :
  0 < t -> 0 < b ->
  let count := ceil_div t b in
  let l := batches_of count t b in
  Z.of_nat (length l) = count /\
  Forall (fun s => 0 < s <= b) l /\
  sum l = t /\
  (forall i, 0 <= i < count - 1 -> nth (Z.to_nat i) l 0 = b) /\
  nth (Z.to_nat (count - 1)) l 0 = t - (count - 1) * b.
Proof.
  intros Ht Hb count l.
  pose proof (ceil_div_bracket t b Hb) as [Hk1 Hk2]. fold count in Hk1, Hk2.
  assert (Hc : 1 <= count) by nia.
  assert (Hlen : length l = Z.to_nat count) by apply batches_of_length.
  assert (Hnth : forall i, 0 <= i < count ->
                 nth (Z.to_nat i) l 0 = Z.min b (t - i * b)).
  { intros i Hi. unfold l. rewrite batches_of_nth by lia.
    now rewrite Z2Nat.id by lia. }
  repeat split.
  - lia.
  - apply Forall_forall. intros s Hs.
    destruct (In_nth l s 0 Hs) as (i & Hi & <-).
    rewrite <- (Nat2Z.id i), Hnth by lia. nia.
  - assert (Hm : Z.of_nat (Z.to_nat (count - 1)) = count - 1) by lia.
    unfold l. replace count with (Z.of_nat (S (Z.to_nat (count - 1)))) by lia.
    rewrite batches_of_succ, sum_app, sum_full_batches; rewrite ?Hm;
      [ | lia | nia].
    cbn [sum fold_right]. nia.
  - intros i Hi. rewrite Hnth by lia. nia.
  - rewrite Hnth by lia. nia.
Qed.

(** C1: the code at the failing input.  Above [2^53] the float quotient
    loses the remainder: [30000000000000001 / 10000000000000000] is [3.0],
    so three full batches are planned, one fewer than [ceil(T/B)], and one
    iteration is dropped. *)
Lemma plan_batches_large_counterexample :
  let t := 30000000000000001 in
  let b := 10000000000000000 in
  0 < t /\ 0 < b /\
  exists l, plan_batches t b = Some l /\
            Z.of_nat (length l) <> ceil_div t b /\
            sum l <> t.
Proof.
  cbv zeta. split; [lia | split; [lia | ]].
  exists [10000000000000000; 10000000000000000; 10000000000000000].
  split; [vm_compute; reflexivity | ].
  split; vm_compute; discriminate.
Qed.



End BatchPlannerFacts.

(* ------------------------------------------------------------------ *)
(** * Facts on the trace extraction *)
(* ------------------------------------------------------------------ *)

Module TraceProcessorFacts.
Import Ascii String PyStr TraceProcessor.
Local Open Scope string_scope.

(** ** The query *)

Lemma first_ts_absent (marker : string) (l : list slice) :
  (forall s, In s l -> name s <> marker) -> first_ts marker l = None.
Proof.
  induction l as [ | s l IH]; intros H; [reflexivity | ].
  cbn [first_ts].
  destruct (String.eqb_spec (name s) marker) as [E | _].
  - exfalso. apply (H s); [now left | exact E].
  - apply IH. intros s' Hs'. apply H. now right.
Qed.

(** The timestamp found is the one of a slice of that name, and no slice of
    that name is earlier. *)
Lemma first_ts_present (marker : string) (l : list slice) (t : Z) :
  first_ts marker l = Some t ->
  (exists s, In s l /\ name s = marker /\ ts s = t) /\
  (forall s, In s l -> name s = marker -> (t <= ts s)%Z).
Proof.
  revert t. induction l as [ | s l IH]; intros t H; [discriminate | ].
  cbn [first_ts] in H.
  destruct (String.eqb_spec (name s) marker) as [E | NE].
  - destruct (first_ts marker l) as [t' | ] eqn:F.
    + destruct (IH t' eq_refl) as [(s' & Hin & Hn & Ht) Hmin].
      injection H as <-. split.
      * destruct (Z.min_spec (ts s) t') as [[_ ->] | [_ ->]].
        -- exists s. repeat split; [now left | assumption].
        -- exists s'. repeat split; [now right | assumption | assumption].
      * intros s0 [<- | Hin0] Hn0; [lia | ].
        specialize (Hmin s0 Hin0 Hn0). lia.
    + injection H as <-. split.
      * exists s. repeat split; [now left | assumption].
      * intros s0 [<- | Hin0] Hn0; [lia | ].
        exfalso. revert F. clear - Hin0 Hn0.
        induction l as [ | y l IHl]; [destruct Hin0 | ].
        cbn [first_ts]. destruct Hin0 as [-> | Hin0].
        -- rewrite Hn0, String.eqb_refl. now destruct (first_ts marker l).
        -- destruct (name y =? marker); [now destruct (first_ts marker l) | ].
           now apply IHl.
  - destruct (IH t H) as [(s' & Hin & Hn & Ht) Hmin]. split.
    + exists s'. repeat split; [now right | assumption | assumption].
    + intros s0 [<- | Hin0] Hn0; [contradiction | now apply Hmin].
Qed.

(** A row comes out of the extraction only for a loaded trace in which the
    three markers were found, and it holds the two differences. *)
Lemma extract_some (c : trace_content) (s r : float) :
  extract_startup_metrics_from_trace c = Some (s, r) ->
  exists l page bind render,
    c = Slices l /\
    first_ts PAGE_LOAD l = Some page /\
    first_ts BIND_APP l = Some bind /\
    first_ts RENDER_BEGIN l = Some render /\
    s = latency_ms page bind /\ r = latency_ms render bind.
Proof.
  unfold extract_startup_metrics_from_trace, STARTUP_METRICS_QUERY.
  destruct c as [ | l | ]; try discriminate.
  destruct (first_ts PAGE_LOAD l) as [page | ] eqn:Fp; [ | discriminate].
  destruct (first_ts BIND_APP l) as [bind | ] eqn:Fb; [ | discriminate].
  destruct (first_ts RENDER_BEGIN l) as [render | ] eqn:Fr; [ | discriminate].
  destruct (notna _); [ | discriminate].
  intros [= <- <-]. exists l, page, bind, render. repeat split; assumption.
Qed.

Lemma extract_missing (l : list slice) (marker : string) :
  marker = PAGE_LOAD \/ marker = BIND_APP \/ marker = RENDER_BEGIN ->
  (forall s, In s l -> name s <> marker) ->
  extract_startup_metrics_from_trace (Slices l) = None.
Proof.
  intros Hm Habs. pose proof (first_ts_absent marker l Habs) as F.
  unfold extract_startup_metrics_from_trace, STARTUP_METRICS_QUERY.
  destruct Hm as [-> | [-> | ->]]; rewrite F.
  - reflexivity.
  - now destruct (first_ts PAGE_LOAD l).
  - now destruct (first_ts PAGE_LOAD l), (first_ts BIND_APP l).
Qed.

(** C2, on the code: the query tests the three timestamps for [NULL]
    only.  A trace whose page-load and render markers come before
    [bindApplication] gives a record with negative latencies, and one whose
    markers coincide gives a record with zero latencies. *)
Lemma unordered_markers_counterexample :
  let mk := fun l => {| trace_path := ["run"; "trace_iter1.perfetto-trace"];
                        batch_id := 0%nat; task_run_arn := "run";
                        content := Slices l |} in
  (exists m,
     process_single_trace
       (mk [ {| name := BIND_APP; ts := 5000000 |};
             {| name := RENDER_BEGIN; ts := 2000000 |};
             {| name := PAGE_LOAD; ts := 0 |} ]) = Some m /\
     PrimFloat.ltb (startup_latency_ms m) 0 = true /\
     PrimFloat.ltb (render_latency_ms m) 0 = true) /\
  (exists m,
     process_single_trace
       (mk [ {| name := BIND_APP; ts := 7 |};
             {| name := RENDER_BEGIN; ts := 7 |};
             {| name := PAGE_LOAD; ts := 7 |} ]) = Some m /\
     PrimFloat.eqb (startup_latency_ms m) 0 = true /\
     PrimFloat.eqb (render_latency_ms m) 0 = true).
Proof.
  cbv zeta. split.
  - eexists. split; [vm_compute; reflexivity | ].
    split; vm_compute; reflexivity.
  - eexists. split; [vm_compute; reflexivity | ].
    split; vm_compute; reflexivity.
Qed.

(** C2 (amended): a record is produced only for a trace in which the three
    markers occur, and it holds the differences between the first page-load,
    resp. render, timestamp and the first [bindApplication] timestamp,
    divided by [1000000.0]; when one of the markers does not occur, no record
    is produced. *)
Theorem record_requires_all_markers (t : task) :
  (forall m, process_single_trace t = Some m ->
     exists l page bind render,
       content t = Slices l /\
       first_occurrence PAGE_LOAD l page /\
       first_occurrence BIND_APP l bind /\
       first_occurrence RENDER_BEGIN l render /\
       startup_latency_ms m = latency_ms page bind /\
       render_latency_ms m = latency_ms render bind) /\
  (forall l marker,
     content t = Slices l ->
     marker = PAGE_LOAD \/ marker = BIND_APP \/ marker = RENDER_BEGIN ->
     (forall s, In s l -> name s <> marker) ->
     process_single_trace t = None).
Proof.
  split.
  - intros m H. unfold process_single_trace in H.
    destruct (search_iter _) as [ds | ]; [ | discriminate].
    destruct (extract_startup_metrics_from_trace (content t))
      as [[s r] | ] eqn:E; [ | discriminate].
    injection H as <-. cbn [startup_latency_ms render_latency_ms].
    destruct (extract_some _ _ _ E)
      as (l & page & bind & render & Hc & Fp & Fb & Fr & -> & ->).
    exists l, page, bind, render.
    repeat split; try assumption; now apply first_ts_present.
  - intros l marker Hc Hm Habs. unfold process_single_trace.
    rewrite Hc, (extract_missing l marker Hm Habs).
    now destruct (search_iter _).
Qed.

Lemma record_requires_all_markers_witness :
  let mk := fun l => {| trace_path := ["run"; "trace_iter1.perfetto-trace"];
                        batch_id := 0%nat; task_run_arn := "run";
                        content := Slices l |} in
  let full := [ {| name := BIND_APP; ts := 0 |};
                {| name := RENDER_BEGIN; ts := 2000000 |};
                {| name := PAGE_LOAD; ts := 5000000 |} ] in
  let partial := [ {| name := BIND_APP; ts := 0 |};
                   {| name := PAGE_LOAD; ts := 5000000 |} ] in
  (exists m, process_single_trace (mk full) = Some m /\
     exists l page bind render,
       content (mk full) = Slices l /\
       first_occurrence PAGE_LOAD l page /\
       first_occurrence BIND_APP l bind /\
       first_occurrence RENDER_BEGIN l render /\
       startup_latency_ms m = latency_ms page bind /\
       render_latency_ms m = latency_ms render bind) /\
  process_single_trace (mk partial) = None.
Proof.
  intros mk full partial. split.
  - eexists. split; [vm_compute; reflexivity | ].
    apply (proj1 (record_requires_all_markers (mk full))).
    vm_compute. reflexivity.
  - apply (proj2 (record_requires_all_markers (mk partial))
             partial RENDER_BEGIN).
    + reflexivity.
    + right. right. reflexivity.
    + intros s [<- | [<- | []]]; discriminate.
Defined.

(** C3: first markers at 0 ns ([bindApplication]), 2,000,000 ns (render
    begin) and 5,000,000 ns (page load) give the latencies 5.0 and 2.0, each
    the difference to [bindApplication] divided by 1,000,000; a trace with no
    render marker gives no record. *)
Theorem extraction_example (l : list slice) :
  (first_ts BIND_APP l = Some 0%Z ->
   first_ts RENDER_BEGIN l = Some 2000000%Z ->
   first_ts PAGE_LOAD l = Some 5000000%Z ->
   extract_startup_metrics_from_trace (Slices l) = Some (5%float, 2%float) /\
   5%float = latency_ms 5000000 0 /\ 2%float = latency_ms 2000000 0) /\
  ((forall s, In s l -> name s <> RENDER_BEGIN) ->
   extract_startup_metrics_from_trace (Slices l) = None).
Proof.
  split.
  - intros Fb Fr Fp.
    unfold extract_startup_metrics_from_trace, STARTUP_METRICS_QUERY.
    rewrite Fb, Fr, Fp.
    repeat split; vm_compute; reflexivity.
  - apply extract_missing. right. right. reflexivity.
Qed.

Lemma extraction_example_witness :
  let full := [ {| name := "other"; ts := 1 |};
                {| name := PAGE_LOAD; ts := 5000000 |};
                {| name := BIND_APP; ts := 0 |};
                {| name := PAGE_LOAD; ts := 9000000 |};
                {| name := RENDER_BEGIN; ts := 2000000 |};
                {| name := BIND_APP; ts := 6000000 |} ] in
  let partial := [ {| name := BIND_APP; ts := 0 |};
                   {| name := PAGE_LOAD; ts := 5000000 |} ] in
  extract_startup_metrics_from_trace (Slices full)
  = Some (5%float, 2%float) /\
  extract_startup_metrics_from_trace (Slices partial) = None.
Proof.
  intros full partial. split.
  - apply (proj1 (extraction_example full)); vm_compute; reflexivity.
  - apply (proj2 (extraction_example partial)).
    intros s [<- | [<- | []]]; discriminate.
Defined.

(** ** The loop over the futures *)

Lemma collect_spec (fs : list (task * future)) :
  collect fs
  = (flat_map (fun p => future_record (snd p)) fs,
     List.length (filter (fun p => future_failed (snd p)) fs)).
Proof.
  induction fs as [ | [t f] fs IH]; [reflexivity | ].
  cbn [collect flat_map filter snd]. rewrite IH.
  destruct f as [ | [m | ]]; reflexivity.
Qed.

Lemma filter_length_perm {A : Type} (f : A -> bool) (l l' : list A) :
  Permutation l l' ->
  List.length (filter f l) = List.length (filter f l').
Proof.
  induction 1 as [ | x l l' _ IH | x y l | l l' l'' _ IH1 _ IH2 ];
    cbn [filter].
  - reflexivity.
  - destruct (f x); cbn [List.length]; now rewrite IH.
  - destruct (f x), (f y); reflexivity.
  - now rewrite IH1.
Qed.

(** Whatever the completion order, the loop ends with the records of the
    tasks that succeed and the number of those that do not. *)
Lemma collect_order (order : completion_order) (tasks : list task) :
  (forall l, Permutation (order l) l) ->
  Permutation
    (fst (collect (order (map (fun t => (t, run_task t)) tasks))))
    (good_records tasks) /\
  snd (collect (order (map (fun t => (t, run_task t)) tasks)))
  = failures tasks.
Proof.
  intros Hperm. rewrite collect_spec. cbn [fst snd].
  set (fs := map (fun t => (t, run_task t)) tasks).
  assert (Hg : flat_map (fun p => future_record (snd p)) fs
               = good_records tasks).
  { unfold fs, good_records. rewrite flat_map_concat_map, map_map.
    now rewrite <- flat_map_concat_map. }
  assert (Hf : List.length (filter (fun p => future_failed (snd p)) fs)
               = failures tasks).
  { unfold fs, failures. clear. induction tasks as [ | t ts IH];
      [reflexivity | ].
    cbn [map filter snd]. destruct (future_failed (run_task t));
      cbn [List.length]; now rewrite IH. }
  split.
  - rewrite <- Hg. apply Permutation_flat_map, Hperm.
  - rewrite <- Hf. apply filter_length_perm, Hperm.
Qed.

(** When no task yields a record, every task has failed. *)
Lemma no_record_all_failed (tasks : list task) :
  good_records tasks = [] -> failures tasks = List.length tasks.
Proof.
  unfold good_records, failures.
  induction tasks as [ | t ts IH]; [reflexivity | ].
  cbn [flat_map filter]. intros H.
  apply app_eq_nil in H as [H1 H2]. specialize (IH H2).
  unfold future_record in H1. unfold future_failed at 1.
  destruct (run_task t) as [ | [m | ]]; try discriminate;
    cbn [List.length]; now f_equal.
Qed.

Lemma trace_tasks_without_cache (d : directory) :
  trace_tasks (without_cache d) = trace_tasks d.
Proof. reflexivity. Qed.

End TraceProcessorFacts.


Module ExtractionClaims.
Import Ascii String PyStr TraceProcessor TraceProcessorFacts.
Local Open Scope string_scope.

Lemma cold_load (order : completion_order) (d : directory)
    (mw : option Z) (uc : bool) :
  cold d uc ->
  load_traces_with_batches_parallel order (Some d) mw uc
  = extract_directory order d mw uc.
Proof.
  unfold load_traces_with_batches_parallel. intros [-> | H]; [reflexivity | ].
  destruct uc; [ | reflexivity].
  destruct (cache_file d) as [ | | rows] eqn:E; try reflexivity.
  now destruct (H rows).
Qed.

Lemma workers_accepted (mw : option Z) :
  valid_workers mw ->
  match mw with Some n => (n <=? 0)%Z | None => false end = false.
Proof.
  destruct mw as [n | ]; cbn; [ | reflexivity].
  intros H. apply Z.leb_gt. exact H.
Qed.

(** C5, on the code: when no file at all yields a record the function
    raises [ValueError] to its caller.  Here the only trace has no
    iteration number in its name. *)
Lemma all_files_fail_counterexample :
  trace_tasks unnamed_directory <> [] /\
  result (load_traces_with_batches_parallel in_submission_order
            (Some unnamed_directory) None true)
  = Raises (NoValidTraceData 1).
Proof. split; [vm_compute; discriminate | vm_compute; reflexivity]. Qed.

(** C5 (amended): on a directory with at least one trace file, a file whose
    query fails, whose name has no iteration number or which lacks a marker
    contributes no record and is counted.  As long as one file yields a
    record, the records of all the files that succeed are returned, every
    file has been processed, and the count appears only in the warning; an
    error reaches the caller only when no file yields a record, and it
    carries the count. *)
Theorem extraction_failures_are_local (order : completion_order)
    (d : directory) (mw : option Z) (uc : bool) :
  (forall l, Permutation (order l) l) ->
  cold d uc -> valid_workers mw -> trace_tasks d <> [] ->
  let out := load_traces_with_batches_parallel order (Some d) mw uc in
  let tasks := trace_tasks d in
  (good_records tasks <> [] ->
   submitted out = tasks /\
   warning out = (if (0 <? failures tasks)%nat
                  then Some (failures tasks) else None) /\
   exists rows, result out = Frame rows /\
                Permutation rows (good_records tasks)) /\
  (good_records tasks = [] ->
   submitted out = tasks /\
   result out = Raises (NoValidTraceData (List.length tasks))).
Proof.
  intros Hperm Hcold Hw Hne. cbv zeta.
  rewrite (cold_load order d mw uc Hcold). unfold extract_directory.
  destruct (trace_tasks d) as [ | t0 ts] eqn:Et; [now destruct Hne | ].
  rewrite (workers_accepted mw Hw).
  destruct (collect_order order (t0 :: ts) Hperm) as [Hg Hf].
  destruct (collect _) as [metrics_list failed_count].
  cbn [fst snd] in Hg, Hf. subst failed_count.
  destruct metrics_list as [ | m ms].
  - apply Permutation_nil in Hg. split; intros Hgood.
    + now destruct Hgood.
    + cbn [submitted result]. split; [reflexivity | ].
      now rewrite (no_record_all_failed _ Hgood).
  - split; intros Hgood.
    + cbn [submitted result warning]. repeat split.
      exists (m :: ms). now split.
    + rewrite Hgood in Hg. symmetry in Hg.
      apply Permutation_nil in Hg. discriminate.
Qed.

Lemma extraction_failures_are_local_witness :
  let d := mixed_directory CacheAbsent true in
  let out := load_traces_with_batches_parallel in_reverse_order
               (Some d) (Some 4%Z) true in
  submitted out = trace_tasks d /\
  warning out = Some 3%nat /\
  exists rows, result out = Frame rows /\
               Permutation rows (good_records (trace_tasks d)).
Proof.
  intros d out.
  assert (Hperm : forall l, Permutation (in_reverse_order l) l).
  { intros l. symmetry. apply Permutation_rev. }
  assert (Hcold : cold d true).
  { right. intros rows. discriminate. }
  assert (Hw : valid_workers (Some 4%Z)) by reflexivity.
  assert (Hne : trace_tasks d <> []) by (vm_compute; discriminate).
  assert (Hgood : good_records (trace_tasks d) <> [])
    by (vm_compute; discriminate).
  exact (proj1 (extraction_failures_are_local in_reverse_order d (Some 4%Z)
                  true Hperm Hcold Hw Hne) Hgood).
Defined.

(** ** The snapshot *)

(** C7, on the code: a failure to write the snapshot is swallowed.  In a
    directory that cannot be written, the first call succeeds, and the second
    call extracts every file again; with another completion order it
    returns the records in another order. *)
Lemma unwritable_cache_counterexample :
  let d := mixed_directory CacheAbsent false in
  let first := load_traces_with_batches_parallel in_submission_order
                 (Some d) None true in
  let second := load_traces_with_batches_parallel in_reverse_order
                  (dir_after first) None true in
  (exists rows, result first = Frame rows) /\
  dir_after first = Some d /\
  submitted second = trace_tasks d /\
  submitted second <> [] /\
  result second <> result first.
Proof.
  cbv zeta. split; [eexists; vm_compute; reflexivity | ].
  split; [vm_compute; reflexivity | ].
  split; [vm_compute; reflexivity | ].
  split; vm_compute; discriminate.
Qed.

(** C7 (amended): when a cache-enabled call on a directory whose snapshot
    file can be written has returned a record set, a second cache-enabled
    call on the directory as the first call left it returns the same
    records in the same order, hands no file to the extraction and leaves
    the directory as it is. *)
Theorem cache_lookup_idempotent (order1 order2 : completion_order)
    (d : directory) (mw1 mw2 : option Z) (rows : list TraceMetrics) :
  cache_writable d = true ->
  let first := load_traces_with_batches_parallel order1 (Some d) mw1 true in
  result first = Frame rows ->
  let second :=
    load_traces_with_batches_parallel order2 (dir_after first) mw2 true in
  result second = Frame rows /\
  submitted second = [] /\
  dir_after second = dir_after first /\
  exists d', dir_after first = Some d' /\ cache_file d' = CacheSnapshot rows.
Proof.
  intros Hw first Hres second. subst first second.
  unfold load_traces_with_batches_parallel in *.
  destruct (cache_file d) as [ | | cached] eqn:Ec.
  1, 2: unfold extract_directory in *;
    destruct (trace_tasks d) as [ | t0 ts]; [discriminate | ];
    destruct (match mw1 with Some n => (n <=? 0)%Z | None => false end);
      [discriminate | ];
    destruct (collect _) as [metrics_list failed_count];
    destruct metrics_list as [ | m ms]; [discriminate | ];
    cbn [result dir_after] in *; rewrite Hw in *; cbn [andb cache_file] in *;
    injection Hres as <-;
    repeat split; eexists; split; reflexivity.
  cbn [result dir_after] in *. rewrite Ec. injection Hres as <-.
  cbn [result dir_after submitted]. repeat split.
  exists d. now split.
Qed.

Lemma cache_lookup_idempotent_witness :
  let d := mixed_directory CacheCorrupt true in
  let first := load_traces_with_batches_parallel in_submission_order
                 (Some d) None true in
  let second := load_traces_with_batches_parallel in_reverse_order
                  (dir_after first) (Some 2%Z) true in
  (exists rows, result first = Frame rows /\ result second = Frame rows) /\
  submitted first = trace_tasks d /\
  submitted second = [].
Proof.
  intros d first second.
  assert (Hfirst : exists rows, result first = Frame rows)
    by (eexists; vm_compute; reflexivity).
  destruct Hfirst as [rows Hrows].
  destruct (cache_lookup_idempotent in_submission_order in_reverse_order d
              None (Some 2%Z) rows eq_refl Hrows) as (H1 & H2 & _).
  split; [exists rows; now split | ].
  split; [vm_compute; reflexivity | exact H2].
Defined.

(** C8: with a snapshot file that cannot be read or parsed, a cache-enabled
    call runs the full extraction and gives what the call gives on the same
    directory without the file: the same value or the same error, the same
    files processed, the same warning, and after a result the same
    snapshot written.  The corrupt file itself raises nothing. *)
Theorem corrupt_cache_is_cold (order : completion_order) (d : directory)
    (mw : option Z) :
  cache_file d = CacheCorrupt ->
  let out := load_traces_with_batches_parallel order (Some d) mw true in
  let cold_out :=
    load_traces_with_batches_parallel order (Some (without_cache d)) mw true in
  out = extract_directory order d mw true /\
  result out = result cold_out /\
  submitted out = submitted cold_out /\
  warning out = warning cold_out /\
  (forall rows, result out = Frame rows -> cache_writable d = true ->
                dir_after out = dir_after cold_out).
Proof.
  intros Ec. cbv zeta.
  unfold load_traces_with_batches_parallel. rewrite Ec.
  cbn [without_cache cache_file]. split; [reflexivity | ].
  unfold extract_directory. rewrite trace_tasks_without_cache.
  destruct (trace_tasks d) as [ | t0 ts]; [repeat split; discriminate | ].
  destruct (match mw with Some n => (n <=? 0)%Z | None => false end);
    [repeat split; discriminate | ].
  destruct (collect _) as [metrics_list failed_count].
  destruct metrics_list as [ | m ms]; [repeat split; discriminate | ].
  cbn [result submitted warning dir_after without_cache cache_writable
       base_parts entries].
  repeat split. intros rows _ ->. reflexivity.
Qed.

Lemma corrupt_cache_is_cold_witness :
  let d := mixed_directory CacheCorrupt true in
  let out := load_traces_with_batches_parallel in_submission_order
               (Some d) None true in
  let cold_out := load_traces_with_batches_parallel in_submission_order
                    (Some (without_cache d)) None true in
  out = extract_directory in_submission_order d None true /\
  result out = result cold_out /\
  submitted out = submitted cold_out /\
  warning out = warning cold_out /\
  (forall rows, result out = Frame rows -> cache_writable d = true ->
                dir_after out = dir_after cold_out).
Proof.
  intros d out cold_out.
  exact (corrupt_cache_is_cold in_submission_order d None eq_refl).
Defined.

End ExtractionClaims.

(* ------------------------------------------------------------------ *)
(** * Facts on the run monitor *)
(* ------------------------------------------------------------------ *)

Module DictFacts.
Import Ascii String DeviceFarm.
Local Open Scope string_scope.

Section Dict.

Context {V : Type}.
Implicit Types (d : dict V) (k : string) (v : V).

Lemma dict_get_in d k v : dict_get k d = Some v -> In (k, v) d.
Proof.
  induction d as [ | [k' v'] d IH]; cbn; [discriminate | ].
  destruct (String.eqb_spec k' k) as [-> | _].
  - intros [= ->]. now left.
  - intros H. right. now apply IH.
Qed.

Lemma in_dict_get d k v : NoDup (keys d) -> In (k, v) d -> dict_get k d = Some v.
Proof.
  induction d as [ | [k' v'] d IH]; cbn; [intros _ [] | ].
  intros Hnd [[= -> ->] | Hin].
  - now rewrite String.eqb_refl.
  - inversion Hnd as [ | ? ? Hk Hnd']; subst.
    destruct (String.eqb_spec k' k) as [-> | _].
    + exfalso. apply Hk. change k with (fst (k, v)). now apply in_map.
    + now apply IH.
Qed.

Lemma dict_get_keys d k v : dict_get k d = Some v -> In k (keys d).
Proof.
  intros H. apply dict_get_in in H. change k with (fst (k, v)).
  now apply in_map.
Qed.

Lemma keys_dict_get d k : In k (keys d) -> exists v, dict_get k d = Some v.
Proof.
  induction d as [ | [k' v'] d IH]; cbn; [intros [] | ].
  destruct (String.eqb_spec k' k) as [-> | NE]; [now eexists | ].
  intros [E | Hin]; [contradiction | now apply IH].
Qed.

Lemma dict_get_set_same d k v : dict_get k (dict_set k v d) = Some v.
Proof.
  induction d as [ | [k' v'] d IH]; cbn.
  - now rewrite String.eqb_refl.
  - destruct (String.eqb_spec k' k) as [-> | NE]; cbn.
    + now rewrite String.eqb_refl.
    + destruct (String.eqb_spec k' k); [contradiction | assumption].
Qed.

Lemma dict_get_set_other d k k' v :
  k <> k' -> dict_get k' (dict_set k v d) = dict_get k' d.
Proof.
  intros NE. induction d as [ | [k0 v0] d IH]; cbn.
  - destruct (String.eqb_spec k k'); [contradiction | reflexivity].
  - destruct (String.eqb_spec k0 k) as [-> | NE0]; cbn.
    + destruct (String.eqb_spec k k'); [contradiction | reflexivity].
    + destruct (String.eqb_spec k0 k'); [reflexivity | assumption].
Qed.

Lemma dict_get_del_other d k k' :
  k <> k' -> dict_get k' (dict_del k d) = dict_get k' d.
Proof.
  intros NE. induction d as [ | [k0 v0] d IH]; cbn; [reflexivity | ].
  destruct (String.eqb_spec k0 k) as [-> | NE0]; cbn.
  - destruct (String.eqb_spec k k'); [contradiction | reflexivity].
  - destruct (String.eqb_spec k0 k'); [reflexivity | assumption].
Qed.

Lemma dict_get_set d k v k' :
  dict_get k' (dict_set k v d) = if k =? k' then Some v else dict_get k' d.
Proof.
  destruct (String.eqb_spec k k') as [<- | NE].
  - apply dict_get_set_same.
  - now apply dict_get_set_other.
Qed.

Lemma in_keys_iff d k : In k (keys d) <-> exists v, dict_get k d = Some v.
Proof.
  split; [apply keys_dict_get | intros [v H]; eapply dict_get_keys, H].
Qed.

Lemma in_keys_set d k v k' :
  In k' (keys (dict_set k v d)) <-> k' = k \/ In k' (keys d).
Proof.
  rewrite !in_keys_iff, dict_get_set.
  destruct (String.eqb_spec k k') as [<- | NE].
  - split; [now left | intros _; now eexists].
  - split; [now right | intros [E | H]; [now destruct NE | assumption]].
Qed.

Lemma NoDup_keys_set d k v : NoDup (keys d) -> NoDup (keys (dict_set k v d)).
Proof.
  induction d as [ | [k0 v0] d IH]; cbn.
  - intros _. constructor; [intros [] | constructor].
  - intros Hnd. inversion Hnd as [ | ? ? Hk Hnd']; subst.
    destruct (String.eqb_spec k0 k) as [-> | NE]; cbn.
    + now constructor.
    + constructor; [ | now apply IH].
      intros Hin. apply (in_keys_set d k v k0) in Hin.
      destruct Hin as [E | Hin]; [now destruct NE | contradiction].
Qed.

Lemma in_keys_del_weak d k k' : In k' (keys (dict_del k d)) -> In k' (keys d).
Proof.
  induction d as [ | [k0 v0] d IH]; cbn; [intros [] | ].
  destruct (String.eqb_spec k0 k) as [-> | NE]; cbn.
  - now right.
  - intros [E | Hin]; [now left | right; now apply IH].
Qed.

Lemma NoDup_keys_del d k : NoDup (keys d) -> NoDup (keys (dict_del k d)).
Proof.
  induction d as [ | [k0 v0] d IH]; cbn; [intros _; constructor | ].
  intros Hnd. inversion Hnd as [ | ? ? Hk Hnd']; subst.
  destruct (String.eqb_spec k0 k) as [-> | NE]; cbn; [assumption | ].
  constructor; [ | now apply IH].
  intros Hin. apply Hk. eapply in_keys_del_weak, Hin.
Qed.

Lemma dict_get_del_same d k : NoDup (keys d) -> dict_get k (dict_del k d) = None.
Proof.
  induction d as [ | [k0 v0] d IH]; cbn; [reflexivity | ].
  intros Hnd. inversion Hnd as [ | ? ? Hk Hnd']; subst.
  destruct (String.eqb_spec k0 k) as [-> | NE]; cbn.
  - destruct (dict_get k d) as [v | ] eqn:E; [ | reflexivity].
    destruct Hk. eapply dict_get_keys, E.
  - destruct (String.eqb_spec k0 k); [contradiction | now apply IH].
Qed.

Lemma dict_get_del d k k' :
  NoDup (keys d) ->
  dict_get k' (dict_del k d) = if k =? k' then None else dict_get k' d.
Proof.
  intros Hnd. destruct (String.eqb_spec k k') as [<- | NE].
  - now apply dict_get_del_same.
  - now apply dict_get_del_other.
Qed.

Lemma in_keys_del d k k' :
  NoDup (keys d) ->
  (In k' (keys (dict_del k d)) <-> k' <> k /\ In k' (keys d)).
Proof.
  intros Hnd. rewrite !in_keys_iff, dict_get_del by assumption.
  destruct (String.eqb_spec k k') as [<- | NE].
  - split; [intros [v H]; discriminate | intros [H _]; now destruct H].
  - split; [intros H; split; [congruence | assumption] | now intros [_ H]].
Qed.

(** [all(P(v) for v in d.values())], read through the keys. *)
Lemma forallb_values d (P : V -> bool) :
  NoDup (keys d) ->
  (forallb P (values d) = true <->
   forall k v, dict_get k d = Some v -> P v = true).
Proof.
  intros Hnd. unfold values. rewrite forallb_forall. split.
  - intros H k v Hg. apply H. apply dict_get_in in Hg.
    change v with (snd (k, v)). now apply in_map.
  - intros H v Hin. apply in_map_iff in Hin as ([k v'] & <- & Hin).
    apply (H k). now apply in_dict_get.
Qed.

End Dict.

End DictFacts.

Module MonitorFacts.
Import Ascii String DeviceFarm DictFacts.
Local Open Scope string_scope.

Ltac state_simpl :=
  cbn [state_of queried observed fetched succeeded rescheduled retried
       called with_runs with_traces next_cycle runs events clock cycle_no
       all_traces downloaded_files] in *.

Section Steps.

Variable env : services.
Variable req : request.

(** [poll_run] takes one of the listed paths. *)
Lemma poll_run_polled (run_arn : string) (st : state) :
  polled env req run_arn st (poll_run env req run_arn st).
Proof.
  unfold poll_run.
  destruct (dict_get run_arn (runs st)) as [ri | ] eqn:Hget;
    [ | now apply polled_missing].
  destruct (completed ri) eqn:Hc; [now apply polled_skip with ri | ].
  destruct (keyboard_interrupt env (clock st)) eqn:Hi1;
    [now apply polled_interrupt_query with ri | ].
  destruct (get_run env (clock st) run_arn) as [s | ] eqn:Hq;
    [ | now apply polled_query_raises with ri].
  destruct (is_terminal s) eqn:Ht; [ | now apply polled_running].
  change (clock (observed run_arn ri s st)) with (S (clock st)).
  destruct (keyboard_interrupt env (S (clock st))) eqn:Hi2;
    [now apply polled_interrupt_download | ].
  destruct (download_artifacts env (S (clock st)) run_arn) as [ | f fs] eqn:Hd;
    [ | now apply polled_succeeded].
  destruct (Z.ltb_spec (attempt ri) (max_retries req + 1)) as [Hlt | Hge];
    [ | now apply polled_exhausted].
  destruct (nth_error (test_spec_arns req) (batch_idx ri)) as [spec | ] eqn:Hs;
    [ | apply polled_lookup_raises; auto].
  destruct (nth_error (run_names req) (batch_idx ri)) as [rname | ] eqn:Hn;
    [ | apply polled_lookup_raises; auto].
  change (clock (fetched run_arn ri s [] st)) with (S (S (clock st))).
  destruct (keyboard_interrupt env (S (S (clock st)))) eqn:Hi3;
    [now apply polled_interrupt_schedule | ].
  destruct (schedule_test_run env (S (S (clock st))) spec rname)
    as [new_arn | ] eqn:Hr.
  - destruct (String.eqb_spec new_arn "") as [-> | NE].
    + eapply polled_not_scheduled; eauto.
    + eapply polled_retried; eauto.
  - eapply polled_not_scheduled; eauto.
Qed.

(** ** Every state is sound *)

Lemma Succeeded_later (st st' : state) (k : string) (v : run_info) :
  (forall e, In e (events st) -> In e (events st')) ->
  Succeeded st k v -> Succeeded st' k v.
Proof.
  intros Hmono (Hc & Ht & f & fs & Hin). repeat split; try assumption.
  exists f, fs. now apply Hmono.
Qed.

Lemma sound_step (run_arn : string) (st : state) (fl : flow) :
  sound st -> polled env req run_arn st fl -> sound (state_of fl).
Proof.
  intros (Hnd & Htr & Hsucc) Hp.
  assert (Hkeep : forall st', 
            (forall e, In e (events st) -> In e (events st')) ->
            forall k v, dict_get k (runs st) = Some v -> completed v = true ->
                        Succeeded st' k v).
  { intros st' Hm k v Hg Hc. eapply Succeeded_later; [exact Hm | ].
    now apply Hsucc. }
  destruct Hp; unfold sound; state_simpl;
    try (split; [assumption | split; assumption]).
  - (* the call raised *)
    split; [assumption | split; [assumption | ]].
    apply Hkeep. intros e He. now right.
  - (* still running *)
    split; [now apply NoDup_keys_set | split; [assumption | ]].
    intros k v. rewrite dict_get_set.
    destruct (String.eqb_spec run_arn k) as [<- | NE].
    + intros [= <-]. cbn. congruence.
    + apply Hkeep. intros e He. now right.
  - (* interrupted before the download *)
    split; [now apply NoDup_keys_set | split; [assumption | ]].
    intros k v. rewrite dict_get_set.
    destruct (String.eqb_spec run_arn k) as [<- | NE].
    + intros [= <-]. cbn. congruence.
    + apply Hkeep. intros e He. now right.
  - (* traces downloaded *)
    split; [now apply NoDup_keys_set, NoDup_keys_set | ].
    split; [now rewrite Htr | ].
    intros k v. rewrite !dict_get_set.
    destruct (String.eqb_spec run_arn k) as [<- | NE].
    + intros [= <-] _. repeat split; [assumption | ].
      exists f, fs. now left.
    + apply Hkeep. intros e He. now right; right.
  - (* out of retries *)
    split; [now apply NoDup_keys_set | ].
    split; [now rewrite app_nil_r | ].
    intros k v. rewrite dict_get_set.
    destruct (String.eqb_spec run_arn k) as [<- | NE].
    + intros [= <-]. cbn. congruence.
    + apply Hkeep. intros e He. now right; right.
  - (* no test spec or run name for the batch *)
    split; [now apply NoDup_keys_set | ].
    split; [now rewrite app_nil_r | ].
    intros k v. rewrite dict_get_set.
    destruct (String.eqb_spec run_arn k) as [<- | NE].
    + intros [= <-]. cbn. congruence.
    + apply Hkeep. intros e He. now right; right.
  - (* interrupted before the retry *)
    split; [now apply NoDup_keys_set | ].
    split; [now rewrite app_nil_r | ].
    intros k v. rewrite dict_get_set.
    destruct (String.eqb_spec run_arn k) as [<- | NE].
    + intros [= <-]. cbn. congruence.
    + apply Hkeep. intros e He. now right; right.
  - (* the retry was not scheduled *)
    split; [now apply NoDup_keys_set | ].
    split; [now rewrite app_nil_r | ].
    intros k v. rewrite dict_get_set.
    destruct (String.eqb_spec run_arn k) as [<- | NE].
    + intros [= <-]. cbn. congruence.
    + apply Hkeep. intros e He. now right; right; right.
  - (* the retry replaces the run *)
    assert (Hnd1 : NoDup (keys (dict_set run_arn (observe ri s) (runs st))))
      by now apply NoDup_keys_set.
    split; [now apply NoDup_keys_set, NoDup_keys_del | ].
    split; [now rewrite app_nil_r | ].
    intros k v. rewrite dict_get_set.
    destruct (String.eqb_spec new_arn k) as [<- | NE].
    + intros [= <-]. cbn. congruence.
    + rewrite dict_get_del by assumption.
      destruct (String.eqb_spec run_arn k) as [<- | NE']; [discriminate | ].
      rewrite dict_get_set_other by assumption.
      apply Hkeep. intros e He. now right; right; right.
Qed.

(** ** Induction over the loops *)

Section Invariant.

(** [Start st] is to hold at the head of the loop, [Inv snapshot st] while
    the runs of [snapshot] remain to be polled in the current cycle, and
    [Out e st] when the monitor returns. *)
Variable Start : state -> Prop.
Variable Inv : list string -> state -> Prop.
Variable Out : exit -> state -> Prop.

Hypothesis poll_step :
  forall run_arn rest st fl,
    Inv (run_arn :: rest) st -> polled env req run_arn st fl ->
    holds (Inv rest) Out fl.

Lemma poll_runs_holds (snapshot : list string) (st : state) :
  Inv snapshot st -> holds (Inv []) Out (poll_runs env req snapshot st).
Proof.
  revert st. induction snapshot as [ | a rest IH]; intros st H; [exact H | ].
  cbn [poll_runs].
  pose proof (poll_step a rest st _ H (poll_run_polled a st)) as Hs.
  destruct (poll_run env req a st) as [st' | e st']; [now apply IH | exact Hs].
Qed.

Hypothesis cycle_start :
  forall st, Start st -> Inv (keys (runs st)) st.
Hypothesis all_completed :
  forall st, Start st -> forallb completed (values (runs st)) = true ->
             Out AllCompleted st.
Hypothesis sleep_interrupted :
  forall st, Inv [] st -> keyboard_interrupt env (clock st) = true ->
             Out Interrupted st.
Hypothesis slept :
  forall st, Inv [] st -> keyboard_interrupt env (clock st) = false ->
             Start (next_cycle (called Sleep st)).

Lemma poll_cycle_holds (st : state) :
  Start st -> holds Start Out (poll_cycle env req st).
Proof.
  intros H. unfold poll_cycle.
  destruct (forallb completed (values (runs st))) eqn:Hall;
    [now apply all_completed | ].
  pose proof (poll_runs_holds _ st (cycle_start st H)) as Hp.
  destruct (poll_runs env req (keys (runs st)) st) as [st' | e st'];
    [ | exact Hp].
  cbn [holds] in Hp.
  destruct (keyboard_interrupt env (clock st')) eqn:Hi.
  - now apply sleep_interrupted.
  - now apply slept.
Qed.

Lemma run_cycles_holds (n : nat) (st : state) :
  Start st -> holds Start Out (run_cycles env req n st).
Proof.
  revert st. induction n as [ | n IH]; intros st H; [exact H | ].
  cbn [run_cycles]. pose proof (poll_cycle_holds st H) as Hc.
  destruct (poll_cycle env req st) as [st' | e st']; [now apply IH | exact Hc].
Qed.

End Invariant.

(** ** The calls after which the monitor gives up *)

Lemma GetRun_not_fatal c a : ~ fatal req (GetRun c a).
Proof.
  intros [(a' & b & att & E & _) | (c' & b & att & r & E & _)]; discriminate.
Qed.

Lemma Sleep_not_fatal : ~ fatal req Sleep.
Proof.
  intros [(a' & b & att & E & _) | (c' & b & att & r & E & _)]; discriminate.
Qed.

Lemma Download_files_not_fatal a b att f fs :
  ~ fatal req (Download a b att (f :: fs)).
Proof.
  intros [(a' & b' & att' & E & _) | (c' & b' & att' & r & E & _)];
    discriminate.
Qed.

Lemma Download_early_not_fatal a b att files :
  (att < max_retries req + 1)%Z -> ~ fatal req (Download a b att files).
Proof.
  intros Hlt [(a' & b' & att' & E & Hge) | (c' & b' & att' & r & E & _)];
    [ | discriminate].
  injection E as _ _ <- _. lia.
Qed.

Lemma Schedule_done_not_fatal c b att new_arn :
  new_arn <> "" -> ~ fatal req (Schedule c b att (Some new_arn)).
Proof.
  intros NE [(a' & b' & att' & E & _) | (c' & b' & att' & r & E & Hr)];
    [discriminate | ].
  injection E as _ _ _ <-. destruct Hr as [Hr | Hr]; congruence.
Qed.

Lemma fatal_step (run_arn : string) (st : state) (fl : flow) :
  Forall (fun x => ~ fatal req x) (events st) ->
  polled env req run_arn st fl ->
  holds (fun st' => Forall (fun x => ~ fatal req x) (events st'))
        (fun e st' => exit_matches req e (events st') /\ e <> AllCompleted)
        fl.
Proof.
  intros Hok Hp.
  destruct Hp; cbn [holds exit_matches]; state_simpl;
    try (split; [ | discriminate]);
    repeat (apply Forall_cons);
    auto using GetRun_not_fatal, Download_files_not_fatal,
               Download_early_not_fatal, Schedule_done_not_fatal.
  - (* out of retries *)
    eexists _, _. split; [reflexivity | ]. split.
    + eexists _, _, _. split; [reflexivity | assumption].
    + apply Forall_cons; auto using GetRun_not_fatal.
  - (* the retry was not scheduled *)
    eexists _, _. split; [reflexivity | ]. split.
    + eexists _, _, _, _. split; [reflexivity | assumption].
    + repeat apply Forall_cons;
        auto using GetRun_not_fatal, Download_early_not_fatal.
Qed.

(** The runs still to be polled stay in [runs], so that no lookup fails. *)
Lemma pending_step (run_arn : string) (rest : list string) (st : state)
    (fl : flow) :
  NoDup (keys (runs st)) ->
  NoDup (run_arn :: rest) ->
  incl (run_arn :: rest) (keys (runs st)) ->
  polled env req run_arn st fl ->
  incl rest (keys (runs (state_of fl))) /\
  (forall st', fl <> Return Fault st').
Proof.
  intros Hnd Hks Hincl Hp.
  assert (Hrest : incl rest (keys (runs st))).
  { intros k Hk. apply Hincl. now right. }
  assert (Hset : forall v, incl rest (keys (dict_set run_arn v (runs st)))).
  { intros v k Hk. apply in_keys_set. right. now apply Hrest. }
  inversion Hks as [ | ? ? Hnotin _]; subst.
  split.
  - destruct Hp; state_simpl; auto.
    + (* traces downloaded *)
      intros k Hk. apply in_keys_set. right. now apply Hset.
    + (* the retry replaces the run *)
      intros k Hk. apply in_keys_set. right.
      apply in_keys_del; [now apply NoDup_keys_set | ].
      split; [ | now apply Hset].
      intros ->. contradiction.
  - intros st' ->. inversion Hp as [Hmiss | | | | | | | | | | | ]; subst.
    destruct (keys_dict_get (runs st') run_arn) as [v Hv];
      [apply Hincl; now left | congruence].
Qed.

Lemma failure_leaves_incomplete (run_arn : string) (st st' : state)
    (e : exit) :
  polled env req run_arn st (Return e st') ->
  e <> AllCompleted /\
  (e = RetriesExhausted \/ e = RetryNotScheduled ->
   exists k v, dict_get k (runs st') = Some v /\ completed v = false).
Proof.
  intros Hp. inversion Hp; subst; (split; [discriminate | ]);
    intros [E | E]; try discriminate;
    exists run_arn, (observe ri s); state_simpl;
    (split; [apply dict_get_set_same | assumption]).
Qed.

Lemma polling_step (run_arn : string) (rest : list string) (st : state)
    (fl : flow) :
  polling req (run_arn :: rest) st -> polled env req run_arn st fl ->
  holds (polling req rest) (returned req) fl.
Proof.
  intros (Hs & Hf & Hnd & Hincl) Hp.
  pose proof (sound_step _ _ _ Hs Hp) as Hs'.
  pose proof (fatal_step _ _ _ Hf Hp) as Hf'.
  destruct (pending_step _ _ _ _ (proj1 Hs) Hnd Hincl Hp) as [Hincl' Hnf].
  destruct fl as [st' | e st']; cbn [holds state_of] in *.
  - split; [assumption | split; [assumption | split; [ | assumption]]].
    now inversion Hnd.
  - destruct Hf' as [Hm Hne].
    destruct (failure_leaves_incomplete _ _ _ _ Hp) as [_ Hinc].
    split; [assumption | split; [assumption | ]].
    split; [ | split; [ | assumption]].
    + intros ->. now apply (Hnf st').
    + intros ->. now destruct Hne.
Qed.

Lemma sound_initial : sound (initial_state req).
Proof.
  unfold sound, initial_state. cbn [runs all_traces events downloaded_files].
  assert (Hreg : forall arns idx d,
            NoDup (keys d) ->
            (forall k v, dict_get k d = Some v -> completed v = false) ->
            NoDup (keys (register idx arns d)) /\
            (forall k v, dict_get k (register idx arns d) = Some v ->
                         completed v = false)).
  { induction arns as [ | a arns IH]; intros idx d Hnd Hc; [now split | ].
    cbn [register]. apply IH; [now apply NoDup_keys_set | ].
    intros k v. rewrite dict_get_set.
    destruct (String.eqb_spec a k); [now intros [= <-] | apply Hc]. }
  destruct (Hreg (initial_run_arns req) 0%nat []) as [Hnd Hc];
    [constructor | discriminate | ].
  split; [assumption | split; [reflexivity | ]].
  intros k v Hg Hcv. rewrite (Hc k v Hg) in Hcv. discriminate.
Qed.

Lemma sound_slept (st : state) : sound st -> sound (next_cycle (called Sleep st)).
Proof.
  intros (Hnd & Htr & Hsucc). unfold sound. state_simpl.
  split; [assumption | split; [assumption | ]].
  intros k v Hg Hc. eapply Succeeded_later; [ | now apply Hsucc].
  intros e He. now right.
Qed.

(** Whatever the number of turns, the monitor is polling or has returned
    as described. *)
Lemma monitor_holds (n : nat) :
  holds (polling req []) (returned req)
        (monitor_runs_parallel_with_retry env req n).
Proof.
  unfold monitor_runs_parallel_with_retry.
  apply run_cycles_holds with (Inv := polling req).
  - apply polling_step.
  - intros st (Hs & Hf & _ & _).
    split; [assumption | split; [assumption | split]].
    + apply (proj1 Hs).
    + apply incl_refl.
  - intros st (Hs & Hf & _ & _) Hall.
    split; [assumption | split; [assumption | split; [discriminate | ]]].
    split; [now intros _ | intros [E | E]; discriminate].
  - intros st (Hs & Hf & _ & _) _.
    split; [assumption | split; [assumption | split; [discriminate | ]]].
    split; [discriminate | intros [E | E]; discriminate].
  - intros st (Hs & Hf & _ & _) _.
    split; [now apply sound_slept | split; [ | split]].
    + state_simpl. apply Forall_cons; [apply Sleep_not_fatal | assumption].
    + constructor.
    + apply incl_nil_l.
  - split; [apply sound_initial | split; [constructor | split]].
    + constructor.
    + apply incl_nil_l.
Qed.


(** ** What a poll does *)

Lemma keys_set_present (d : dict run_info) (k : string) (v v' : run_info) :
  dict_get k d = Some v ->
  forall k', In k' (keys (dict_set k v' d)) <-> In k' (keys d).
Proof.
  intros Hg k'. rewrite in_keys_set. split; [ | now right].
  intros [-> | H]; [eapply dict_get_keys, Hg | assumption].
Qed.

Lemma polled_effect (run_arn : string) (st : state) (fl : flow) :
  NoDup (keys (runs st)) ->
  polled env req run_arn st fl ->
  effect env req run_arn st (state_of fl).
Proof.
  intros Hnd Hp.
  assert (Hup : forall ri ri' new st',
            dict_get run_arn (runs st) = Some ri ->
            completed ri = false ->
            runs st' = dict_set run_arn ri' (runs st) ->
            batch_idx ri' = batch_idx ri -> attempt ri' = attempt ri ->
            events st' = (new ++ events st)%list ->
            Forall (own run_arn (batch_idx ri) (cycle_no st)) new ->
            (forall a b att f fs,
               In (Download a b att (f :: fs)) new ->
               completed ri' = true /\
               exists old, new = Download a b att (f :: fs) :: old /\
                           forall a' b' att' f' fs',
                             ~ In (Download a' b' att' (f' :: fs')) old) ->
            (clock st <= clock st')%nat -> cycle_no st' = cycle_no st ->
            effect env req run_arn st st').
  { intros ri ri' new st' Hg Hc Hr Hb Ha He Hown Hdl Hcl Hcy.
    apply effect_update with ri ri' new; try assumption.
    - intros k. rewrite Hr. apply dict_get_set.
    - intros k. rewrite Hr. now apply keys_set_present with ri. }
  destruct Hp; state_simpl.
  - now apply effect_none.
  - now apply effect_none.
  - now apply effect_none.
  - (* the call raised *)
    apply effect_update with ri ri [GetRun (cycle_no st) run_arn];
      state_simpl; try easy; try lia.
    + intros k. destruct (String.eqb_spec run_arn k) as [<- | NE]; congruence.
    + repeat constructor.
    + intros a b att f fs [E | []]. discriminate.
  - (* still running *)
    apply Hup with ri (observe ri s) [GetRun (cycle_no st) run_arn];
      state_simpl; try easy; try lia.
    + repeat constructor.
    + intros a b att f fs [E | []]. discriminate.
  - (* interrupted before the download *)
    apply Hup with ri (observe ri s) [GetRun (cycle_no st) run_arn];
      state_simpl; try easy; try lia.
    + repeat constructor.
    + intros a b att f fs [E | []]. discriminate.
  - (* traces downloaded *)
    apply effect_update with ri (mark_completed (observe ri s))
      [Download run_arn (batch_idx ri) (attempt ri) (f :: fs);
       GetRun (cycle_no st) run_arn];
      state_simpl; try easy; try lia.
    + intros k. rewrite !dict_get_set.
      now destruct (run_arn =? k).
    + intros k. rewrite keys_set_present with (v := observe ri s)
        by apply dict_get_set_same.
      now apply keys_set_present with ri.
    + repeat constructor.
    + intros a b att f0 fs0 [E | [E | []]]; [ | discriminate].
      split; [reflexivity | ].
      eexists. split; [now rewrite E | ].
      intros a' b' att' f' fs' [E' | []]. discriminate.
  - (* out of retries *)
    apply Hup with ri (observe ri s)
      [Download run_arn (batch_idx ri) (attempt ri) [];
       GetRun (cycle_no st) run_arn];
      state_simpl; try easy; try lia.
    + repeat constructor.
    + intros a b att f fs [E | [E | []]]; discriminate.
  - (* no test spec or run name for the batch *)
    apply Hup with ri (observe ri s)
      [Download run_arn (batch_idx ri) (attempt ri) [];
       GetRun (cycle_no st) run_arn];
      state_simpl; try easy; try lia.
    + repeat constructor.
    + intros a b att f fs [E | [E | []]]; discriminate.
  - (* interrupted before the retry *)
    apply Hup with ri (observe ri s)
      [Download run_arn (batch_idx ri) (attempt ri) [];
       GetRun (cycle_no st) run_arn];
      state_simpl; try easy; try lia.
    + repeat constructor.
    + intros a b att f fs [E | [E | []]]; discriminate.
  - (* the retry was not scheduled *)
    apply Hup with ri (observe ri s)
      [Schedule (cycle_no st) (batch_idx ri) (attempt ri + 1) r;
       Download run_arn (batch_idx ri) (attempt ri) [];
       GetRun (cycle_no st) run_arn];
      state_simpl; try easy; try lia.
    + constructor; [cbn; auto | repeat constructor].
    + intros a b att f fs [E | [E | [E | []]]]; discriminate.
  - (* the retry replaces the run *)
    assert (Hnd1 : NoDup (keys (dict_set run_arn (observe ri s) (runs st))))
      by now apply NoDup_keys_set.
    apply effect_retry with ri spec rname new_arn;
      state_simpl; try easy.
    + intros k. rewrite dict_get_set, dict_get_del, dict_get_set by assumption.
      now destruct (new_arn =? k), (run_arn =? k).
    + intros k. rewrite in_keys_set, in_keys_del by assumption.
      now rewrite keys_set_present with (v := ri).
Qed.

(** ** The registry *)

Lemma known_later (t t' : nat) (a : string) :
  (t <= t')%nat -> known env req t a -> known env req t' a.
Proof.
  intros Hle [Hin | (t0 & spec & rname & Hlt & Hs)]; [now left | right].
  exists t0, spec, rname. split; [lia | assumption].
Qed.

Lemma fresh_unknown (t t' : nat) (spec rname a : string) :
  fresh_scheduler env req ->
  schedule_test_run env t spec rname = Some a -> (t' <= t)%nat ->
  ~ known env req t' a.
Proof.
  intros Hfresh Hs Hle [Hin | (t0 & spec0 & rname0 & Hlt & Hs0)].
  - now apply (proj1 (Hfresh t spec rname a Hs)).
  - pose proof (proj2 (Hfresh t spec rname a Hs) t0 spec0 rname0 Hs0). lia.
Qed.

Lemma retries_of_cons (b : nat) (ev : event) (es : list event) :
  retries_of b (ev :: es)
  = ((if is_retry_of b ev then 1 else 0) + retries_of b es)%nat.
Proof. unfold retries_of. cbn [filter]. now destruct (is_retry_of b ev). Qed.

Lemma own_not_retry (run_arn : string) (b0 c b : nat) (ev : event) :
  own run_arn b0 c ev -> is_retry_of b ev = false.
Proof.
  destruct ev as [ | | c' b' att [a | ] | ]; cbn; try reflexivity.
  intros (_ & _ & [H | [= ->]]); [discriminate | ].
  cbn. apply andb_false_r.
Qed.

Lemma retries_of_own (run_arn : string) (b0 c b : nat)
    (new es : list event) :
  Forall (own run_arn b0 c) new ->
  retries_of b (new ++ es) = retries_of b es.
Proof.
  induction 1 as [ | ev new Hev _ IH]; [reflexivity | ].
  cbn [app]. rewrite retries_of_cons, IH.
  now rewrite (own_not_retry _ _ _ b _ Hev).
Qed.

(** Calls of a poll that do not concern the runs whose traces were
    downloaded keep the record settled. *)
Lemma settled_own (run_arn : string) (b0 c : nat) (new es : list event) :
  Forall (own run_arn b0 c) new ->
  (forall a b att f fs,
     In (Download a b att (f :: fs)) new ->
     exists old, new = Download a b att (f :: fs) :: old /\
                 forall a' b' att' f' fs',
                   ~ In (Download a' b' att' (f' :: fs')) old) ->
  (forall a b att f fs,
     In (Download a b att (f :: fs)) es -> a <> run_arn /\ b <> b0) ->
  settled es -> settled (new ++ es).
Proof.
  intros Hown Hhead Hes Hset.
  assert (Hgen : forall l,
            Forall (own run_arn b0 c) l ->
            (forall a b att f fs, ~ In (Download a b att (f :: fs)) l) ->
            settled (l ++ es)).
  { induction 1 as [ | ev l Hev _ IH]; intros Hno; [assumption | ].
    cbn [app settled]. split.
    - intros a b att f fs Hin. apply in_app_or in Hin as [Hin | Hin].
      + exfalso. apply (Hno a b att f fs). now right.
      + destruct (Hes _ _ _ _ _ Hin) as [Ha Hb].
        destruct ev as [c' a' | a' b' att' files | c' b' att' r | ];
          cbn in *; intuition congruence.
    - apply IH. intros a b att f fs Hin. apply (Hno a b att f fs). now right. }
  destruct new as [ | ev new']; [assumption | ].
  assert (Hold : forall a b att f fs,
            ~ In (Download a b att (f :: fs)) new').
  { intros a b att f fs Hin.
    destruct (Hhead a b att f fs (or_intror Hin)) as (old & [= -> ->] & Hno).
    now apply (Hno a b att f fs). }
  inversion Hown as [ | ? ? Hev Hown']; subst.
  cbn [app settled]. split.
  - intros a b att f fs Hin. apply in_app_or in Hin as [Hin | Hin].
    + now destruct (Hold _ _ _ _ _ Hin).
    + destruct (Hes _ _ _ _ _ Hin) as [Ha Hb].
      destruct ev as [c' a' | a' b' att' files | c' b' att' r | ];
        cbn in *; intuition congruence.
  - now apply Hgen.
Qed.

Lemma settled_split (new old : list event) (a : string) (b : nat) (att : Z)
    (f : string) (fs : list string) :
  settled (new ++ Download a b att (f :: fs) :: old) ->
  Forall (fun ev => ~ touches a b ev) new.
Proof.
  induction new as [ | ev new IH]; cbn [app settled]; [constructor | ].
  intros [Hev Hset]. constructor; [ | now apply IH].
  apply (Hev a b att f fs). apply in_or_app. right. now left.
Qed.

Lemma registry_weaken (run_arn : string) (rest : list string) (st : state) :
  registry env req (run_arn :: rest) st -> registry env req rest st.
Proof.
  intros [HK HB HE HA HQ HS HO HD HF]. constructor; try assumption.
  intros c b att a Hin Hne. destruct (HS c b att a Hin Hne) as [Hle Hnot].
  split; [assumption | ]. intros E Hrest. apply (Hnot E). now right.
Qed.

Lemma registry_step (run_arn : string) (rest : list string) (st : state)
    (fl : flow) :
  fresh_scheduler env req ->
  polling req (run_arn :: rest) st ->
  registry env req (run_arn :: rest) st ->
  polled env req run_arn st fl ->
  registry env req rest (state_of fl).
Proof.
  intros Hfresh ((Hnd & _ & _) & _ & Hks & Hincl) Hreg Hp.
  pose proof (registry_weaken _ _ _ Hreg) as Hweak.
  destruct Hreg as [HK HB HE HA HQ HS HO HD HF].
  assert (Hrest : forall k, In k rest -> known env req (clock st) k).
  { intros k Hk. apply HK, Hincl. now right. }
  destruct (polled_effect _ _ _ Hnd Hp)
    as [-> | ri ri' new Hg Hc Hget Hkeys Hb Ha Hev Hown Hdl Hcl Hcy
           | ri spec rname new_arn Hg Hc Hget Hkeys Hs Hne Hlt Hev Hcl Hcy];
    [assumption | | ].
  - (* the entry is updated in place *)
    assert (Hdone : forall a b att f fs,
              In (Download a b att (f :: fs)) (events st) ->
              a <> run_arn /\ b <> batch_idx ri).
    { intros a b att f fs Hin.
      destruct (HD _ _ _ _ _ Hin) as (v & Hv & Hcv & Hbv).
      assert (a <> run_arn) by (intros ->; congruence).
      split; [assumption | ]. intros ->.
      now apply (HB a run_arn v ri Hv Hg) in Hbv. }
    constructor.
    + intros k Hk. apply known_later with (clock st); [assumption | ].
      now apply HK, Hkeys.
    + intros k1 k2 v1 v2. rewrite !Hget.
      destruct (String.eqb_spec run_arn k1) as [<- | N1],
               (String.eqb_spec run_arn k2) as [<- | N2];
        try reflexivity.
      * intros [= <-] H2 E. rewrite Hb in E. now apply (HB run_arn k2 ri v2).
      * intros H1 [= <-] E. rewrite Hb in E. now apply (HB k1 run_arn v1 ri).
      * apply HB.
    + intros b. rewrite HE. split; intros (k & v & Hv & <-).
      * destruct (String.eqb_spec run_arn k) as [<- | N].
        -- exists run_arn, ri'. rewrite Hget, String.eqb_refl.
           split; congruence.
        -- exists k, v. rewrite Hget.
           destruct (String.eqb_spec run_arn k); [contradiction | now split].
      * rewrite Hget in Hv.
        destruct (String.eqb_spec run_arn k) as [<- | N].
        -- injection Hv as <-. exists run_arn, ri. now split.
        -- now exists k, v.
    + intros k v. rewrite Hget, Hev.
      rewrite (retries_of_own _ _ _ _ _ _ Hown).
      destruct (String.eqb_spec run_arn k) as [<- | N]; [ | apply HA].
      intros [= <-]. rewrite Ha, Hb. exact (HA _ _ Hg).
    + intros c a. rewrite Hev, Hcy. intros Hin.
      apply in_app_or in Hin as [Hin | Hin].
      * rewrite Forall_forall in Hown. apply Hown in Hin as [-> ->].
        split; [ | lia]. apply known_later with (clock st); [assumption | ].
        apply HK, Hincl. now left.
      * destruct (HQ c a Hin). split; [ | assumption].
        now apply known_later with (clock st).
    + intros c b att a. rewrite Hev, Hcy. intros Hin Hna.
      apply in_app_or in Hin as [Hin | Hin].
      * rewrite Forall_forall in Hown.
        apply Hown in Hin as (_ & _ & [E | E]); congruence.
      * destruct (HS c b att a Hin Hna) as [Hle Hnot].
        split; [assumption | ]. intros E Hr. apply (Hnot E). now right.
    + intros c c' b att a. rewrite Hev. intros Hin Hna Hin'.
      apply in_app_or in Hin as [Hin | Hin].
      { rewrite Forall_forall in Hown.
        apply Hown in Hin as (_ & _ & [E | E]); congruence. }
      apply in_app_or in Hin' as [Hin' | Hin']; [ | now apply (HO c c' b att a)].
      rewrite Forall_forall in Hown. apply Hown in Hin' as [-> ->].
      destruct (HS c b att run_arn Hin Hna) as [Hle Hnot].
      destruct (Nat.eq_dec c (cycle_no st)) as [E | N]; [ | lia].
      destruct (Hnot E). now left.
    + intros a b att f fs. rewrite Hev. intros Hin.
      apply in_app_or in Hin as [Hin | Hin].
      * destruct (Hdl _ _ _ _ _ Hin) as [Hcr _].
        rewrite Forall_forall in Hown. apply Hown in Hin as [-> ->].
        exists ri'. rewrite Hget, String.eqb_refl. now repeat split.
      * destruct (Hdone _ _ _ _ _ Hin) as [Hna _].
        destruct (HD _ _ _ _ _ Hin) as (v & Hv & Hcv & Hbv).
        exists v. rewrite Hget.
        destruct (String.eqb_spec run_arn a); [congruence | now repeat split].
    + rewrite Hev. apply settled_own with run_arn (batch_idx ri) (cycle_no st);
        try assumption.
      intros a b att f fs Hin. now destruct (Hdl _ _ _ _ _ Hin) as [_ H].
  - (* the entry is replaced by the one of the retry *)
    assert (Hnew : ~ known env req (S (S (S (clock st)))) new_arn -> False).
    { intros H. apply H. right. exists (S (S (clock st))), spec, rname.
      split; [lia | assumption]. }
    assert (Hunknown : forall t, (t <= S (S (clock st)))%nat ->
                                 ~ known env req t new_arn).
    { intros t Ht. now apply fresh_unknown with (S (S (clock st))) spec rname. }
    assert (Hnk : forall k, In k (keys (runs st)) -> k <> new_arn).
    { intros k Hk ->. apply (Hunknown (clock st)); [lia | now apply HK]. }
    assert (Hself : run_arn <> new_arn).
    { apply Hnk. eapply dict_get_keys, Hg. }
    assert (Hother : forall k v, dict_get k (runs st) = Some v ->
                                 k <> run_arn ->
                                 dict_get k (runs (state_of fl)) = Some v).
    { intros k v Hv N. rewrite Hget.
      destruct (String.eqb_spec new_arn k) as [<- | _].
      - destruct (Hnk new_arn); [eapply dict_get_keys, Hv | reflexivity].
      - destruct (String.eqb_spec run_arn k); [congruence | assumption]. }
    assert (Hdone : forall a b att f fs,
              In (Download a b att (f :: fs)) (events st) ->
              a <> run_arn /\ b <> batch_idx ri).
    { intros a b att f fs Hin.
      destruct (HD _ _ _ _ _ Hin) as (v & Hv & Hcv & Hbv).
      assert (a <> run_arn) by (intros ->; congruence).
      split; [assumption | ]. intros ->.
      now apply (HB a run_arn v ri Hv Hg) in Hbv. }
    constructor.
    + intros k Hk. apply Hkeys in Hk as [-> | [_ Hk]].
      * rewrite Hcl. right. exists (S (S (clock st))), spec, rname.
        split; [lia | assumption].
      * apply known_later with (clock st); [lia | now apply HK].
    + assert (Hold : forall k v,
                dict_get k (runs (state_of fl)) = Some v -> k <> new_arn ->
                dict_get k (runs st) = Some v /\ k <> run_arn).
      { intros k v. rewrite Hget.
        destruct (String.eqb_spec new_arn k); [congruence | ].
        destruct (String.eqb_spec run_arn k); [discriminate | ].
        intros H _. split; [assumption | congruence]. }
      assert (Hfr : forall v, dict_get new_arn (runs (state_of fl)) = Some v ->
                              batch_idx v = batch_idx ri).
      { intros v. rewrite Hget, String.eqb_refl. now intros [= <-]. }
      intros k1 k2 v1 v2 H1 H2 E.
      destruct (String.eqb_spec k1 new_arn) as [-> | N1],
               (String.eqb_spec k2 new_arn) as [-> | N2];
        try reflexivity.
      * destruct (Hold _ _ H2 N2) as [H2' N2'].
        rewrite (Hfr _ H1) in E. symmetry in E.
        destruct N2'. now apply (HB k2 run_arn v2 ri).
      * destruct (Hold _ _ H1 N1) as [H1' N1'].
        rewrite (Hfr _ H2) in E.
        destruct N1'. now apply (HB k1 run_arn v1 ri).
      * destruct (Hold _ _ H1 N1) as [H1' _], (Hold _ _ H2 N2) as [H2' _].
        now apply (HB k1 k2 v1 v2).
    + intros b. rewrite HE. split; intros (k & v & Hv & <-).
      * destruct (String.eqb_spec k run_arn) as [-> | N].
        -- exists new_arn, (fresh_run (batch_idx ri) (attempt ri + 1)).
           rewrite Hget, String.eqb_refl. split; [reflexivity | cbn].
           congruence.
        -- exists k, v. split; [now apply Hother | reflexivity].
      * rewrite Hget in Hv.
        destruct (String.eqb_spec new_arn k) as [<- | N].
        -- injection Hv as <-. exists run_arn, ri. now split.
        -- destruct (String.eqb_spec run_arn k); [discriminate | ].
           now exists k, v.
    + intros k v. rewrite Hget, Hev, !retries_of_cons. cbn [is_retry_of].
      destruct (String.eqb_spec new_arn k) as [<- | N].
      * intros [= <-]. cbn [attempt batch_idx fresh_run].
        rewrite Nat.eqb_refl.
        destruct (String.eqb_spec new_arn ""); [contradiction | ].
        cbn [andb negb]. rewrite (HA _ _ Hg). lia.
      * destruct (String.eqb_spec run_arn k) as [<- | N']; [discriminate | ].
        intros Hv. rewrite (HA _ _ Hv).
        destruct (Nat.eqb_spec (batch_idx ri) (batch_idx v)) as [E | _];
          [ | cbn [andb]; lia].
        destruct N'. now apply (HB run_arn k ri v).
    + intros c a. rewrite Hev, Hcy, Hcl. intros [E | [E | [E | Hin]]];
        try discriminate.
      * injection E as <- <-. split; [ | lia].
        apply known_later with (clock st); [lia | ].
        apply HK, Hincl. now left.
      * destruct (HQ c a Hin). split; [ | assumption].
        apply known_later with (clock st); [lia | assumption].
    + intros c b att a. rewrite Hev, Hcy. intros [E | [E | [E | Hin]]] Hna;
        try discriminate.
      * injection E as <- _ _ <-. split; [lia | ]. intros _ Hr.
        apply (Hunknown (clock st)); [lia | now apply Hrest].
      * destruct (HS c b att a Hin Hna) as [Hle Hnot].
        split; [assumption | ]. intros E Hr. apply (Hnot E). now right.
    + intros c c' b att a. rewrite Hev.
      intros [E | [E | [E | Hin]]] Hna Hin'; try discriminate.
      * injection E as <- _ _ <-.
        destruct Hin' as [E | [E | [E | Hin']]]; try discriminate.
        -- injection E as _ E. now destruct Hself.
        -- destruct (HQ c' new_arn Hin') as [Hk _].
           now destruct (Hunknown (clock st) ltac:(lia)).
      * destruct Hin' as [E | [E | [E | Hin']]]; try discriminate.
        -- injection E as <- <-.
           destruct (HS c b att run_arn Hin Hna) as [Hle Hnot].
           destruct (Nat.eq_dec c (cycle_no st)) as [E | N]; [ | lia].
           destruct (Hnot E). now left.
        -- now apply (HO c c' b att a).
    + intros a b att f fs. rewrite Hev.
      intros [E | [E | [E | Hin]]]; try discriminate.
      destruct (Hdone _ _ _ _ _ Hin) as [Hna _].
      destruct (HD _ _ _ _ _ Hin) as (v & Hv & Hcv & Hbv).
      exists v. split; [now apply Hother | now split].
    + rewrite Hev. cbn [settled]. repeat split; try assumption.
      * intros a b att f fs [E | [E | Hin]]; try discriminate.
        destruct (Hdone _ _ _ _ _ Hin) as [_ Hnb]. cbn. congruence.
      * intros a b att f fs [E | Hin]; try discriminate.
        destruct (Hdone _ _ _ _ _ Hin) as [Hna _]. cbn. congruence.
      * intros a b att f fs Hin.
        destruct (Hdone _ _ _ _ _ Hin) as [Hna _]. cbn. congruence.
Qed.

Lemma register_spec (arns : list string) :
  forall (idx : nat) (d : dict run_info),
    NoDup arns -> (forall a, In a arns -> ~ In a (keys d)) ->
    forall k v,
      dict_get k (register idx arns d) = Some v <->
      dict_get k d = Some v \/
      exists i, nth_error arns i = Some k /\ v = fresh_run (idx + i) 1.
Proof.
  induction arns as [ | a arns IH]; intros idx d Hnd Hd k v; cbn [register].
  - split; [now left | intros [H | (i & H & _)]; [assumption | ]].
    now destruct i.
  - inversion Hnd as [ | ? ? Ha Hnd']; subst.
    rewrite IH; [ | assumption | ].
    + rewrite dict_get_set. split.
      * intros [H | (i & Hi & ->)].
        -- destruct (String.eqb_spec a k) as [<- | N]; [ | now left].
           injection H as <-. right. exists 0%nat.
           split; [reflexivity | now rewrite Nat.add_0_r].
        -- right. exists (S i). split; [assumption | ].
           now rewrite Nat.add_succ_r.
      * intros [H | ([ | i] & Hi & ->)].
        -- left. destruct (String.eqb_spec a k) as [<- | N]; [ | assumption].
           destruct (Hd a); [now left | eapply dict_get_keys, H].
        -- left. injection Hi as <-. rewrite String.eqb_refl.
           now rewrite Nat.add_0_r.
        -- right. exists i. split; [assumption | ].
           now rewrite Nat.add_succ_r.
    + intros a' Ha' Hin. apply in_keys_set in Hin as [-> | Hin].
      * contradiction.
      * apply (Hd a'); [now right | assumption].
Qed.

Lemma registry_initial :
  NoDup (initial_run_arns req) ->
  registry_at_start env req (initial_state req).
Proof.
  intros Hnd.
  assert (Hspec : forall k v,
            dict_get k (runs (initial_state req)) = Some v <->
            exists i, nth_error (initial_run_arns req) i = Some k /\
                      v = fresh_run i 1).
  { intros k v. unfold initial_state. cbn [runs].
    rewrite register_spec; [ | assumption | intros a _ []].
    split; [intros [H | H]; [discriminate | exact H] | now right]. }
  split; [constructor | intros c b att a []].
  - intros k Hk. apply in_keys_iff in Hk as [v Hv].
    apply Hspec in Hv as (i & Hi & _). left. eapply nth_error_In, Hi.
  - intros k1 k2 v1 v2 H1 H2 E.
    apply Hspec in H1 as (i1 & Hi1 & ->), H2 as (i2 & Hi2 & ->).
    cbn in E. subst i2. congruence.
  - intros b. split.
    + intros Hb. destruct (nth_error (initial_run_arns req) b) as [k | ] eqn:E.
      * exists k, (fresh_run b 1). split; [ | reflexivity].
        apply Hspec. now exists b.
      * apply nth_error_None in E. lia.
    + intros (k & v & Hv & <-). apply Hspec in Hv as (i & Hi & ->).
      cbn. apply nth_error_Some. congruence.
  - intros k v Hv. apply Hspec in Hv as (i & _ & ->). reflexivity.
  - intros c a [].
  - intros c b att a [].
  - intros c c' b att a [].
  - intros a b att f fs [].
  - exact I.
Qed.

Lemma registry_cycle_start (st : state) :
  registry_at_start env req st -> registry env req (keys (runs st)) st.
Proof.
  intros [[HK HB HE HA HQ HS HO HD HF] Hlt]. constructor; try assumption.
  intros c b att a Hin Hne. specialize (Hlt c b att a Hin Hne).
  split; lia.
Qed.

Lemma registry_slept (st : state) :
  registry env req [] st ->
  registry_at_start env req (next_cycle (called Sleep st)).
Proof.
  intros [HK HB HE HA HQ HS HO HD HF].
  split; [constructor | ]; state_simpl.
  - intros k Hk. apply known_later with (clock st); [lia | now apply HK].
  - assumption.
  - assumption.
  - intros k v Hv. rewrite retries_of_cons. exact (HA k v Hv).
  - intros c a [E | Hin]; [discriminate | ].
    destruct (HQ c a Hin). split; [ | lia].
    apply known_later with (clock st); [lia | assumption].
  - intros c b att a [E | Hin] Hne; [discriminate | ].
    destruct (HS c b att a Hin Hne). split; [lia | now intros _ []].
  - intros c c' b att a [E | Hin] Hne [E' | Hin']; try discriminate.
    now apply (HO c c' b att a).
  - intros a b att f fs [E | Hin]; [discriminate | now apply HD with att f fs].
  - cbn [settled]. split; [ | assumption]. now intros a b att f fs _ [].
  - intros c b att a [E | Hin] Hne; [discriminate | ].
    destruct (HS c b att a Hin Hne). lia.
Qed.

(** Where the service gives every run a handle of its own and the initial
    handles are distinct, the registry is as described at every turn. *)
Lemma monitor_registry (n : nat) :
  fresh_scheduler env req -> NoDup (initial_run_arns req) ->
  holds (fun st => polling req [] st /\ registry_at_start env req st)
        (fun e st => returned req e st /\ registry env req [] st)
        (monitor_runs_parallel_with_retry env req n).
Proof.
  intros Hfresh Hnd. unfold monitor_runs_parallel_with_retry.
  apply run_cycles_holds
    with (Inv := fun ks st => polling req ks st /\ registry env req ks st).
  - intros run_arn rest st fl [Hp Hr] Hpolled.
    pose proof (polling_step _ _ _ _ Hp Hpolled) as Hp'.
    pose proof (registry_step _ _ _ _ Hfresh Hp Hr Hpolled) as Hr'.
    destruct fl as [st' | e st']; cbn [holds state_of] in *;
      (split; [assumption | ]); [assumption | ].
    clear - Hr'. induction rest as [ | a rest IH]; [assumption | ].
    apply IH. now apply registry_weaken with a.
  - intros st [(Hs & Hf & _ & _) Hr]. split.
    + split; [assumption | split; [assumption | split]].
      * apply (proj1 Hs).
      * apply incl_refl.
    + now apply registry_cycle_start.
  - intros st [(Hs & Hf & _ & _) [Hr _]] Hall. split; [ | assumption].
    split; [assumption | split; [assumption | split; [discriminate | ]]].
    split; [now intros _ | intros [E | E]; discriminate].
  - intros st [(Hs & Hf & _ & _) Hr] _. split; [ | assumption].
    split; [assumption | split; [assumption | split; [discriminate | ]]].
    split; [discriminate | intros [E | E]; discriminate].
  - intros st [(Hs & Hf & _ & _) Hr] _. split; [ | now apply registry_slept].
    split; [now apply sound_slept | split; [ | split]].
    + state_simpl. apply Forall_cons; [apply Sleep_not_fatal | assumption].
    + constructor.
    + apply incl_nil_l.
  - split; [ | now apply registry_initial].
    split; [apply sound_initial | split; [constructor | split]].
    + constructor.
    + apply incl_nil_l.
Qed.

(** ** The attempt counters *)

Lemma bounded_step (run_arn : string) (st : state) (fl : flow) :
  NoDup (keys (runs st)) -> bounded req st ->
  polled env req run_arn st fl -> bounded req (state_of fl).
Proof.
  intros Hnd Hb Hp.
  destruct (polled_effect _ _ _ Hnd Hp)
    as [-> | ri ri' new Hg Hc Hget Hkeys Hbi Ha Hev Hown Hdl Hcl Hcy
           | ri spec rname new_arn Hg Hc Hget Hkeys Hs Hne Hlt Hev Hcl Hcy];
    [assumption | | ]; intros k v; rewrite Hget.
  - destruct (run_arn =? k); [ | apply Hb].
    intros [= <-]. rewrite Ha. now apply (Hb run_arn).
  - destruct (new_arn =? k).
    + intros [= <-]. cbn. specialize (Hb _ _ Hg). lia.
    + destruct (run_arn =? k); [discriminate | apply Hb].
Qed.

Lemma monitor_bounded (n : nat) :
  (0 <= max_retries req)%Z ->
  bounded req (state_of (monitor_runs_parallel_with_retry env req n)).
Proof.
  intros HR.
  enough (H : holds (fun st => sound st /\ bounded req st)
                    (fun _ st => sound st /\ bounded req st)
                    (monitor_runs_parallel_with_retry env req n)).
  { destruct (monitor_runs_parallel_with_retry env req n); apply H. }
  unfold monitor_runs_parallel_with_retry.
  apply run_cycles_holds
    with (Inv := fun _ st => sound st /\ bounded req st); try tauto.
  - intros run_arn rest st fl [Hs Hb] Hp.
    pose proof (sound_step _ _ _ Hs Hp).
    pose proof (bounded_step _ _ _ (proj1 Hs) Hb Hp).
    destruct fl; cbn [holds state_of] in *; now split.
  - intros st [Hs Hb] _. split; [now apply sound_slept | exact Hb].
  - split; [apply sound_initial | ].
    intros k v Hv. unfold initial_state in Hv. cbn [runs] in Hv.
    assert (Hgen : forall arns idx d,
              (forall k v, dict_get k d = Some v -> attempt v = 1%Z) ->
              forall k v, dict_get k (register idx arns d) = Some v ->
                          attempt v = 1%Z).
    { induction arns as [ | a arns IH]; intros idx d Hd; [exact Hd | ].
      cbn [register]. apply IH. intros k' v'. rewrite dict_get_set.
      destruct (a =? k'); [now intros [= <-] | apply Hd]. }
    assert (Hnil : forall k v,
              dict_get k (@nil (string * run_info)) = Some v ->
              attempt v = 1%Z) by discriminate.
    rewrite (Hgen _ _ _ Hnil _ _ Hv). lia.
Qed.

(** ** A batch that fails silently *)

Lemma retried_get (run_arn : string) (ri : run_info) (s new_arn : string)
    (st : state) :
  NoDup (keys (runs st)) ->
  forall k,
    dict_get k (runs (retried run_arn ri s new_arn st))
    = if new_arn =? k
      then Some (fresh_run (batch_idx ri) (attempt ri + 1))
      else if run_arn =? k then None else dict_get k (runs st).
Proof.
  intros Hnd k. state_simpl.
  rewrite dict_get_set, dict_get_del, dict_get_set
    by now apply NoDup_keys_set.
  now destruct (new_arn =? k), (run_arn =? k).
Qed.

Section Chase.

Variable b : nat.
Variable mine : string -> Prop.
Hypothesis fresh : fresh_scheduler env req.
Hypothesis failing : silent_failure env req b mine.

(** The ways out of a poll when nothing interrupts and every retry is
    scheduled. *)
Lemma polled_return (run_arn : string) (st st' : state) (e : exit) :
  polled env req run_arn st (Return e st') ->
  e = Fault \/
  (e = RetriesExhausted /\
   exists ri, dict_get run_arn (runs st) = Some ri /\
              (max_retries req + 1 <= attempt ri)%Z).
Proof.
  intros Hp.
  pose proof (sf_no_interrupt _ _ _ _ failing) as Hni.
  inversion Hp; subst;
    try (match goal with
         | H : keyboard_interrupt env _ = true |- _ =>
             rewrite Hni in H; discriminate
         end).
  - now left.
  - right. split; [reflexivity | ]. now exists ri.
  - match goal with
    | H : _ = None \/ _ = Some "" |- _ =>
        destruct (sf_scheduled _ _ _ _ failing (S (S (clock st))) spec rname)
          as (a & Ha & Hne); destruct H; congruence
    end.
Qed.

(** The poll of a run of batch [b]. *)
Lemma polled_mine (run_arn : string) (v : run_info) (st : state) (fl : flow) :
  dict_get run_arn (runs st) = Some v -> batch_idx v = b ->
  mine run_arn -> completed v = false ->
  polled env req run_arn st fl ->
  ((max_retries req + 1 <= attempt v)%Z /\
   exists s, fl = Return RetriesExhausted (fetched run_arn v s [] st)) \/
  ((attempt v < max_retries req + 1)%Z /\
   exists s new_arn,
     fl = Continue (retried run_arn v s new_arn st) /\
     mine new_arn /\
     ~ known env req (clock st) new_arn).
Proof.
  intros Hv Hb Hm Hc Hp.
  pose proof (sf_no_interrupt _ _ _ _ failing) as Hni.
  destruct (sf_fails _ _ _ _ failing (clock st) run_arn Hm)
    as [(s0 & Hq0 & Ht0) _].
  destruct (sf_fails _ _ _ _ failing (S (clock st)) run_arn Hm) as [_ Hd0].
  destruct (sf_retries _ _ _ _ failing) as (spec0 & rname0 & Hs0 & Hn0 & Hm').
  inversion Hp; subst;
    try (match goal with
         | H : keyboard_interrupt env _ = true |- _ =>
             rewrite Hni in H; discriminate
         end);
    try congruence.
  - left. replace v with ri by congruence. split; [assumption | now exists s].
  - exfalso. replace ri with v in * by congruence.
    match goal with H : _ \/ _ |- _ => destruct H; congruence end.
  - exfalso. replace ri with v in * by congruence.
    destruct (sf_scheduled _ _ _ _ failing (S (S (clock st))) spec rname)
      as (a & Ha & Hne).
    match goal with H : _ \/ _ |- _ => destruct H; congruence end.
  - right. replace ri with v in * by congruence.
    split; [assumption | ]. exists s, new_arn. split; [reflexivity | ].
    assert (spec = spec0) by congruence. assert (rname = rname0) by congruence.
    subst. split; [eapply Hm'; eassumption | ].
    eapply fresh_unknown; [exact fresh | eassumption | lia].
Qed.

Lemma chased_step (run_arn : string) (rest : list string) (st : state)
    (fl : flow) :
  polling req (run_arn :: rest) st ->
  registry env req (run_arn :: rest) st ->
  bounded req st ->
  chased req b mine (run_arn :: rest) st ->
  polled env req run_arn st fl ->
  holds (chased req b mine rest) (given_up req b) fl.
Proof.
  intros Hpol Hreg Hbd (Hcyc & Hatt & k & v & Hkv & Hbv & Hmk & Hcv & Hpos) Hp.
  pose proof Hpol as ((Hnd & _ & _) & _ & Hks & Hincl).
  apply NoDup_cons_iff in Hks as [Hnotin Hks'].
  pose proof (reg_known _ _ _ _ Hreg) as HK.
  assert (Hrest : forall k, In k rest -> known env req (clock st) k).
  { intros k0 Hk0. apply HK, Hincl. now right. }
  (* the attempts after the poll *)
  assert (Hshape :
            cycle_no (state_of fl) = cycle_no st /\
            (forall k' v', dict_get k' (runs (state_of fl)) = Some v' ->
               (attempt v' <= Z.of_nat (cycle_no st) + 2)%Z /\
               (In k' rest -> (attempt v' <= Z.of_nat (cycle_no st) + 1)%Z)) /\
            (forall k' v', dict_get k' (runs st) = Some v' -> k' <> run_arn ->
               dict_get k' (runs (state_of fl)) = Some v')).
  { destruct (polled_effect _ _ _ Hnd Hp)
      as [-> | ri ri' new Hg Hc Hget Hkeys Hbi Ha Hev Hown Hdl Hcl Hcy
             | ri spec rname new_arn Hg Hc Hget Hkeys Hs Hne Hlt Hev Hcl Hcy].
    - split; [reflexivity | split; [ | trivial]].
      intros k' v' Hv'. destruct (Hatt k' v' Hv') as [H1 H2].
      split; [assumption | ]. intros Hin. apply H2. now right.
    - split; [assumption | split].
      + intros k' v'. rewrite Hget.
        destruct (String.eqb_spec run_arn k') as [<- | N].
        * intros [= <-]. rewrite Ha.
          destruct (Hatt run_arn ri Hg) as [H1 H2].
          specialize (H2 (or_introl eq_refl)). split; lia.
        * intros Hv'. destruct (Hatt k' v' Hv') as [H1 H2].
          split; [assumption | ]. intros Hin. apply H2. now right.
      + intros k' v' Hv' N. rewrite Hget.
        destruct (String.eqb_spec run_arn k'); [congruence | assumption].
    - assert (Hunk : ~ known env req (clock st) new_arn).
      { eapply fresh_unknown; [exact fresh | eassumption | lia]. }
      split; [assumption | split].
      + intros k' v'. rewrite Hget.
        destruct (String.eqb_spec new_arn k') as [<- | N].
        * intros [= <-]. cbn [attempt fresh_run].
          destruct (Hatt run_arn ri Hg) as [H1 H2].
          specialize (H2 (or_introl eq_refl)). split; [lia | ].
          intros Hin. destruct Hunk. now apply Hrest.
        * destruct (String.eqb_spec run_arn k'); [discriminate | ].
          intros Hv'. destruct (Hatt k' v' Hv') as [H1 H2].
          split; [assumption | ]. intros Hin. apply H2. now right.
      + intros k' v' Hv' N. rewrite Hget.
        destruct (String.eqb_spec new_arn k') as [<- | _].
        * destruct Hunk. apply HK. eapply dict_get_keys, Hv'.
        * destruct (String.eqb_spec run_arn k'); [congruence | assumption]. }
  destruct Hshape as (Hcy & Hatt' & Hpersist).
  destruct (String.eqb_spec run_arn k) as [<- | NE].
  - (* the run of batch [b] is polled *)
    assert (Hav : attempt v = (Z.of_nat (cycle_no st) + 1)%Z).
    { destruct Hpos as [[_ H] | [H _]]; [assumption | ].
      destruct H. now left. }
    destruct (polled_mine _ _ _ _ Hkv Hbv Hmk Hcv Hp)
      as [[Hge (s & ->)] | [Hlt (s & new_arn & -> & Hmn & Hunk)]];
      cbn [holds].
    + split; [reflexivity | ].
      exists run_arn, (observe v s). state_simpl.
      rewrite dict_get_set_same. repeat split; [assumption | cbn; lia].
    + cbn [state_of] in *.
      assert (Hc' : cycle_no (retried run_arn v s new_arn st) = cycle_no st)
        by reflexivity.
      unfold chased. rewrite Hc'.
      split; [assumption | split; [assumption | ]].
      exists new_arn, (fresh_run (batch_idx v) (attempt v + 1)).
      rewrite retried_get, String.eqb_refl by assumption.
      repeat split; try assumption.
      right. split; [ | cbn; lia].
      intros Hin. destruct Hunk. now apply Hrest.
  - (* another run is polled *)
    assert (Hkv' : dict_get k (runs (state_of fl)) = Some v)
      by (apply Hpersist; [assumption | congruence]).
    assert (Hpos' :
              (In k rest /\ attempt v = (Z.of_nat (cycle_no st) + 1)%Z) \/
              (~ In k rest /\ attempt v = (Z.of_nat (cycle_no st) + 2)%Z)).
    { destruct Hpos as [[[E | Hin] H] | [Hn H]].
      - congruence.
      - left. now split.
      - right. split; [ | assumption]. intros Hin. apply Hn. now right. }
    destruct fl as [st' | e st']; cbn [holds state_of] in *.
    + unfold chased. rewrite Hcy.
      split; [assumption | split; [assumption | ]].
      exists k, v. repeat split; assumption.
    + pose proof (polling_step _ _ _ _ Hpol Hp) as (_ & _ & Hnf & _).
      destruct (polled_return _ _ _ _ Hp)
        as [-> | (-> & ri & Hri & Hge)]; [now destruct Hnf | ].
      split; [reflexivity | ].
      exists k, v. repeat split; try assumption.
      destruct (Hatt run_arn ri Hri) as [_ H1].
      specialize (H1 (or_introl eq_refl)).
      specialize (Hbd k v Hkv).
      destruct Hpos' as [[_ H] | [_ H]]; lia.
Qed.

Lemma chased_cycle_start (st : state) :
  chased_at_start req b mine st -> chased req b mine (keys (runs st)) st.
Proof.
  intros (Hcyc & Hatt & k & v & Hkv & Hbv & Hmk & Hcv & Hav).
  split; [assumption | split].
  - intros k' v' Hv'. specialize (Hatt k' v' Hv'). split; lia.
  - exists k, v. repeat split; try assumption.
    left. split; [eapply dict_get_keys, Hkv | assumption].
Qed.

Lemma chased_slept (st : state) :
  bounded req st -> chased req b mine [] st ->
  chased_at_start req b mine (next_cycle (called Sleep st)).
Proof.
  intros Hbd (Hcyc & Hatt & k & v & Hkv & Hbv & Hmk & Hcv & Hpos).
  destruct Hpos as [[[] _] | [_ Hav]].
  specialize (Hbd k v Hkv).
  unfold chased_at_start. state_simpl. rewrite Nat2Z.inj_succ.
  split; [lia | split].
  - intros k' v' Hv'. destruct (Hatt k' v' Hv'). lia.
  - exists k, v. repeat split; try assumption. lia.
Qed.

Lemma chased_initial :
  NoDup (initial_run_arns req) -> (0 <= max_retries req)%Z ->
  chased_at_start req b mine (initial_state req).
Proof.
  intros Hnd HR.
  destruct (registry_initial Hnd) as [Hreg _].
  destruct (sf_initial _ _ _ _ failing) as (a & Ha & Hm).
  assert (Hget : dict_get a (runs (initial_state req)) = Some (fresh_run b 1)).
  { unfold initial_state. cbn [runs].
    apply register_spec; [assumption | intros ? _ [] | ].
    right. now exists b. }
  split; [cbn; lia | split].
  - intros k v Hv. rewrite (reg_attempts _ _ _ _ Hreg k v Hv). cbn. lia.
  - exists a, (fresh_run b 1). now repeat split.
Qed.

(** While the batch is retried the monitor polls; it gives up with the
    batch at its last attempt. *)
Lemma monitor_chased (n : nat) :
  NoDup (initial_run_arns req) -> (0 <= max_retries req)%Z ->
  holds (fun st => registry_at_start env req st /\
                   chased_at_start req b mine st)
        (fun e st => registry env req [] st /\ given_up req b e st)
        (monitor_runs_parallel_with_retry env req n).
Proof.
  intros Hnd HR.
  enough (H : holds
                (fun st => polling req [] st /\ registry_at_start env req st /\
                           bounded req st /\ chased_at_start req b mine st)
                (fun e st => registry env req [] st /\ given_up req b e st)
                (monitor_runs_parallel_with_retry env req n)).
  { destruct (monitor_runs_parallel_with_retry env req n); cbn [holds] in *;
      tauto. }
  unfold monitor_runs_parallel_with_retry.
  apply run_cycles_holds
    with (Inv := fun ks st => polling req ks st /\ registry env req ks st /\
                              bounded req st /\ chased req b mine ks st).
  - intros run_arn rest st fl (Hp & Hr & Hb & Hc) Hpolled.
    pose proof (polling_step _ _ _ _ Hp Hpolled) as Hp'.
    pose proof (registry_step _ _ _ _ fresh Hp Hr Hpolled) as Hr'.
    pose proof (bounded_step _ _ _ (proj1 (proj1 Hp)) Hb Hpolled) as Hb'.
    pose proof (chased_step _ _ _ _ Hp Hr Hb Hc Hpolled) as Hc'.
    destruct fl as [st' | e st']; cbn [holds state_of] in *.
    + tauto.
    + split; [ | assumption].
      clear - Hr'. induction rest as [ | a rest IH]; [assumption | ].
      apply IH. now apply registry_weaken with a.
  - intros st ((Hs & Hf & _ & _) & Hr & Hb & Hc).
    split; [ | split; [now apply registry_cycle_start | split]].
    + split; [assumption | split; [assumption | split]].
      * apply (proj1 Hs).
      * apply incl_refl.
    + assumption.
    + now apply chased_cycle_start.
  - intros st ((Hs & _) & _ & _ & (_ & _ & k & v & Hkv & _ & _ & Hcv & _)) Hall.
    exfalso.
    pose proof (proj1 (forallb_values (runs st) completed (proj1 Hs)) Hall
                  k v Hkv).
    congruence.
  - intros st _ Hi. rewrite (sf_no_interrupt _ _ _ _ failing) in Hi.
    discriminate.
  - intros st ((Hs & Hf & _ & _) & Hr & Hb & Hc) _.
    split; [ | split; [now apply registry_slept | split]].
    + split; [now apply sound_slept | split; [ | split]].
      * state_simpl. apply Forall_cons; [apply Sleep_not_fatal | assumption].
      * constructor.
      * apply incl_nil_l.
    + exact Hb.
    + now apply chased_slept.
  - split; [ | split; [now apply registry_initial | split]].
    + split; [apply sound_initial | split; [constructor | split]].
      * constructor.
      * apply incl_nil_l.
    + apply (monitor_bounded 0 HR).
    + now apply chased_initial.
Qed.

End Chase.

(** ** Completed entries *)

Lemma kept_step (run_arn : string) (rest : list string) (st : state)
    (fl : flow) (k : string) (v : run_info) :
  fresh_scheduler env req ->
  polling req (run_arn :: rest) st ->
  registry env req (run_arn :: rest) st ->
  dict_get k (runs st) = Some v -> completed v = true ->
  polled env req run_arn st fl ->
  dict_get k (runs (state_of fl)) = Some v.
Proof.
  intros Hfresh ((Hnd & _ & _) & _) Hreg Hkv Hcv Hp.
  destruct (polled_effect _ _ _ Hnd Hp)
    as [-> | ri ri' new Hg Hc Hget Hkeys Hbi Ha Hev Hown Hdl Hcl Hcy
           | ri spec rname new_arn Hg Hc Hget Hkeys Hs Hne Hlt Hev Hcl Hcy];
    [assumption | | ]; rewrite Hget.
  - destruct (String.eqb_spec run_arn k); [congruence | assumption].
  - destruct (String.eqb_spec new_arn k) as [<- | _].
    + exfalso.
      apply (fresh_unknown _ (clock st) _ _ _ Hfresh Hs); [lia | ].
      apply (reg_known _ _ _ _ Hreg). eapply dict_get_keys, Hkv.
    + destruct (String.eqb_spec run_arn k); [congruence | assumption].
Qed.

Lemma run_cycles_kept (n : nat) (st : state) (k : string) (v : run_info) :
  fresh_scheduler env req ->
  polling req [] st -> registry_at_start env req st ->
  dict_get k (runs st) = Some v -> completed v = true ->
  dict_get k (runs (state_of (run_cycles env req n st))) = Some v.
Proof.
  intros Hfresh Hp Hr Hkv Hcv.
  enough (H : holds
                (fun st' => polling req [] st' /\
                            registry_at_start env req st' /\
                            dict_get k (runs st') = Some v)
                (fun _ st' => dict_get k (runs st') = Some v)
                (run_cycles env req n st)).
  { destruct (run_cycles env req n st); cbn [holds state_of] in *; tauto. }
  apply run_cycles_holds
    with (Inv := fun ks st' => polling req ks st' /\
                               registry env req ks st' /\
                               dict_get k (runs st') = Some v).
  - intros run_arn rest st0 fl (Hp0 & Hr0 & Hk0) Hpolled.
    pose proof (polling_step _ _ _ _ Hp0 Hpolled) as Hp'.
    pose proof (registry_step _ _ _ _ Hfresh Hp0 Hr0 Hpolled) as Hr'.
    pose proof (kept_step _ _ _ _ _ _ Hfresh Hp0 Hr0 Hk0 Hcv Hpolled) as Hk'.
    destruct fl as [st' | e st']; cbn [holds state_of] in *; tauto.
  - intros st0 ((Hs & Hf & _ & _) & Hr0 & Hk0).
    split; [ | split; [now apply registry_cycle_start | assumption]].
    split; [assumption | split; [assumption | split]].
    + apply (proj1 Hs).
    + apply incl_refl.
  - tauto.
  - tauto.
  - intros st0 ((Hs & Hf & _ & _) & Hr0 & Hk0) _.
    split; [ | split; [now apply registry_slept | exact Hk0]].
    split; [now apply sound_slept | split; [ | split]].
    + state_simpl. apply Forall_cons; [apply Sleep_not_fatal | assumption].
    + constructor.
    + apply incl_nil_l.
  - tauto.
Qed.

Lemma run_cycles_add (n m : nat) (st : state) :
  run_cycles env req (n + m) st
  = match run_cycles env req n st with
    | Continue st' => run_cycles env req m st'
    | Return e st' => Return e st'
    end.
Proof.
  revert st. induction n as [ | n IH]; intros st; [reflexivity | ].
  cbn [Nat.add run_cycles].
  destruct (poll_cycle env req st) as [st' | e st']; [apply IH | reflexivity].
Qed.

(** ** The number of the cycle *)

Lemma polled_cycle_no (run_arn : string) (st : state) (fl : flow) :
  polled env req run_arn st fl -> cycle_no (state_of fl) = cycle_no st.
Proof. intros Hp. now destruct Hp. Qed.

Lemma poll_runs_cycle_no (snapshot : list string) (st : state) :
  cycle_no (state_of (poll_runs env req snapshot st)) = cycle_no st.
Proof.
  revert st. induction snapshot as [ | a rest IH]; intros st; [reflexivity | ].
  cbn [poll_runs]. pose proof (polled_cycle_no _ _ _ (poll_run_polled a st)) as H.
  destruct (poll_run env req a st) as [st' | e st']; cbn [state_of] in *.
  - now rewrite IH.
  - assumption.
Qed.

Lemma run_cycles_cycle_no (n : nat) (st st' : state) :
  run_cycles env req n st = Continue st' ->
  cycle_no st' = (cycle_no st + n)%nat.
Proof.
  revert st. induction n as [ | n IH]; intros st H; cbn [run_cycles] in H.
  - injection H as <-. lia.
  - unfold poll_cycle in H.
    destruct (forallb completed (values (runs st))); [discriminate | ].
    pose proof (poll_runs_cycle_no (keys (runs st)) st) as Hc.
    destruct (poll_runs env req (keys (runs st)) st) as [st1 | e st1];
      [ | discriminate].
    destruct (keyboard_interrupt env (clock st1)); [discriminate | ].
    apply IH in H. state_simpl. lia.
Qed.


(** ** The exit for lack of traces *)

Lemma gives_up_at_last_attempt (n : nat) :
  holds (fun _ => True) (at_last_attempt req)
        (monitor_runs_parallel_with_retry env req n).
Proof.
  unfold monitor_runs_parallel_with_retry.
  apply run_cycles_holds with (Inv := fun _ _ => True).
  - intros run_arn rest st fl _ Hp.
    destruct Hp; cbn [holds]; unfold at_last_attempt; auto;
      try discriminate.
    intros _. exists run_arn, (observe ri s). eexists. state_simpl.
    rewrite dict_get_set_same. repeat split. assumption.
  - auto.
  - intros st _ _. discriminate.
  - intros st _ _. discriminate.
  - auto.
  - exact I.
Qed.

(** ** The operator's interrupt *)

Lemma interrupted_at_call (n : nat) :
  holds (fun _ => True) (at_interrupt env)
        (monitor_runs_parallel_with_retry env req n).
Proof.
  unfold monitor_runs_parallel_with_retry.
  apply run_cycles_holds with (Inv := fun _ _ => True).
  - intros run_arn rest st fl _ Hp.
    destruct Hp; cbn [holds]; unfold at_interrupt; state_simpl;
      auto; discriminate.
  - auto.
  - intros st _ _. discriminate.
  - intros st _ Hi _. exact Hi.
  - auto.
  - exact I.
Qed.

(** A call is made only at a time without interrupt, so that the clock of
    a polling monitor never passes an interrupt. *)
Lemma polled_before_interrupt (t : nat) (run_arn : string) (st st' : state) :
  keyboard_interrupt env t = true -> (clock st <= t)%nat ->
  polled env req run_arn st (Continue st') ->
  (clock st <= clock st' <= t)%nat.
Proof.
  intros Hi Hle Hp.
  assert (Hne : forall c, keyboard_interrupt env c = false -> c <> t)
    by (intros c Hc E; rewrite E in Hc; congruence).
  inversion Hp; subst; state_simpl;
    repeat match goal with
           | H : keyboard_interrupt env _ = false |- _ =>
               apply Hne in H
           end; lia.
Qed.

Lemma poll_runs_before_interrupt (t : nat) (snapshot : list string)
    (st st' : state) :
  keyboard_interrupt env t = true -> (clock st <= t)%nat ->
  poll_runs env req snapshot st = Continue st' ->
  (clock st <= clock st' <= t)%nat.
Proof.
  intros Hi. revert st.
  induction snapshot as [ | a rest IH]; intros st Hle H; cbn [poll_runs] in H.
  - injection H as <-. lia.
  - pose proof (poll_run_polled a st) as Hp.
    destruct (poll_run env req a st) as [st1 | e st1]; [ | discriminate].
    pose proof (polled_before_interrupt t a st st1 Hi Hle Hp).
    specialize (IH st1 ltac:(lia) H). lia.
Qed.

Lemma run_cycles_before_interrupt (t n : nat) (st st' : state) :
  keyboard_interrupt env t = true -> (clock st <= t)%nat ->
  run_cycles env req n st = Continue st' ->
  (clock st + n <= clock st' <= t)%nat.
Proof.
  intros Hi. revert st.
  induction n as [ | n IH]; intros st Hle H; cbn [run_cycles] in H.
  - injection H as <-. lia.
  - unfold poll_cycle in H.
    destruct (forallb completed (values (runs st))); [discriminate | ].
    destruct (poll_runs env req (keys (runs st)) st) as [st1 | e st1] eqn:Hp;
      [ | discriminate].
    pose proof (poll_runs_before_interrupt t _ st st1 Hi Hle Hp).
    destruct (keyboard_interrupt env (clock st1)) eqn:Hi1; [discriminate | ].
    assert (clock st1 <> t) by (intros E; rewrite E in Hi1; congruence).
    specialize (IH (next_cycle (called Sleep st1))).
    state_simpl. specialize (IH ltac:(lia) H). lia.
Qed.

(** The monitor has returned by the turn that follows the time of an
    interrupt. *)
Lemma returns_by_interrupt (t : nat) :
  keyboard_interrupt env t = true ->
  exists e st, monitor_runs_parallel_with_retry env req (S t) = Return e st.
Proof.
  intros Hi. unfold monitor_runs_parallel_with_retry.
  destruct (run_cycles env req (S t) (initial_state req)) as [st | e st] eqn:H;
    [ | now exists e, st].
  apply (run_cycles_before_interrupt t) in H; [ | assumption | cbn; lia].
  cbn [initial_state clock] in H. lia.
Qed.

(** ** Unfolding the loop *)

Lemma run_cycles_succ (n : nat) (st : state) :
  run_cycles env req (S n) st
  = match run_cycles env req n st with
    | Continue st' => poll_cycle env req st'
    | Return e st' => Return e st'
    end.
Proof.
  revert st. induction n as [ | n IH]; intros st.
  - cbn. now destruct (poll_cycle env req st).
  - change (run_cycles env req (S (S n)) st)
      with (match poll_cycle env req st with
            | Continue st' => run_cycles env req (S n) st'
            | Return e st' => Return e st'
            end).
    cbn [run_cycles].
    destruct (poll_cycle env req st) as [st' | e st']; [ | reflexivity].
    apply IH.
Qed.

(** Once the monitor has returned, more turns change nothing. *)
Lemma run_cycles_returned (n m : nat) (st st' : state) (e : exit) :
  run_cycles env req n st = Return e st' -> (n <= m)%nat ->
  run_cycles env req m st = Return e st'.
Proof.
  intros H Hle. induction Hle as [ | m Hle IH]; [assumption | ].
  now rewrite run_cycles_succ, IH.
Qed.

End Steps.

(** ** A batch whose runs end without traces *)

Section Pursuit.

Variable env : services.
Variable req : request.
Variable b : nat.
Variable mine : string -> Prop.
Hypothesis fresh : fresh_scheduler env req.
Hypothesis failing : failing_batch env req b mine.

Lemma polled_clock (run_arn : string) (st : state) (fl : flow) :
  polled env req run_arn st fl -> (clock st <= clock (state_of fl))%nat.
Proof. intros Hp. destruct Hp; state_simpl; lia. Qed.

(** The ways out of a poll when nothing interrupts and every retry is
    scheduled. *)
Lemma polled_exit (run_arn : string) (st st' : state) (e : exit) :
  polled env req run_arn st (Return e st') ->
  e = Fault \/ e = RetriesExhausted.
Proof.
  intros Hp.
  pose proof (fb_no_interrupt _ _ _ _ failing) as Hni.
  inversion Hp; subst;
    try (match goal with
         | H : keyboard_interrupt env _ = true |- _ =>
             rewrite Hni in H; discriminate
         end).
  - now left.
  - now right.
  - match goal with
    | H : _ = None \/ _ = Some "" |- _ =>
        destruct (fb_scheduled _ _ _ _ failing (S (S (clock st))) spec rname)
          as (a & Ha & Hne); destruct H; congruence
    end.
Qed.

(** The poll of a run of batch [b]. *)
Lemma polled_failing (run_arn : string) (v : run_info) (st : state)
    (fl : flow) :
  dict_get run_arn (runs st) = Some v -> batch_idx v = b ->
  mine run_arn -> completed v = false ->
  polled env req run_arn st fl ->
  (exists st', fl = Return RetriesExhausted st') \/
  (exists s new_arn,
     fl = Continue (retried run_arn v s new_arn st) /\
     mine new_arn /\ ~ known env req (clock st) new_arn) \/
  (exists st', fl = Continue st' /\
     tracks b run_arn (attempt v) st' /\
     forall s, get_run env (clock st) run_arn = Some s ->
               is_terminal s = false).
Proof.
  intros Hv Hb Hm Hc Hp.
  pose proof (fb_no_interrupt _ _ _ _ failing) as Hni.
  pose proof (fb_no_trace _ _ _ _ failing (S (clock st)) run_arn Hm) as Hd0.
  destruct (fb_retries _ _ _ _ failing) as (spec0 & rname0 & Hs0 & Hn0 & Hm').
  inversion Hp; subst;
    try (match goal with
         | H : keyboard_interrupt env _ = true |- _ =>
             rewrite Hni in H; discriminate
         end);
    try congruence.
  - (* the call raised *)
    right. right. eexists. split; [reflexivity | ]. split.
    + exists v. state_simpl. repeat split; assumption.
    + intros s0 Hs. congruence.
  - (* still running *)
    right. right. eexists. split; [reflexivity | ].
    replace ri with v in * by congruence. split.
    + exists (observe v s). state_simpl. rewrite dict_get_set_same.
      repeat split; assumption.
    + intros s0 Hs. congruence.
  - left. now eexists.
  - exfalso. replace ri with v in * by congruence.
    match goal with H : _ \/ _ |- _ => destruct H; congruence end.
  - exfalso.
    destruct (fb_scheduled _ _ _ _ failing (S (S (clock st))) spec rname)
      as (a & Ha & Hne).
    match goal with H : _ \/ _ |- _ => destruct H; congruence end.
  - right. left. replace ri with v in * by congruence.
    exists s, new_arn. split; [reflexivity | ].
    assert (spec = spec0) by congruence. assert (rname = rname0) by congruence.
    subst. split; [eapply Hm'; eassumption | ].
    eapply fresh_unknown; [exact fresh | eassumption | lia].
Qed.

(** The poll of a run leaves the entries of the other runs as they are. *)
Lemma other_step (run_arn : string) (st : state) (fl : flow) (k : string)
    (v : run_info) :
  NoDup (keys (runs st)) ->
  (forall k', In k' (keys (runs st)) -> known env req (clock st) k') ->
  dict_get k (runs st) = Some v -> run_arn <> k ->
  polled env req run_arn st fl ->
  dict_get k (runs (state_of fl)) = Some v.
Proof.
  intros Hnd HK Hkv NE Hp.
  destruct (polled_effect _ _ _ _ _ Hnd Hp)
    as [-> | ri ri' new Hg Hc Hget Hkeys Hbi Ha Hev Hown Hdl Hcl Hcy
           | ri spec rname new_arn Hg Hc Hget Hkeys Hs Hne Hlt Hev Hcl Hcy];
    [assumption | | ]; rewrite Hget.
  - destruct (String.eqb_spec run_arn k); [congruence | assumption].
  - destruct (String.eqb_spec new_arn k) as [<- | _].
    + exfalso.
      apply (fresh_unknown _ _ _ (clock st) _ _ _ fresh Hs); [lia | ].
      apply HK. eapply dict_get_keys, Hkv.
    + destruct (String.eqb_spec run_arn k); [congruence | assumption].
Qed.

Lemma tracks_other (run_arn : string) (st : state) (fl : flow) (k : string)
    (att : Z) :
  NoDup (keys (runs st)) ->
  (forall k', In k' (keys (runs st)) -> known env req (clock st) k') ->
  tracks b k att st -> run_arn <> k ->
  polled env req run_arn st fl ->
  tracks b k att (state_of fl).
Proof.
  intros Hnd HK (v & Hkv & H) NE Hp. exists v.
  split; [now apply (other_step run_arn st fl) | exact H].
Qed.

Lemma followed_step (t0 : nat) (k : string) (att : Z) (run_arn : string)
    (rest : list string) (st : state) (fl : flow) :
  polling req (run_arn :: rest) st ->
  registry env req (run_arn :: rest) st ->
  mine k ->
  followed env b mine t0 k att (run_arn :: rest) st ->
  polled env req run_arn st fl ->
  holds (followed env b mine t0 k att rest) (fun e _ => e = RetriesExhausted)
        fl.
Proof.
  intros Hpol Hreg Hmk [Ht0 Hcase] Hp.
  pose proof Hpol as ((Hnd & _ & _) & _ & Hks & Hincl).
  apply NoDup_cons_iff in Hks as [Hnotin Hks'].
  pose proof (reg_known _ _ _ _ Hreg) as HK.
  assert (Hrest : forall k0, In k0 rest -> known env req (clock st) k0).
  { intros k0 Hk0. apply HK, Hincl. now right. }
  pose proof (polled_clock _ _ _ Hp) as Hcl.
  destruct fl as [st' | e st']; cbn [holds state_of] in *.
  2:{ pose proof (polling_step _ _ _ _ _ _ Hpol Hp) as (_ & _ & Hnf & _).
      destruct (polled_exit _ _ _ _ Hp) as [-> | ->];
        [now destruct Hnf | reflexivity]. }
  split; [lia | ].
  destruct Hcase as [[Hin Htr] | [(Hnin & Htr & Hrun) | (k' & Hnin & Hmk' & Htr)]].
  - destruct (String.eqb_spec run_arn k) as [-> | NE].
    + destruct Htr as (v & Hkv & Hbv & Hcv & Hav).
      destruct (polled_failing _ _ _ _ Hkv Hbv Hmk Hcv Hp)
        as [(st1 & E) | [(s & new_arn & E & Hmn & Hunk)
                        | (st1 & E & Htr' & Hrun)]];
        [discriminate | | ]; injection E as ->.
      * right. right. exists new_arn.
        split; [intros Hin'; destruct Hunk; now apply Hrest | ].
        split; [assumption | ].
        exists (fresh_run (batch_idx v) (attempt v + 1)).
        rewrite retried_get, String.eqb_refl by assumption.
        cbn [batch_idx attempt completed fresh_run].
        repeat split; [assumption | now rewrite Hav].
      * right. left. split; [assumption | ]. rewrite <- Hav.
        split; [assumption | ]. exists (clock st). now split.
    + left. split.
      * destruct Hin as [E | Hin]; [congruence | assumption].
      * now apply (tracks_other run_arn st (Continue st')).
  - right. left.
    assert (NE : run_arn <> k) by (intros ->; apply Hnin; now left).
    split; [intros Hin; apply Hnin; now right | ].
    split; [now apply (tracks_other run_arn st (Continue st')) | assumption].
  - right. right. exists k'.
    assert (NE : run_arn <> k') by (intros ->; apply Hnin; now left).
    split; [intros Hin; apply Hnin; now right | ].
    split; [assumption | ].
    now apply (tracks_other run_arn st (Continue st')).
Qed.

(** One turn of the loop: the monitor gives up; or the run of batch [b] was
    not found terminal; or it was retried. *)
Lemma cycle_progress (st : state) (k : string) (att : Z) :
  polling req [] st -> registry_at_start env req st -> bounded req st ->
  mine k -> tracks b k att st ->
  (exists st', poll_cycle env req st = Return RetriesExhausted st') \/
  (exists st',
     poll_cycle env req st = Continue st' /\
     polling req [] st' /\ registry_at_start env req st' /\
     bounded req st' /\ (clock st < clock st')%nat /\
     ((tracks b k att st' /\
       exists t, (clock st <= t)%nat /\
                 forall s, get_run env t k = Some s -> is_terminal s = false) \/
      (exists k', mine k' /\ tracks b k' (att + 1) st'))).
Proof.
  intros Hpol Hreg Hbd Hmk Htr. unfold poll_cycle.
  pose proof Hpol as (Hs & Hf & _ & _).
  destruct (forallb completed (values (runs st))) eqn:Hall.
  { exfalso. destruct Htr as (v & Hkv & _ & Hcv & _).
    pose proof (proj1 (forallb_values (runs st) completed (proj1 Hs)) Hall
                  k v Hkv). congruence. }
  assert (H : holds
                (fun st' => polling req [] st' /\ registry env req [] st' /\
                            bounded req st' /\
                            followed env b mine (clock st) k att [] st')
                (fun e _ => e = RetriesExhausted)
                (poll_runs env req (keys (runs st)) st)).
  { apply poll_runs_holds
      with (Inv := fun ks st' =>
                     polling req ks st' /\ registry env req ks st' /\
                     bounded req st' /\
                     followed env b mine (clock st) k att ks st').
    - intros run_arn rest st0 fl (Hp0 & Hr0 & Hb0 & Hf0) Hpolled.
      pose proof (polling_step _ _ _ _ _ _ Hp0 Hpolled) as Hp'.
      pose proof (registry_step _ _ _ _ _ _ fresh Hp0 Hr0 Hpolled) as Hr'.
      pose proof (bounded_step _ _ _ _ _ (proj1 (proj1 Hp0)) Hb0 Hpolled)
        as Hb'.
      pose proof (followed_step _ _ _ _ _ _ _ Hp0 Hr0 Hmk Hf0 Hpolled) as Hf'.
      destruct fl as [st' | e st']; cbn [holds state_of] in *; tauto.
    - split; [ | split; [now apply registry_cycle_start | split]].
      + split; [assumption | split; [assumption | split]].
        * apply (proj1 Hs).
        * apply incl_refl.
      + assumption.
      + split; [lia | ]. left. split; [ | assumption].
        destruct Htr as (v & Hkv & _). eapply dict_get_keys, Hkv. }
  destruct (poll_runs env req (keys (runs st)) st) as [st1 | e st1];
    cbn [holds] in H.
  2:{ left. subst e. now exists st1. }
  destruct H as ((Hs1 & Hf1 & _ & _) & Hr1 & Hb1 & Hcl1 & Hcase).
  rewrite (fb_no_interrupt _ _ _ _ failing).
  right. eexists. split; [reflexivity | ].
  split.
  { split; [now apply sound_slept | split; [ | split]].
    - state_simpl. apply Forall_cons; [apply Sleep_not_fatal | assumption].
    - constructor.
    - apply incl_nil_l. }
  split; [now apply registry_slept | ].
  split; [exact Hb1 | ].
  split; [state_simpl; lia | ].
  destruct Hcase as [[[] _] | [(_ & Htr1 & Hrun) | (k' & _ & Hmk' & Htr1)]].
  - left. split; [exact Htr1 | exact Hrun].
  - right. exists k'. split; [assumption | exact Htr1].
Qed.

(** The monitor gives up at some turn. *)
Lemma pursuit (j : nat) :
  forall (st : state) (k : string) (att : Z),
    polling req [] st -> registry_at_start env req st -> bounded req st ->
    mine k -> tracks b k att st ->
    (max_retries req + 1 - att <= Z.of_nat j)%Z ->
    exists m st', run_cycles env req m st = Return RetriesExhausted st'.
Proof.
  induction j as [ | j IHj]; intros st k att Hpol Hreg Hbd Hmk Htr Hj;
    destruct (fb_reaches _ _ _ _ failing k Hmk) as [T HT];
    remember (T - clock st)%nat as d eqn:Hd;
    assert (Hd' : (T - clock st <= d)%nat) by lia; clear Hd;
    revert st Hpol Hreg Hbd Htr Hd';
    induction d as [ | d IHd]; intros st Hpol Hreg Hbd Htr Hd';
    destruct (cycle_progress st k att Hpol Hreg Hbd Hmk Htr)
      as [(st' & E) | (st' & E & Hpol' & Hreg' & Hbd' & Hcl
                       & [(Htr' & t & Ht & Hrun) | (k' & Hmk' & Htr')])];
    try (exists 1%nat, st'; cbn [run_cycles]; now rewrite E);
    try (exfalso; destruct (HT t ltac:(lia)) as (s & Hs & Hterm);
         specialize (Hrun s Hs); congruence);
    try (exfalso; destruct Htr' as (v' & Hkv' & _ & _ & Hav');
         specialize (Hbd' k' v' Hkv'); lia).
  - destruct (IHd st' Hpol' Hreg' Hbd' Htr' ltac:(lia)) as (m & st2 & Hm).
    exists (S m), st2. cbn [run_cycles]. now rewrite E.
  - destruct (IHj st' k' (att + 1)%Z Hpol' Hreg' Hbd' Hmk' Htr' ltac:(lia))
      as (m & st2 & Hm).
    exists (S m), st2. cbn [run_cycles]. now rewrite E.
  - destruct (IHd st' Hpol' Hreg' Hbd' Htr' ltac:(lia)) as (m & st2 & Hm).
    exists (S m), st2. cbn [run_cycles]. now rewrite E.
  - destruct (IHj st' k' (att + 1)%Z Hpol' Hreg' Hbd' Hmk' Htr' ltac:(lia))
      as (m & st2 & Hm).
    exists (S m), st2. cbn [run_cycles]. now rewrite E.
Qed.

Lemma monitor_gives_up :
  NoDup (initial_run_arns req) -> (0 <= max_retries req)%Z ->
  exists n st,
    monitor_runs_parallel_with_retry env req n = Return RetriesExhausted st.
Proof.
  intros Hnd HR. unfold monitor_runs_parallel_with_retry.
  destruct (fb_initial _ _ _ _ failing) as (a & Ha & Hm).
  assert (Hget : dict_get a (runs (initial_state req)) = Some (fresh_run b 1)).
  { unfold initial_state. cbn [runs].
    apply register_spec; [assumption | intros ? _ [] | ].
    right. now exists b. }
  apply (pursuit (Z.to_nat (max_retries req)) (initial_state req) a 1%Z).
  - exact (monitor_holds env req 0).
  - now apply registry_initial.
  - exact (monitor_bounded env req 0 HR).
  - exact Hm.
  - exists (fresh_run b 1). now repeat split.
  - lia.
Qed.

End Pursuit.

Section Owner.

Variable env : services.
Variable req : request.
Variable b : nat.
Variable mine : string -> Prop.
Hypothesis only : only_failing env req b mine.

Lemma owned_step (run_arn : string) (st : state) (fl : flow) :
  NoDup (keys (runs st)) -> owned b mine st ->
  polled env req run_arn st fl -> owned b mine (state_of fl).
Proof.
  intros Hnd Ho Hp.
  assert (Hset : forall ri ri',
            dict_get run_arn (runs st) = Some ri ->
            batch_idx ri' = batch_idx ri ->
            forall k v, dict_get k (dict_set run_arn ri' (runs st)) = Some v ->
                        mine k -> batch_idx v = b).
  { intros ri ri' Hg Hb k v. rewrite dict_get_set.
    destruct (String.eqb_spec run_arn k) as [<- | NE]; [ | apply Ho].
    intros [= <-] Hm. rewrite Hb. now apply (Ho run_arn). }
  destruct Hp; unfold owned; state_simpl; try assumption;
    try (now apply Hset with ri).
  - (* traces downloaded *)
    intros k v. rewrite !dict_get_set.
    destruct (String.eqb_spec run_arn k) as [<- | NE]; [ | apply Ho].
    intros [= <-] Hm. cbn. now apply (Ho run_arn).
  - (* the retry replaces the run *)
    intros k v. rewrite dict_get_set.
    destruct (String.eqb_spec new_arn k) as [<- | NE].
    + intros [= <-] _. cbn. apply (Ho run_arn ri); [assumption | ].
      now apply (proj1 only (S (clock st))).
    + rewrite dict_get_del by now apply NoDup_keys_set.
      destruct (String.eqb_spec run_arn k) as [<- | NE']; [discriminate | ].
      rewrite dict_get_set_other by assumption. apply Ho.
Qed.

Lemma monitor_owned (n : nat) :
  NoDup (initial_run_arns req) ->
  owned b mine (state_of (monitor_runs_parallel_with_retry env req n)).
Proof.
  intros Hnd.
  enough (H : holds (fun st => sound st /\ owned b mine st)
                    (fun _ st => sound st /\ owned b mine st)
                    (monitor_runs_parallel_with_retry env req n)).
  { destruct (monitor_runs_parallel_with_retry env req n); apply H. }
  unfold monitor_runs_parallel_with_retry.
  apply run_cycles_holds
    with (Inv := fun _ st => sound st /\ owned b mine st); try tauto.
  - intros run_arn rest st fl [Hs Ho] Hp.
    pose proof (sound_step _ _ _ _ _ Hs Hp).
    pose proof (owned_step _ _ _ (proj1 Hs) Ho Hp).
    destruct fl; cbn [holds state_of] in *; now split.
  - intros st [Hs Ho] _. split; [now apply sound_slept | exact Ho].
  - split; [apply sound_initial | ].
    intros k v Hv Hm. unfold initial_state in Hv. cbn [runs] in Hv.
    apply register_spec in Hv; [ | assumption | intros ? _ []].
    destruct Hv as [Hv | (i & Hi & ->)]; [discriminate | ].
    cbn. now apply (proj2 only i k).
Qed.

End Owner.

Lemma gives_up_at_empty_download (env : services) (req : request) (n : nat) :
  holds (fun _ => True) (at_empty_download env)
        (monitor_runs_parallel_with_retry env req n).
Proof.
  unfold monitor_runs_parallel_with_retry.
  apply run_cycles_holds with (Inv := fun _ _ => True).
  - intros run_arn rest st fl _ Hp.
    destruct Hp; cbn [holds]; unfold at_empty_download; auto;
      try discriminate.
    intros _. exists run_arn, (observe ri s). eexists. exists (S (clock st)).
    state_simpl. rewrite dict_get_set_same. repeat split. assumption.
  - auto.
  - intros st _ _. discriminate.
  - intros st _ _. discriminate.
  - auto.
  - exact I.
Qed.

End MonitorFacts.

Module MonitorClaims.
Import Ascii String DeviceFarm DictFacts MonitorFacts.
Local Open Scope string_scope.

(** C6, on the code: the handler of the operator's interrupt returns
    [False, all_traces] whatever the state of the runs.  With both batches
    Succeeded and the interrupt arriving during the wait that follows, the
    monitor returns failure. *)
Lemma succeeded_yet_failure_counterexample :
  let req := two_batches 3 in
  exists st,
    monitor_runs_parallel_with_retry interrupted_wait req 1
    = Return Interrupted st /\
    (forall k v, dict_get k (runs st) = Some v -> Succeeded st k v) /\
    return_value Interrupted st
    = (false, ["arn:run:0/iter1.perfetto-trace";
               "arn:run:1/iter1.perfetto-trace"]).
Proof.
  cbv zeta. eexists. split; [vm_compute; reflexivity | ].
  split; [ | reflexivity].
  intros k v. cbn [runs dict_get].
  destruct (String.eqb_spec "arn:run:0" k) as [<- | _].
  - intros [= <-]. repeat split. eexists _, _. right. right. now left.
  - destruct (String.eqb_spec "arn:run:1" k) as [<- | _]; [ | discriminate].
    intros [= <-]. repeat split. eexists _, _. now left.
Qed.

(** C6 (amended): the monitor returns success only with every tracked run
    Succeeded (terminal status and at least one trace file downloaded), and
    does so at the first turn of the loop that finds them all completed;
    with every run Succeeded it returns failure only through the handler of
    the operator's interrupt, at a call during which the interrupt arrives.
    Apart from the interrupt it returns failure only with a run that is not
    completed.  A download that leaves a run out of retries, or a retry that
    is not scheduled, is the last call the monitor makes: it is in the record
    of calls exactly when the monitor returns through the matching failure.
    Whatever the exit, the returned list holds the files of all the
    downloads made. *)
Theorem monitor_termination_conditions (env : services) (req : request)
    (n : nat) :
  holds
    (fun st =>
       Forall (fun ev => ~ fatal req ev) (events st) /\
       (forallb completed (values (runs st)) = true ->
        monitor_runs_parallel_with_retry env req (S n)
        = Return AllCompleted st))
    (fun e st =>
       snd (return_value e st) = downloaded_files (events st) /\
       exit_matches req e (events st) /\
       (fst (return_value e st) = true ->
        forall k v, dict_get k (runs st) = Some v -> Succeeded st k v) /\
       (e <> Interrupted ->
        (forall k v, dict_get k (runs st) = Some v -> Succeeded st k v) ->
        fst (return_value e st) = true) /\
       (e = Interrupted -> keyboard_interrupt env (clock st) = true))
    (monitor_runs_parallel_with_retry env req n).
Proof.
  pose proof (monitor_holds env req n) as H.
  pose proof (interrupted_at_call env req n) as Hint.
  unfold monitor_runs_parallel_with_retry in *.
  rewrite run_cycles_succ.
  destruct (run_cycles env req n (initial_state req)) as [st | e st];
    cbn [holds] in *.
  - destruct H as (_ & Hf & _). split; [assumption | ].
    intros Hall. unfold poll_cycle. now rewrite Hall.
  - destruct H as ((Hnd & Htr & Hsucc) & Hm & Hfault & Hall & Hinc).
    split; [exact Htr | split; [exact Hm | split; [ | split]]].
    + intros Hok k v Hg. apply Hsucc; [assumption | ].
      destruct e; try discriminate.
      apply (proj1 (forallb_values (runs st) completed Hnd) (Hall eq_refl) k v Hg).
    + intros Hni Hall'. destruct e; try reflexivity; try contradiction.
      * destruct Hinc as (k & v & Hg & Hc); [now right | ].
        destruct (Hall' k v Hg) as [Hc' _]. congruence.
      * destruct Hinc as (k & v & Hg & Hc); [now left | ].
        destruct (Hall' k v Hg) as [Hc' _]. congruence.
    + exact Hint.
Qed.

Lemma monitor_termination_conditions_witness :
  let req := two_batches 3 in
  exists st,
    monitor_runs_parallel_with_retry recovering_service req 3
    = Return AllCompleted st /\
    return_value AllCompleted st
    = (true, ["arn:run:1/iter1.perfetto-trace";
              "arn:run:retry-ii/iter1.perfetto-trace"]) /\
    snd (return_value AllCompleted st) = downloaded_files (events st) /\
    forall k v, dict_get k (runs st) = Some v -> Succeeded st k v.
Proof.
  intros req.
  pose proof (monitor_termination_conditions recovering_service req 3) as H.
  destruct (monitor_runs_parallel_with_retry recovering_service req 3)
    as [st | e st] eqn:E; [vm_compute in E; discriminate | ].
  assert (He : e = AllCompleted) by (vm_compute in E; congruence).
  subst e. exists st. cbn [holds] in H.
  destruct H as (Htr & _ & Hsucc & _).
  split; [reflexivity | ].
  split; [vm_compute in E; injection E as <-; reflexivity | ].
  split; [exact Htr | exact (Hsucc eq_refl)].
Defined.

(** C9, on the code: the interrupt handler returns [False, all_traces], the
    value of the failure exits.  An interrupted request and an abandoned
    one that have collected the same files return the same value. *)
Lemma cancellation_indistinguishable_counterexample :
  let req := two_batches 0 in
  exists st1 st2,
    monitor_runs_parallel_with_retry interrupted_service req 1
    = Return Interrupted st1 /\
    monitor_runs_parallel_with_retry abandoning_service req 2
    = Return RetriesExhausted st2 /\
    return_value Interrupted st1 = return_value RetriesExhausted st2 /\
    return_value Interrupted st1
    = (false, ["arn:run:1/iter1.perfetto-trace"]).
Proof.
  cbv zeta. eexists _, _.
  split; [vm_compute; reflexivity | ].
  split; [vm_compute; reflexivity | ].
  split; reflexivity.
Qed.

(** C9 (amended): when the operator's interrupt arrives during a call of
    the monitor, the monitor returns without making that call or any later
    one, with the files of the downloads made so far and without raising;
    it has returned by the turn that follows the time of the interrupt.  The
    value it returns has the success flag [False], as the values returned
    on abandonment and on a failed retry: the return value does not tell an
    interrupted request from a failed one. *)
Theorem cancellation_returns_collected_traces (env : services)
    (req : request) :
  (forall n st,
     monitor_runs_parallel_with_retry env req n = Return Interrupted st ->
     keyboard_interrupt env (clock st) = true /\
     return_value Interrupted st = (false, downloaded_files (events st)) /\
     forall m, (n <= m)%nat ->
       monitor_runs_parallel_with_retry env req m = Return Interrupted st) /\
  (forall t, keyboard_interrupt env t = true ->
     exists e st,
       monitor_runs_parallel_with_retry env req (S t) = Return e st) /\
  (forall st,
     return_value Interrupted st = return_value RetriesExhausted st /\
     return_value Interrupted st = return_value RetryNotScheduled st).
Proof.
  split; [ | split].
  - intros n st H.
    pose proof (interrupted_at_call env req n) as Hi.
    pose proof (monitor_holds env req n) as Hh.
    rewrite H in Hi, Hh. cbn [holds] in Hi, Hh.
    destruct Hh as ((_ & Htr & _) & _).
    split; [now apply Hi | split].
    + unfold return_value. now rewrite Htr.
    + intros m Hle. unfold monitor_runs_parallel_with_retry in *.
      now apply run_cycles_returned with n.
  - apply returns_by_interrupt.
  - intros st. split; reflexivity.
Qed.

Lemma cancellation_returns_collected_traces_witness :
  let req := two_batches 3 in
  exists st,
    monitor_runs_parallel_with_retry interrupted_service req 1
    = Return Interrupted st /\
    keyboard_interrupt interrupted_service (clock st) = true /\
    return_value Interrupted st = (false, downloaded_files (events st)) /\
    return_value Interrupted st = (false, ["arn:run:1/iter1.perfetto-trace"]) /\
    exists e st',
      monitor_runs_parallel_with_retry interrupted_service req 4
      = Return e st'.
Proof.
  intros req.
  destruct (monitor_runs_parallel_with_retry interrupted_service req 1)
    as [st | e st] eqn:E; [vm_compute in E; discriminate | ].
  assert (He : e = Interrupted) by (vm_compute in E; congruence).
  subst e. exists st.
  destruct (cancellation_returns_collected_traces interrupted_service req)
    as (H1 & H2 & _).
  destruct (H1 1%nat st E) as (Hi & Hv & _).
  split; [reflexivity | split; [exact Hi | split; [exact Hv | split]]].
  - vm_compute in E. injection E as <-. reflexivity.
  - apply (H2 3%nat). reflexivity.
Defined.

(** ** The example services *)

Lemma tally_inj (n m : nat) : tally n = tally m -> n = m.
Proof.
  revert m. induction n as [ | n IH]; intros [ | m]; cbn; try discriminate.
  - reflexivity.
  - intros [= H]. f_equal. now apply IH.
Qed.

Lemma retry_arn_fresh (get : nat -> string -> option string)
    (dl : nat -> string -> list string) (int : nat -> bool) (r : Z) :
  fresh_scheduler
    {| get_run := get; download_artifacts := dl;
       schedule_test_run := fun t _ _ => Some (retry_arn t);
       keyboard_interrupt := int |}
    (two_batches r).
Proof.
  intros t spec rname a. cbn. intros [= <-]. split.
  - intros [E | [E | []]]; discriminate.
  - intros t' _ _ [= E]. symmetry. now apply tally_inj.
Qed.

Lemma silent_failures_fail (r : Z) (b : nat) :
  (b < 2)%nat ->
  silent_failure silent_failures (two_batches r) b (fun _ => True).
Proof.
  intros Hb. constructor; cbn.
  - destruct b as [ | [ | b]]; [now eexists | now eexists | lia].
  - destruct b as [ | [ | b]]; [now eexists _, _ | now eexists _, _ | lia].
  - intros _ a _. split; [now exists "COMPLETED" | reflexivity].
  - intros t _ _. exists (retry_arn t). split; [reflexivity | discriminate].
  - reflexivity.
Qed.

Lemma late_failures_fail (r : Z) :
  failing_batch late_failures (two_batches r) 0
    (fun a => a <> "arn:run:1") /\
  only_failing late_failures (two_batches r) 0 (fun a => a <> "arn:run:1").
Proof.
  split; [constructor | split];
    cbn -[Nat.ltb].
  - eexists. split; [reflexivity | discriminate].
  - eexists _, _. split; [reflexivity | split; [reflexivity | ]].
    intros t a [= <-]. unfold retry_arn. cbn. discriminate.
  - intros a _. exists (length a). intros t Ht. exists "COMPLETED".
    replace (t <? length a)%nat with false; [now split | ].
    symmetry. apply Nat.ltb_ge. exact Ht.
  - intros _ a Ha. destruct (String.eqb_spec a "arn:run:1");
      [contradiction | reflexivity].
  - intros t _ _. exists (retry_arn t). split; [reflexivity | discriminate].
  - reflexivity.
  - intros _ a. destruct (String.eqb_spec a "arn:run:1");
      [discriminate | now intros _].
  - intros [ | [ | i]] a; cbn; [reflexivity | | now destruct i].
    intros [= <-] H. now destruct H.
Qed.

(** C4: with [max_retries = R >= 0], distinct initial handles and a
    service that names every run it schedules with a handle of its own: a
    batch all of whose runs reach a terminal status, each after a time of
    its own, with no trace file downloaded, while every retry is scheduled,
    makes the monitor return failure at some turn, and the batch has then
    been scheduled at most [R + 1] times, and exactly [R + 1] times (the
    initial run and [R] retries) when it is the only batch whose runs
    deliver no trace; when its runs are found completed at every poll from
    the first, the monitor returns at its turn [R + 1].  At every turn the
    attempt counter of a run is 1 plus the number of retries scheduled for
    its batch, and lies between 1 and [R + 1]; whenever the monitor returns
    for lack of traces, the run it gives up on is at attempt [R + 1] and its
    batch has been scheduled [R + 1] times. *)
Theorem retry_budget (env : services) (req : request) :
  (0 <= max_retries req)%Z ->
  NoDup (initial_run_arns req) ->
  fresh_scheduler env req ->
  (forall b mine,
     failing_batch env req b mine ->
     exists n st,
       monitor_runs_parallel_with_retry env req n
       = Return RetriesExhausted st /\
       fst (return_value RetriesExhausted st) = false /\
       (Z.of_nat (1 + retries_of b (events st)) <= max_retries req + 1)%Z /\
       (only_failing env req b mine ->
        Z.of_nat (1 + retries_of b (events st)) = (max_retries req + 1)%Z)) /\
  (forall b mine,
     silent_failure env req b mine ->
     exists st,
       monitor_runs_parallel_with_retry env req
         (S (Z.to_nat (max_retries req)))
       = Return RetriesExhausted st /\
       Z.of_nat (1 + retries_of b (events st)) = (max_retries req + 1)%Z) /\
  (forall n k v,
     let st := state_of (monitor_runs_parallel_with_retry env req n) in
     dict_get k (runs st) = Some v ->
     (1 <= attempt v <= max_retries req + 1)%Z /\
     attempt v = Z.of_nat (1 + retries_of (batch_idx v) (events st))) /\
  (forall n st,
     monitor_runs_parallel_with_retry env req n = Return RetriesExhausted st ->
     exists k v old,
       dict_get k (runs st) = Some v /\
       events st = Download k (batch_idx v) (attempt v) [] :: old /\
       attempt v = (max_retries req + 1)%Z /\
       Z.of_nat (1 + retries_of (batch_idx v) (events st))
       = (max_retries req + 1)%Z).
Proof.
  intros HR Hnd Hfresh.
  assert (Hgen : forall n k v,
            let st := state_of (monitor_runs_parallel_with_retry env req n) in
            dict_get k (runs st) = Some v ->
            (1 <= attempt v <= max_retries req + 1)%Z /\
            attempt v = Z.of_nat (1 + retries_of (batch_idx v) (events st))).
  { intros n k v st Hv. split.
    + exact (monitor_bounded env req n HR k v Hv).
    + pose proof (monitor_registry env req n Hfresh Hnd) as H.
      subst st.
      destruct (monitor_runs_parallel_with_retry env req n) as [st | e st];
        cbn [holds state_of] in *.
      * destruct H as (_ & Hreg & _).
        rewrite (reg_attempts _ _ _ _ Hreg k v Hv). lia.
      * destruct H as (_ & Hreg).
        rewrite (reg_attempts _ _ _ _ Hreg k v Hv). lia. }
  assert (Hlast : forall n st,
            monitor_runs_parallel_with_retry env req n
            = Return RetriesExhausted st ->
            exists k v old,
              dict_get k (runs st) = Some v /\
              events st = Download k (batch_idx v) (attempt v) [] :: old /\
              attempt v = (max_retries req + 1)%Z /\
              Z.of_nat (1 + retries_of (batch_idx v) (events st))
              = (max_retries req + 1)%Z).
  { intros n st E.
    pose proof (gives_up_at_last_attempt env req n) as H.
    specialize (Hgen n). rewrite E in H, Hgen. cbn [holds state_of] in *.
    destruct (H eq_refl) as (k & v & old & Hv & Hev & Hge).
    destruct (Hgen k v Hv) as [Hb Ha].
    exists k, v, old. repeat split; try assumption; lia. }
  split; [ | split; [ | split; [exact Hgen | exact Hlast]]].
  - intros b mine Hfail.
    destruct (monitor_gives_up env req b mine Hfresh Hfail Hnd HR)
      as (n & st & E).
    exists n, st. split; [exact E | split; [reflexivity | ]].
    pose proof (monitor_registry env req n Hfresh Hnd) as Hreg.
    rewrite E in Hreg. cbn [holds] in Hreg. destruct Hreg as [_ Hreg].
    split.
    + destruct (fb_initial _ _ _ _ Hfail) as (a & Ha & _).
      assert (Hb : (b < List.length (initial_run_arns req))%nat)
        by (apply nth_error_Some; congruence).
      apply (reg_tracked _ _ _ _ Hreg) in Hb as (k & v & Hv & <-).
      specialize (Hgen n k v). rewrite E in Hgen. cbn [state_of] in Hgen.
      destruct (Hgen Hv) as [Hbd Hav]. lia.
    + intros Honly.
      pose proof (gives_up_at_empty_download env req n) as Hemp.
      pose proof (monitor_owned env req b mine Honly n Hnd) as Hown.
      rewrite E in Hemp, Hown. cbn [holds state_of] in Hemp, Hown.
      destruct (Hemp eq_refl) as (k & v & old & t & Hv & Hev & Hd).
      destruct (Hlast n st E) as (k' & v' & old' & Hv' & Hev' & _ & Hcount).
      assert (Hk : k' = k) by congruence. subst k'.
      assert (Hvv : v' = v) by congruence. subst v'.
      rewrite <- (Hown k v Hv (proj1 Honly t k Hd)). exact Hcount.
  - intros b mine Hfail.
    pose proof (monitor_chased env req b mine Hfresh Hfail
                  (S (Z.to_nat (max_retries req))) Hnd HR) as H.
    unfold monitor_runs_parallel_with_retry in *.
    destruct (run_cycles env req (S (Z.to_nat (max_retries req)))
                (initial_state req)) as [st | e st] eqn:E; cbn [holds] in H.
    + exfalso. apply run_cycles_cycle_no in E.
      destruct H as (_ & Hcyc & _). cbn [initial_state cycle_no] in E. lia.
    + destruct H as (Hreg & -> & k & v & Hkv & <- & Hav).
      exists st. split; [reflexivity | ].
      rewrite (reg_attempts _ _ _ _ Hreg k v Hkv) in Hav. lia.
Qed.

Lemma retry_budget_witness :
  exists n st,
    monitor_runs_parallel_with_retry late_failures (two_batches 3) n
    = Return RetriesExhausted st /\
    fst (return_value RetriesExhausted st) = false /\
    Z.of_nat (1 + retries_of 0 (events st)) = 4%Z.
Proof.
  assert (HR : (0 <= max_retries (two_batches 3))%Z) by (cbn; lia).
  assert (Hnd : NoDup (initial_run_arns (two_batches 3))).
  { cbn. repeat constructor; cbn; intuition discriminate. }
  destruct (proj1 (retry_budget late_failures (two_batches 3) HR Hnd
                     (retry_arn_fresh _ _ _ 3))
              0%nat (fun a => a <> "arn:run:1")
              (proj1 (late_failures_fail 3)))
    as (n & st & E & Hf & _ & Hcount).
  exists n, st. split; [exact E | split; [exact Hf | ]].
  exact (Hcount (proj2 (late_failures_fail 3))).
Defined.

(** C10: with distinct initial handles and a service that names every run
    it schedules with a handle of its own, at every turn of the monitor
    each batch index is the one of exactly one entry of [runs]; a retry
    removes the entry of the old handle and enters the new handle with the
    attempt incremented by 1, leaving the other entries as they are; a run
    scheduled as a retry during a cycle is queried for its status only in
    later cycles; and once the traces of a run are downloaded, its entry is
    completed and stays as it is at every later turn, and no later call
    queries the run, downloads from it or schedules a run for its batch. *)
Theorem run_registry_invariant (env : services) (req : request) (n : nat) :
  NoDup (initial_run_arns req) ->
  fresh_scheduler env req ->
  let st := state_of (monitor_runs_parallel_with_retry env req n) in
  (forall b, (b < List.length (initial_run_arns req))%nat ->
     exists k v,
       dict_get k (runs st) = Some v /\ batch_idx v = b /\
       forall k' v', dict_get k' (runs st) = Some v' -> batch_idx v' = b ->
                     k' = k) /\
  (forall k v, dict_get k (runs st) = Some v ->
     (batch_idx v < List.length (initial_run_arns req))%nat) /\
  (forall st0 run_arn ri s new_arn,
     NoDup (keys (runs st0)) -> dict_get run_arn (runs st0) = Some ri ->
     new_arn <> run_arn ->
     let st1 := retried run_arn ri s new_arn st0 in
     dict_get run_arn (runs st1) = None /\
     dict_get new_arn (runs st1)
     = Some (fresh_run (batch_idx ri) (attempt ri + 1)) /\
     forall k, k <> run_arn -> k <> new_arn ->
               dict_get k (runs st1) = dict_get k (runs st0)) /\
  (forall c c' b att a,
     In (Schedule c b att (Some a)) (events st) -> a <> "" ->
     In (GetRun c' a) (events st) -> (c < c')%nat) /\
  (forall new old a b att f fs,
     events st = (new ++ Download a b att (f :: fs) :: old)%list ->
     Forall (fun ev => ~ touches a b ev) new /\
     exists v, dict_get a (runs st) = Some v /\ completed v = true /\
               batch_idx v = b) /\
  (forall m k v,
     (n <= m)%nat -> dict_get k (runs st) = Some v -> completed v = true ->
     dict_get k
       (runs (state_of (monitor_runs_parallel_with_retry env req m)))
     = Some v).
Proof.
  intros Hnd Hfresh st.
  pose proof (monitor_registry env req n Hfresh Hnd) as H.
  assert (Hreg : registry env req [] st).
  { subst st.
    destruct (monitor_runs_parallel_with_retry env req n);
      cbn [holds state_of] in *; [apply H | apply H]. }
  destruct Hreg as [HK HB HE HA HQ HS HO HD HF].
  split; [ | split; [ | split; [ | split; [ | split]]]].
  - intros b Hb. apply HE in Hb as (k & v & Hv & Hbv).
    exists k, v. split; [assumption | split; [assumption | ]].
    intros k' v' Hv' Hbv'. apply (HB k' k v' v); congruence.
  - intros k v Hv. apply HE. now exists k, v.
  - intros st0 run_arn ri s new_arn Hnd0 Hg Hne st1. subst st1.
    repeat split.
    + rewrite retried_get by assumption.
      destruct (String.eqb_spec new_arn run_arn); [contradiction | ].
      now rewrite String.eqb_refl.
    + rewrite retried_get by assumption. now rewrite String.eqb_refl.
    + intros k N1 N2. rewrite retried_get by assumption.
      destruct (String.eqb_spec new_arn k); [congruence | ].
      destruct (String.eqb_spec run_arn k); [congruence | reflexivity].
  - exact HO.
  - intros new old a b att f fs E. split.
    + rewrite E in HF. eapply settled_split, HF.
    + apply HD with att f fs. rewrite E. apply in_or_app. right. now left.
  - intros m k v Hle Hv Hcv. subst st.
    unfold monitor_runs_parallel_with_retry in *.
    replace m with (n + (m - n))%nat by lia. rewrite run_cycles_add.
    destruct (run_cycles env req n (initial_state req)) as [st' | e st'];
      cbn [holds state_of] in *; [ | assumption].
    now apply run_cycles_kept.
Qed.

Lemma run_registry_invariant_witness :
  let req := two_batches 3 in
  let st := state_of (monitor_runs_parallel_with_retry recovering_service
                        req 2) in
  (exists k v, dict_get k (runs st) = Some v /\ batch_idx v = 0%nat /\
     forall k' v', dict_get k' (runs st) = Some v' -> batch_idx v' = 0%nat ->
                   k' = k) /\
  (forall c c' b att a,
     In (Schedule c b att (Some a)) (events st) -> a <> "" ->
     In (GetRun c' a) (events st) -> (c < c')%nat) /\
  In (Schedule 0 0 2 (Some (retry_arn 2))) (events st) /\
  In (GetRun 1 (retry_arn 2)) (events st).
Proof.
  intros req st.
  assert (Hnd : NoDup (initial_run_arns req)).
  { cbn. repeat constructor; cbn; intuition discriminate. }
  destruct (run_registry_invariant recovering_service req 2 Hnd
              (retry_arn_fresh _ _ _ 3)) as (Ha & _ & _ & Hc & _).
  split; [apply (Ha 0%nat); cbn; lia | ].
  split; [exact Hc | ].
  split; vm_compute; tauto.
Defined.

End MonitorClaims.

(* ------------------------------------------------------------------ *)
(** * Facts on the loader of traces *)
(* ------------------------------------------------------------------ *)


Module LoaderFacts.
Import Ascii String PyStr TraceProcessor TraceTree TraceProcessorFacts
       ExtractionClaims.
Local Open Scope string_scope.

(** ** Paths found by [rglob] *)

Lemma hidden_app (p q : path) :
  hidden (p ++ q)%list = hidden p || hidden q.
Proof. unfold hidden. apply existsb_app. Qed.

Lemma last_app_cons {A : Type} (l : list A) (x d : A) (l' : list A) :
  last (l ++ x :: l')%list d = last (x :: l') d.
Proof.
  induction l as [ | a l IH]; [reflexivity | ].
  rewrite <- IH. cbn [app].
  destruct (l ++ x :: l')%list eqn:E; [now destruct l | reflexivity].
Qed.

Lemma rglob_below (n : node) :
  forall at_ p c, In (p, c) (rglob at_ n) ->
    exists suffix, p = (at_ ++ suffix)%list /\ suffix <> [] /\
                   is_trace_name (last suffix "") = true.
Proof.
  induction n as [f c0 | d ch IH] using node_rect'; intros at_ p c Hin.
  - cbn [rglob] in Hin. destruct (is_trace_name f) eqn:E; [ | destruct Hin].
    destruct Hin as [[= <- <-] | []]. exists [f]. now repeat split.
  - cbn [rglob] in Hin. apply in_app_or in Hin as [Hin | Hin].
    + destruct (is_trace_name d) eqn:E; [ | destruct Hin].
      destruct Hin as [[= <- <-] | []]. exists [d]. now repeat split.
    + apply in_flat_map in Hin as (x & Hx & Hin).
      rewrite Forall_forall in IH.
      destruct (IH x Hx _ _ _ Hin) as (suffix & -> & Hne & Hname).
      exists (d :: suffix). rewrite <- app_assoc. split; [reflexivity | ].
      split; [discriminate | ].
      destruct suffix as [ | s suffix]; [congruence | exact Hname].
Qed.

(** ** Sorting keeps the elements *)

Lemma insert_by_perm {A : Type} (key : A -> path) (x : A) (l : list A) :
  Permutation (insert_by key x l) (x :: l).
Proof.
  induction l as [ | y l IH]; [reflexivity | ]. cbn [insert_by].
  destruct (path_leb (key x) (key y)); [reflexivity | ].
  rewrite IH. apply perm_swap.
Qed.

Lemma sorted_by_perm {A : Type} (key : A -> path) (l : list A) :
  Permutation (sorted_by key l) l.
Proof.
  induction l as [ | x l IH]; [reflexivity | ]. unfold sorted_by in *.
  cbn [fold_right]. rewrite insert_by_perm. now constructor.
Qed.

Lemma sorted_by_in {A : Type} (key : A -> path) (l : list A) (x : A) :
  In x (sorted_by key l) <-> In x l.
Proof.
  split; apply Permutation_in;
    [apply sorted_by_perm | symmetry; apply sorted_by_perm].
Qed.

Lemma path_leb_total (p q : path) :
  path_leb p q = true \/ path_leb q p = true.
Proof.
  revert q. induction p as [ | a p IH]; intros q; [now left | ].
  destruct q as [ | b q]; [now right | ]. cbn [path_leb].
  destruct (String.eqb_spec a b) as [-> | NE].
  - rewrite String.eqb_refl. apply IH.
  - destruct (String.eqb_spec b a) as [E | _]; [congruence | ].
    apply String.leb_total.
Qed.

Lemma insert_by_sorted {A : Type} (key : A -> path) (x : A) (l : list A) :
  Sorted (fun a b => path_leb (key a) (key b) = true) l ->
  Sorted (fun a b => path_leb (key a) (key b) = true) (insert_by key x l).
Proof.
  induction 1 as [ | y l Hs IH Hhd]; [repeat constructor | ].
  cbn [insert_by]. destruct (path_leb (key x) (key y)) eqn:E.
  - constructor; [now constructor | now constructor].
  - constructor; [exact IH | ].
    destruct l as [ | z l]; cbn [insert_by].
    + constructor. destruct (path_leb_total (key x) (key y)); congruence.
    + destruct (path_leb (key x) (key z)).
      * constructor. destruct (path_leb_total (key x) (key y)); congruence.
      * constructor. now inversion Hhd.
Qed.

Lemma sorted_by_sorted {A : Type} (key : A -> path) (l : list A) :
  Sorted (fun a b => path_leb (key a) (key b) = true) (sorted_by key l).
Proof.
  induction l as [ | x l IH]; [constructor | ].
  unfold sorted_by in *. cbn [fold_right]. now apply insert_by_sorted.
Qed.

(** ** The run folders *)

Lemma arn_folders_in (d : directory) (folder : path) (ch : list node) :
  In (folder, ch) (arn_folders d) <->
  exists dn, In (Dir dn ch) (entries d) /\ startswith "arn" dn = true /\
             folder = (base_parts d ++ [dn])%list.
Proof.
  unfold arn_folders. rewrite in_flat_map. split.
  - intros ([f c | dn ch'] & Hin & H); [destruct H | ].
    destruct (startswith "arn" dn) eqn:E; [ | destruct H].
    destruct H as [[= <- <-] | []]. now exists dn.
  - intros (dn & Hin & E & ->). exists (Dir dn ch). split; [assumption | ].
    rewrite E. now left.
Qed.

Lemma run_folders_cases (d : directory) :
  (arn_folders d = [] /\ run_folders d = [(base_parts d, entries d)]) \/
  (arn_folders d <> [] /\ run_folders d = sorted_by fst (arn_folders d)).
Proof.
  unfold run_folders. fold (arn_folders d).
  destruct (arn_folders d) as [ | f fs] eqn:E; [now left | right].
  split; [discriminate | ].
  destruct (sorted_by fst (f :: fs)) eqn:E'; [ | reflexivity].
  pose proof (sorted_by_perm fst (f :: fs)) as Hp. rewrite E' in Hp.
  now apply Permutation_nil in Hp.
Qed.

Lemma run_folders_sorted (d : directory) :
  Sorted (fun f g => path_leb (fst f) (fst g) = true) (run_folders d).
Proof.
  destruct (run_folders_cases d) as [[_ ->] | [_ ->]].
  - repeat constructor.
  - apply sorted_by_sorted.
Qed.

Lemma enumerate_from_in {A : Type} (l : list A) :
  forall i k x, In (k, x) (enumerate_from i l) ->
                (i <= k)%nat /\ nth_error l (k - i) = Some x.
Proof.
  induction l as [ | y l IH]; intros i k x Hin; [destruct Hin | ].
  cbn [enumerate_from] in Hin. destruct Hin as [[= <- <-] | Hin].
  - rewrite Nat.sub_diag. now split.
  - apply IH in Hin as [Hle Hn]. split; [lia | ].
    replace (k - i)%nat with (S (k - S i)) by lia. exact Hn.
Qed.

(** Where a task comes from. *)
Lemma trace_tasks_in (d : directory) (t : task) :
  In t (trace_tasks d) ->
  exists folder ch suffix,
    nth_error (run_folders d) (batch_id t) = Some (folder, ch) /\
    task_run_arn t = path_name folder /\
    trace_path t = (folder ++ suffix)%list /\ suffix <> [] /\
    is_trace_name (path_name (trace_path t)) = true /\
    hidden (trace_path t) = false.
Proof.
  unfold trace_tasks. rewrite in_flat_map.
  intros ([i [folder ch]] & Hen & Hin).
  apply enumerate_from_in in Hen as [_ Hn]. rewrite Nat.sub_0_r in Hn.
  apply in_map_iff in Hin as ([p c] & <- & Hin). cbn.
  unfold traces_under in Hin. apply sorted_by_in in Hin.
  apply filter_In in Hin as [Hin Hh]. cbn in Hh.
  apply in_flat_map in Hin as (n & _ & Hin).
  apply rglob_below in Hin as (suffix & -> & Hne & Hname).
  exists folder, ch, suffix. repeat split; try assumption.
  - unfold path_name. destruct suffix as [ | s suffix]; [congruence | ].
    now rewrite last_app_cons.
  - now apply negb_true_iff.
Qed.

Lemma run_folders_in (d : directory) (folder : path) (ch : list node) :
  In (folder, ch) (run_folders d) ->
  (arn_folders d = [] /\ folder = base_parts d /\ ch = entries d) \/
  (exists dn, In (Dir dn ch) (entries d) /\ startswith "arn" dn = true /\
              folder = (base_parts d ++ [dn])%list).
Proof.
  destruct (run_folders_cases d) as [[E ->] | [_ ->]]; intros Hin.
  - destruct Hin as [[= <- <-] | []]. now left.
  - right. apply sorted_by_in in Hin. now apply arn_folders_in.
Qed.

Lemma arn_folders_nil (d : directory) :
  arn_folders d = [] ->
  forall dn ch, In (Dir dn ch) (entries d) -> startswith "arn" dn = false.
Proof.
  intros E dn ch Hin. destruct (startswith "arn" dn) eqn:Hs; [ | reflexivity].
  assert (H : In ((base_parts d ++ [dn])%list, ch) (arn_folders d))
    by (apply arn_folders_in; now exists dn).
  rewrite E in H. destruct H.
Qed.

Lemma int_of_digits_nonneg (ds : list ascii) : (0 <= int_of_digits ds)%Z.
Proof.
  unfold int_of_digits.
  assert (H : forall acc, (0 <= acc)%Z ->
            (0 <= fold_left (fun a c => 10 * a + digit_value c) ds acc)%Z).
  { induction ds as [ | c ds IH]; intros acc Hacc; [exact Hacc | ].
    cbn [fold_left]. apply IH. unfold digit_value. lia. }
  apply H. lia.
Qed.

Lemma process_single_trace_some (t : task) (m : TraceMetrics) :
  process_single_trace t = Some m ->
  batch m = batch_id t /\ run_arn m = task_run_arn t /\
  trace_file m = path_str (trace_path t) /\ (0 <= iteration m)%Z.
Proof.
  unfold process_single_trace.
  destruct (search_iter (path_name (trace_path t))) as [ds | ]; [ | discriminate].
  destruct (extract_startup_metrics_from_trace (content t)) as [[s r] | ];
    [ | discriminate].
  intros [= <-]. cbn. repeat split. apply int_of_digits_nonneg.
Qed.

(** What a call that extracts and returns a frame has done. *)
Lemma extract_frame (order : completion_order) (d : directory)
    (mw : option Z) (uc : bool) (rows : list TraceMetrics) :
  result (extract_directory order d mw uc) = Frame rows ->
  trace_tasks d <> [] /\
  match mw with Some n => (n <=? 0)%Z | None => false end = false /\
  rows = fst (collect (order (map (fun t => (t, run_task t)) (trace_tasks d)))) /\
  rows <> [] /\
  submitted (extract_directory order d mw uc) = trace_tasks d /\
  dir_after (extract_directory order d mw uc)
  = Some (if uc && cache_writable d
          then {| base_parts := base_parts d; entries := entries d;
                  cache_file := CacheSnapshot rows;
                  cache_writable := cache_writable d |}
          else d).
Proof.
  unfold extract_directory.
  destruct (trace_tasks d) as [ | t ts] eqn:Et; [discriminate | ].
  destruct (match mw with Some n => (n <=? 0)%Z | None => false end) eqn:Ew;
    [discriminate | ].
  destruct (collect (order (map (fun t0 => (t0, run_task t0)) (t :: ts))))
    as [metrics_list failed_count] eqn:Ec.
  destruct metrics_list as [ | m ms]; [discriminate | ].
  cbn. intros [= <-]. repeat split; discriminate.
Qed.

Lemma frame_rows_from_tasks (order : completion_order) (d : directory)
    (mw : option Z) (uc : bool) (rows : list TraceMetrics) :
  (forall l, Permutation (order l) l) ->
  result (extract_directory order d mw uc) = Frame rows ->
  forall m, In m rows ->
    exists t, In t (trace_tasks d) /\ process_single_trace t = Some m.
Proof.
  intros Hperm Hres m Hin.
  apply extract_frame in Hres as (_ & _ & -> & _).
  pose proof (proj1 (collect_order order (trace_tasks d) Hperm)) as Hp.
  apply (Permutation_in _ Hp) in Hin. unfold good_records in Hin.
  apply in_flat_map in Hin as (t & Ht & Hm). exists t. split; [assumption | ].
  unfold run_task in Hm. destruct (content t) eqn:Ec; cbn in Hm;
    try (destruct (process_single_trace t) as [m' | ];
         [destruct Hm as [<- | []]; reflexivity | destruct Hm]).
  destruct Hm.
Qed.

Lemma without_cache_absent (d : directory) :
  cache_file d = CacheAbsent -> without_cache d = d.
Proof. destruct d; cbn; now intros ->. Qed.

Lemma extract_without_cache (order : completion_order) (d : directory)
    (mw : option Z) (uc : bool) :
  let a := extract_directory order d mw uc in
  let b := extract_directory order (without_cache d) mw uc in
  result a = result b /\ submitted a = submitted b /\ warning a = warning b.
Proof.
  unfold extract_directory. rewrite trace_tasks_without_cache.
  destruct (trace_tasks d) as [ | t ts]; [now repeat split | ].
  destruct (match mw with Some n => (n <=? 0)%Z | None => false end);
    [now repeat split | ].
  destruct (collect _) as [[ | m ms] fc]; now repeat split.
Qed.





Lemma NoDup_map_inj {A B : Type} (f : A -> B) (l : list A) (a b : A) :
  NoDup (map f l) -> In a l -> In b l -> f a = f b -> a = b.
Proof.
  induction l as [ | x l IH]; intros Hnd Ha Hb E; [destruct Ha | ].
  cbn [map] in Hnd. apply NoDup_cons_iff in Hnd as [Hx Hnd].
  destruct Ha as [-> | Ha], Hb as [-> | Hb]; auto.
  - exfalso. apply Hx. rewrite E. now apply in_map.
  - exfalso. apply Hx. rewrite <- E. now apply in_map.
Qed.

Lemma submitted_tasks (order : completion_order) (d : directory)
    (mw : option Z) (uc : bool) (t : task) :
  In t (submitted (load_traces_with_batches_parallel order (Some d) mw uc)) ->
  In t (trace_tasks d).
Proof.
  unfold load_traces_with_batches_parallel, extract_directory.
  destruct uc, (cache_file d); cbn; try (intros []);
    destruct (trace_tasks d) as [ | t0 ts]; cbn; try (intros []);
    destruct (match mw with Some n => (n <=? 0)%Z | None => false end);
    cbn; try (intros []);
    destruct (collect _) as [[ | m ms] fc]; cbn; auto.
Qed.








End LoaderFacts.

(* ------------------------------------------------------------------ *)
(** * Facts on the monitor without failures of the service *)
(* ------------------------------------------------------------------ *)


Module MonitorExtras.
Import Ascii String DeviceFarm MonitorStates DictFacts MonitorFacts.
Local Open Scope string_scope.

(** ** The registry as [register] builds it, duplicates included *)

Lemma keys_set_same_keys (d : dict run_info) (k : string) (v v' : run_info) :
  dict_get k d = Some v -> keys (dict_set k v' d) = keys d.
Proof.
  induction d as [ | [k0 v0] d IH]; cbn; [discriminate | ].
  destruct (String.eqb_spec k0 k) as [-> | NE]; cbn; [reflexivity | ].
  intros H. f_equal. now apply IH.
Qed.

Lemma register_last (arns : list string) :
  forall (idx : nat) (d : dict run_info) (k : string) (v : run_info),
    dict_get k (register idx arns d) = Some v ->
    (dict_get k d = Some v /\ ~ In k arns) \/
    (exists i, nth_error arns i = Some k /\ v = fresh_run (idx + i) 1 /\
               forall j, (i < j)%nat -> nth_error arns j <> Some k).
Proof.
  induction arns as [ | a rest IH]; intros idx d k v H; [left; now split | ].
  cbn [register] in H. apply IH in H as [[H Hnot] | (i & Hi & -> & Hlast)].
  - rewrite dict_get_set in H. destruct (String.eqb_spec a k) as [-> | NE].
    + injection H as <-. right. exists 0%nat. rewrite Nat.add_0_r.
      split; [reflexivity | ]. split; [reflexivity | ].
      intros [ | j] Hj; [lia | ]. cbn. intros E. apply Hnot.
      eapply nth_error_In, E.
    + left. split; [assumption | ]. intros [E | Hin]; contradiction.
  - right. exists (S i). split; [exact Hi | ].
    split; [f_equal; lia | ].
    intros [ | j] Hj; [lia | ]. cbn. apply Hlast. lia.
Qed.

Lemma register_keys (arns : list string) :
  forall (idx : nat) (d : dict run_info) (k : string),
    In k (keys (register idx arns d)) <-> In k (keys d) \/ In k arns.
Proof.
  induction arns as [ | a rest IH]; intros idx d k; cbn [register].
  - cbn. tauto.
  - rewrite IH, in_keys_set. cbn. intuition congruence.
Qed.

Section Waiting.

Variable env : services.
Variable req : request.

Hypothesis no_interrupt : forall t, keyboard_interrupt env t = false.
Hypothesis never_terminal :
  forall t a s, get_run env t a = Some s -> is_terminal s = false.

Lemma waiting_initial : waiting req (initial_state req).
Proof.
  split; [reflexivity | ]. split; [ | split; [reflexivity | constructor]].
  intros k v H. cbn [initial_state runs] in H.
  apply register_last in H as [[H _] | (i & _ & -> & _)];
    [discriminate | reflexivity].
Qed.

Lemma waiting_step (run_arn : string) (rest : list string) (st : state)
    (fl : flow) :
  waiting req st /\ incl (run_arn :: rest) (keys (runs st)) ->
  polled env req run_arn st fl ->
  holds (fun st' => waiting req st' /\ incl rest (keys (runs st')))
        (fun _ _ => False) fl.
Proof.
  intros [(Hk & Hc & Ht & He) Hincl] Hp.
  assert (Hrest : incl rest (keys (runs st)))
    by (intros a Ha; apply Hincl; now right).
  destruct Hp; cbn [holds];
    try match goal with
        | H : keyboard_interrupt env _ = true |- _ =>
            rewrite no_interrupt in H; discriminate
        | H : get_run env _ _ = Some ?s, H' : is_terminal ?s = true |- _ =>
            rewrite (never_terminal _ _ _ H) in H'; discriminate
        end.
  - (* the run is not in the registry *)
    assert (Hin : In run_arn (keys (runs st))) by (apply Hincl; now left).
    apply keys_dict_get in Hin as [v Hv]. congruence.
  - (* completed *)
    match goal with H : dict_get _ _ = Some _ |- _ => apply Hc in H end.
    congruence.
  - (* the query raised *)
    unfold waiting. state_simpl. repeat split; try assumption.
    constructor; [right; now eexists; eexists | assumption].
  - (* not terminal *)
    unfold waiting. state_simpl.
    match goal with
    | H : dict_get run_arn (runs st) = Some ?ri |- _ =>
        rewrite (keys_set_same_keys _ _ _ (observe ri s) H)
    end.
    repeat split; try assumption.
    + intros k v. rewrite dict_get_set.
      destruct (String.eqb_spec run_arn k) as [<- | NE]; [ | apply Hc].
      intros [= <-]. cbn. assumption.
    + constructor; [right; now eexists; eexists | assumption].
Qed.

Lemma waiting_not_completed (st : state) :
  initial_run_arns req <> [] -> waiting req st ->
  forallb completed (values (runs st)) = false.
Proof.
  intros Hne (Hk & Hc & _).
  destruct (runs st) as [ | [k v] d] eqn:E.
  - exfalso. destruct (initial_run_arns req) as [ | a l] eqn:Ea;
      [congruence | ].
    assert (Hin : In a (keys (runs (initial_state req)))).
    { unfold initial_state. cbn [runs]. apply register_keys. right.
      rewrite Ea. now left. }
    rewrite <- Hk in Hin. destruct Hin.
  - cbn. rewrite (Hc k v); [reflexivity | ]. cbn. now rewrite String.eqb_refl.
Qed.

Lemma monitor_waits (n : nat) :
  initial_run_arns req <> [] ->
  holds (waiting req) (fun _ _ => False) (monitor_runs_parallel_with_retry env req n).
Proof.
  intros Hne. unfold monitor_runs_parallel_with_retry.
  apply run_cycles_holds
    with (Inv := fun snapshot st => waiting req st /\ incl snapshot (keys (runs st))).
  - intros run_arn rest st fl. apply waiting_step.
  - intros st H. split; [assumption | apply incl_refl].
  - intros st H Hall. rewrite (waiting_not_completed st Hne H) in Hall.
    discriminate.
  - intros st _ Hi. rewrite no_interrupt in Hi. discriminate.
  - intros st [(Hk & Hc & Ht & He) _] _. unfold waiting. state_simpl.
    repeat split; try assumption. constructor; [now left | assumption].
  - apply waiting_initial.
Qed.

End Waiting.

(** ** Batch indexes stay below the number of batches *)

Lemma Forall_dict_set {V : Type} (P : string * V -> Prop) (d : dict V)
    (k : string) (v : V) :
  Forall P d -> P (k, v) -> Forall P (dict_set k v d).
Proof.
  intros H Hv. induction H as [ | [k0 v0] d H0 H IH]; cbn.
  - now constructor.
  - destruct (k0 =? k); constructor; assumption.
Qed.

Lemma Forall_dict_del {V : Type} (P : string * V -> Prop) (d : dict V)
    (k : string) :
  Forall P d -> Forall P (dict_del k d).
Proof.
  intros H. induction H as [ | [k0 v0] d H0 H IH]; cbn; [constructor | ].
  destruct (k0 =? k); [assumption | now constructor].
Qed.

Lemma Forall_register (P : string * run_info -> Prop) (arns : list string) :
  forall (idx : nat) (d : dict run_info),
    Forall P d ->
    (forall i a, nth_error arns i = Some a -> P (a, fresh_run (idx + i) 1)) ->
    Forall P (register idx arns d).
Proof.
  induction arns as [ | a rest IH]; intros idx d Hd Hnew; [exact Hd | ].
  cbn [register]. apply IH.
  - apply Forall_dict_set; [assumption | ].
    specialize (Hnew 0%nat a eq_refl). now rewrite Nat.add_0_r in Hnew.
  - intros i b Hi. specialize (Hnew (S i) b Hi).
    now replace (S idx + i)%nat with (idx + S i)%nat by lia.
Qed.

Section Indexes.

Variable env : services.
Variable req : request.

Lemma indexed_get (st : state) (k : string) (v : run_info) :
  indexed req st -> dict_get k (runs st) = Some v ->
  (batch_idx v < List.length (initial_run_arns req))%nat.
Proof.
  intros H Hg. apply dict_get_in in Hg. unfold indexed in H.
  rewrite Forall_forall in H. exact (H _ Hg).
Qed.

Lemma indexed_initial : indexed req (initial_state req).
Proof.
  unfold indexed, initial_state. cbn [runs]. apply Forall_register.
  - constructor.
  - intros i a Hi. cbn. apply nth_error_Some. congruence.
Qed.

Lemma indexed_step (run_arn : string) (st : state) (fl : flow) :
  indexed req st -> polled env req run_arn st fl -> indexed req (state_of fl).
Proof.
  intros H Hp.
  destruct Hp; unfold indexed; state_simpl; try assumption;
    repeat first [ apply Forall_dict_set | apply Forall_dict_del ];
    try assumption; cbn [snd batch_idx observe mark_completed fresh_run];
    eapply indexed_get; eassumption.
Qed.

Lemma monitor_indexed (n : nat) :
  indexed req (state_of (monitor_runs_parallel_with_retry env req n)).
Proof.
  enough (H : holds (indexed req) (fun _ st => indexed req st)
                (monitor_runs_parallel_with_retry env req n)).
  { destruct (monitor_runs_parallel_with_retry env req n); exact H. }
  unfold monitor_runs_parallel_with_retry.
  apply run_cycles_holds with (Inv := fun _ st => indexed req st); auto.
  - intros run_arn rest st fl Hi Hp.
    pose proof (indexed_step run_arn st fl Hi Hp) as Hs.
    destruct fl; exact Hs.
  - apply indexed_initial.
Qed.

End Indexes.

End MonitorExtras.

Module MonitorExtraClaims.
Import Ascii String DeviceFarm MonitorStates DictFacts MonitorFacts MonitorExtras
       MonitorExamples.
Local Open Scope string_scope.





End MonitorExtraClaims.

(* ------------------------------------------------------------------ *)
(** * Facts on texts *)
(* ------------------------------------------------------------------ *)


Module TextFacts.
Import Ascii String PyText.
Local Open Scope string_scope.

Lemma prefix_nil (s : string) : prefix "" s = true.
Proof. now destruct s. Qed.

Lemma prefix_cons (a c : ascii) (p s : string) :
  prefix (String a p) (String c s)
  = if ascii_dec a c then prefix p s else false.
Proof. reflexivity. Qed.

Lemma prefix_refl (s t : string) : prefix s (s ++ t) = true.
Proof.
  induction s as [ | c s IH]; [apply prefix_nil | ].
  cbn [append]. rewrite prefix_cons.
  destruct (ascii_dec c c); [assumption | contradiction].
Qed.

Lemma prefix_split (p s : string) :
  prefix p s = true -> exists r, s = p ++ r.
Proof.
  revert s. induction p as [ | a p IH]; intros s H; [now exists s | ].
  destruct s as [ | c s]; [discriminate | ]. rewrite prefix_cons in H.
  destruct (ascii_dec a c) as [<- | ]; [ | discriminate].
  destruct (IH s H) as [r ->]. now exists r.
Qed.

Lemma length_app (s t : string) : length (s ++ t) = (length s + length t)%nat.
Proof. induction s as [ | c s IH]; cbn; [reflexivity | now rewrite IH]. Qed.

Lemma app_assoc (s t u : string) : (s ++ t) ++ u = s ++ (t ++ u).
Proof. induction s as [ | c s IH]; cbn; [reflexivity | now rewrite IH]. Qed.

Lemma app_nil_r (s : string) : s ++ "" = s.
Proof. induction s as [ | c s IH]; cbn; [reflexivity | now rewrite IH]. Qed.

(** ** Single characters *)

Lemma contains_char_cons (a c : ascii) (s : string) :
  contains (String a "") (String c s)
  = (if ascii_dec a c then true else false) || contains (String a "") s.
Proof.
  cbn [contains]. rewrite prefix_cons, prefix_nil.
  now destruct (ascii_dec a c).
Qed.

Lemma contains_char_app (a : ascii) (s t : string) :
  contains (String a "") (s ++ t)
  = contains (String a "") s || contains (String a "") t.
Proof.
  induction s as [ | c s IH].
  - cbn [append]. now destruct (contains (String a "") t).
  - change (String c s ++ t) with (String c (s ++ t)).
    rewrite !contains_char_cons, IH. now rewrite orb_assoc.
Qed.

Lemma replace_char_cons (a c : ascii) (new s : string) :
  replace (String a "") new (String c s)
  = if ascii_dec a c then new ++ replace (String a "") new s
    else String c (replace (String a "") new s).
Proof.
  unfold replace. cbn [replace_from length Nat.sub].
  rewrite prefix_cons, prefix_nil. now destruct (ascii_dec a c).
Qed.

Lemma replace_char_nil (a : ascii) (new : string) :
  replace (String a "") new "" = "".
Proof. reflexivity. Qed.

(** The replaced character is gone, unless the replacement brings it. *)
Lemma replace_char_gone (a : ascii) (new s : string) :
  contains (String a "") new = false ->
  contains (String a "") (replace (String a "") new s) = false.
Proof.
  intros Hn. induction s as [ | c s IH]; [reflexivity | ].
  rewrite replace_char_cons. destruct (ascii_dec a c) as [E | NE].
  - now rewrite contains_char_app, Hn, IH.
  - rewrite contains_char_cons, IH. now destruct (ascii_dec a c).
Qed.

(** No other character comes in. *)
Lemma replace_char_keeps_out (a b : ascii) (new s : string) :
  contains (String b "") new = false ->
  contains (String b "") s = false ->
  contains (String b "") (replace (String a "") new s) = false.
Proof.
  intros Hn. induction s as [ | c s IH]; [reflexivity | ].
  rewrite contains_char_cons. intros H. apply orb_false_iff in H as [Hc Hs].
  rewrite replace_char_cons. destruct (ascii_dec a c) as [E | NE].
  - now rewrite contains_char_app, Hn, IH.
  - now rewrite contains_char_cons, Hc, IH.
Qed.

Lemma replace_char_absent (a : ascii) (new s : string) :
  contains (String a "") s = false -> replace (String a "") new s = s.
Proof.
  induction s as [ | c s IH]; [reflexivity | ].
  rewrite contains_char_cons. intros H. apply orb_false_iff in H as [Hc Hs].
  rewrite replace_char_cons. destruct (ascii_dec a c); [discriminate | ].
  now rewrite IH.
Qed.

Lemma replace_char_length (a b : ascii) (s : string) :
  length (replace (String a "") (String b "") s) = length s.
Proof.
  induction s as [ | c s IH]; [reflexivity | ].
  rewrite replace_char_cons.
  destruct (ascii_dec a c); cbn [append length]; now rewrite IH.
Qed.

(** ** Slices *)

Lemma substring_all (s : string) (m : nat) :
  (length s <= m)%nat -> substring 0 m s = s.
Proof.
  revert m. induction s as [ | c s IH]; intros m H.
  - now destruct m.
  - destruct m as [ | m]; [cbn in H; lia | ]. cbn. rewrite IH; [reflexivity | ].
    cbn in H. lia.
Qed.

Lemma substring_length (s : string) (m : nat) :
  (m <= length s)%nat -> length (substring 0 m s) = m.
Proof.
  revert m. induction s as [ | c s IH]; intros m H.
  - cbn in H. now replace m with 0%nat by lia.
  - destruct m as [ | m]; [reflexivity | ]. cbn. rewrite IH; [reflexivity | ].
    cbn in H. lia.
Qed.

Lemma substring_app_head (s t : string) (m : nat) :
  (m <= length s)%nat -> substring 0 m (s ++ t) = substring 0 m s.
Proof.
  revert m. induction s as [ | c s IH]; intros m H.
  - cbn in H. replace m with 0%nat by lia. now destruct t.
  - destruct m as [ | m]; [reflexivity | ]. cbn. rewrite IH; [reflexivity | ].
    cbn in H. lia.
Qed.

Lemma substring_length_min (s : string) :
  forall k m, length (substring k m s) = Nat.min m (length s - k).
Proof.
  induction s as [ | c s IH]; intros k m.
  - destruct k, m; cbn; lia.
  - destruct k as [ | k].
    + destruct m as [ | m]; [reflexivity | ].
      cbn [substring length]. rewrite IH. lia.
    + cbn [substring length]. rewrite IH. lia.
Qed.

Lemma substring_from_0 (s : string) : substring 0 (length s) s = s.
Proof. apply substring_all. lia. Qed.

Lemma slice_to_prefix (s : string) (j : Z) :
  (0 <= j)%Z -> slice_to j s = substring 0 (Z.to_nat j) s.
Proof.
  intros Hj. unfold slice_to, slice_index.
  destruct (Z.ltb_spec j 0) as [ | _]; [lia | ].
  destruct (Nat.le_ge_cases (length s) (Z.to_nat j)) as [Hle | Hge].
  - rewrite Nat.min_l by assumption.
    now rewrite substring_from_0, substring_all.
  - now rewrite Nat.min_r.
Qed.

End TextFacts.

(* ------------------------------------------------------------------ *)
(** * Facts on names *)
(* ------------------------------------------------------------------ *)


Module NamingFacts.
Import Ascii String PyStr PyText Naming TextFacts TraceProcessor TraceTree
       LoaderFacts.
Local Open Scope string_scope.

Lemma branch_sanitized_clean (b : string) :
  contains "/" (branch_sanitized b) = false /\
  contains "\" (branch_sanitized b) = false.
Proof.
  unfold branch_sanitized. split.
  - apply replace_char_keeps_out; [reflexivity | ].
    now apply replace_char_gone.
  - now apply replace_char_gone.
Qed.

Lemma branch_sanitized_fixed (b : string) :
  contains "/" b = false -> contains "\" b = false -> branch_sanitized b = b.
Proof.
  intros H1 H2. unfold branch_sanitized.
  rewrite (replace_char_absent _ _ _ H1). now apply replace_char_absent.
Qed.

Lemma commit_short_prefix (c : string) :
  commit_short c = substring 0 8 c.
Proof.
  unfold commit_short. destruct (Nat.leb_spec 8 (length c)) as [H | H].
  - now rewrite slice_to_prefix.
  - symmetry. apply substring_all. lia.
Qed.

Lemma startswith_arn_kept (a : ascii) (s : string) :
  contains (String a "") "arn" = false ->
  startswith "arn" (replace (String a "") "_" s) = startswith "arn" s.
Proof.
  intros Ha. unfold startswith.
  assert (Hc : forall c, In c (list_ascii_of_string "arn") ->
                         exists n : a <> c, ascii_dec a c = right n).
  { intros c Hc. destruct (ascii_dec a c) as [<- | n]; [ | now exists n].
    cbn in Hc. destruct Hc as [<- | [<- | [<- | []]]]; discriminate. }
  assert (Hstep : forall c t, replace (String a "") "_" (String c t)
                  = if ascii_dec a c then "_" ++ replace (String a "") "_" t
                    else String c (replace (String a "") "_" t))
    by (intros; apply replace_char_cons).
  destruct s as [ | c1 s]; [reflexivity | ]. rewrite Hstep.
  destruct (ascii_dec a c1) as [<- | N1].
  - cbn [append]. rewrite !prefix_cons.
    destruct (ascii_dec "a" "_"); [discriminate | ].
    destruct (ascii_dec "a" a) as [<- | ]; [discriminate | reflexivity].
  - rewrite !prefix_cons. destruct (ascii_dec "a" c1); [ | reflexivity].
    destruct s as [ | c2 s]; [reflexivity | ]. rewrite Hstep.
    destruct (ascii_dec a c2) as [<- | N2].
    + cbn [append]. rewrite !prefix_cons.
      destruct (ascii_dec "r" "_"); [discriminate | ].
      destruct (ascii_dec "r" a) as [<- | ]; [discriminate | reflexivity].
    + rewrite !prefix_cons. destruct (ascii_dec "r" c2); [ | reflexivity].
      destruct s as [ | c3 s]; [reflexivity | ]. rewrite Hstep.
      destruct (ascii_dec a c3) as [<- | N3].
      * cbn [append]. rewrite !prefix_cons.
        destruct (ascii_dec "n" "_"); [discriminate | ].
        destruct (ascii_dec "n" a) as [<- | ]; [discriminate | reflexivity].
      * rewrite !prefix_cons. destruct (ascii_dec "n" c3); [ | reflexivity].
        now rewrite !prefix_nil.
Qed.









End NamingFacts.

(* ------------------------------------------------------------------ *)
(** * Facts on the commands *)
(* ------------------------------------------------------------------ *)


Module BatchPlannerExtras.
Import PyNum BatchPlanner.

Lemma num_batches_nonpositive (t b nb : Z) :
  t <= 0 -> 0 < b -> num_batches t b = Some nb -> nb <= 0.
Proof.
  intros Ht Hb. unfold num_batches, int_true_divide.
  destruct (Z.eqb_spec b 0) as [ | _]; [lia | ].
  destruct (Z.eqb_spec t 0) as [-> | NE].
  - cbn. intros [= <-]. lia.
  - unfold round_quot.
    set (e := quot_exponent (Z.abs t) (Z.abs b)).
    set (x := Z.max (e - 52) (-1074)).
    set (num := Z.abs t * 2 ^ Z.max 0 (- x)).
    set (den := Z.abs b * 2 ^ Z.max 0 x).
    assert (Hden : 0 < den).
    { unfold den. apply Z.mul_pos_pos; [lia | ].
      apply Z.pow_pos_nonneg; lia. }
    assert (Hnum : 0 <= num).
    { unfold num. apply Z.mul_nonneg_nonneg; [lia | ].
      apply Z.pow_nonneg. lia. }
    assert (Hq : 0 <= num / den) by (apply Z.div_pos; assumption).
    set (m := if 2 * (num mod den) <? den then num / den
              else if den <? 2 * (num mod den) then num / den + 1
                   else if Z.even (num / den) then num / den
                        else num / den + 1).
    assert (Hm : 0 <= m).
    { unfold m. destruct (2 * (num mod den) <? den); [assumption | ].
      destruct (den <? 2 * (num mod den)); [lia | ].
      destruct (Z.even (num / den)); lia. }
    destruct ((0 <=? x) && (2 ^ 1024 <=? m * 2 ^ x)); [discriminate | ].
    cbn [option_map]. intros [= <-]. unfold math_ceil.
    replace (Z.sgn t * Z.sgn b * m) with (- m) by nia.
    destruct (Z.leb_spec 0 x).
    + assert (0 <= 2 ^ x) by (apply Z.pow_nonneg; lia). nia.
    + rewrite Z.opp_involutive.
      assert (0 <= m / 2 ^ (- x)).
      { apply Z.div_pos; [assumption | apply Z.pow_pos_nonneg; lia]. }
      lia.
Qed.

End BatchPlannerExtras.

Module OrchestrationFacts.
Import Ascii String PyNum PyStr PyText Naming BatchPlanner DeviceFarm
       Orchestration BatchPlannerExtras
       OrchestrationLog.
Local Open Scope string_scope.

(** ** Reading the record of calls *)

Lemma spec_rounds_app (project_arn : string) (later older : list call) :
  spec_rounds project_arn later -> spec_rounds project_arn older ->
  spec_rounds project_arn (later ++ older).
Proof.
  intros Hl Ho. induction Hl; [exact Ho | ]. cbn. now constructor.
Qed.

Lemma spec_rounds_written (project_arn : string) (new : list call) :
  spec_rounds project_arn new ->
  forall after before path contents,
    new = (after ++ WriteSpec path contents :: before)%list ->
    exists r after',
      after = (after' ++ [Unlink path;
                          UploadApk project_arn path
                            "INSTRUMENTATION_TEST_SPEC" r])%list /\
      spec_rounds project_arn after' /\ spec_rounds project_arn before.
Proof.
  induction 1 as [ | p c r older Ho IH]; intros after before path contents E.
  - now destruct after.
  - destruct after as [ | a1 after]; [discriminate | ].
    destruct after as [ | a2 after]; [discriminate | ].
    injection E as <- <- E.
    destruct after as [ | a3 after].
    + injection E as <- <- <-. exists r, []. repeat split; [constructor | assumption].
    + injection E as <- E. apply IH in E as (r' & after' & -> & Ha & Hb).
      exists r', (Unlink p :: UploadApk project_arn p "INSTRUMENTATION_TEST_SPEC" r
                         :: WriteSpec p c :: after').
      split; [reflexivity | ]. split; [now constructor | assumption].
Qed.

Lemma written_app (later older : list call) :
  written (later ++ older) = (written older ++ written later)%list.
Proof.
  induction later as [ | c later IH]; cbn [app written].
  - now rewrite List.app_nil_r.
  - destruct c; try assumption. now rewrite IH, List.app_assoc.
Qed.

Lemma spec_rounds_length (project_arn : string) (new : list call) :
  spec_rounds project_arn new ->
  List.length new = (3 * List.length (written new))%nat.
Proof.
  induction 1 as [ | p c r older Ho IH]; [reflexivity | ].
  cbn [written List.length]. rewrite length_app. cbn [List.length]. lia.
Qed.

Lemma spec_rounds_uploaded (project_arn : string) (new : list call) :
  spec_rounds project_arn new ->
  Forall (fun c => is_upload c = true -> spec_uploaded_ok c = true) new ->
  List.length (filter spec_uploaded_ok new) = List.length (written new).
Proof.
  induction 1 as [ | p c r older Ho IH]; [reflexivity | ].
  intros H. inversion H as [ | ? ? _ H1]; subst.
  inversion H1 as [ | ? ? Hu H2]; subst. inversion H2 as [ | ? ? _ H3]; subst.
  specialize (Hu eq_refl). cbn [filter].
  change (spec_uploaded_ok (Unlink p)) with false.
  change (spec_uploaded_ok (WriteSpec p c)) with false.
  rewrite Hu. cbn [written List.length].
  rewrite length_app, IH by assumption. cbn [List.length]. lia.
Qed.

Lemma spec_rounds_no_schedule (project_arn : string) (new : list call) :
  spec_rounds project_arn new ->
  Forall (fun c => is_schedule c = false /\ is_monitor c = false) new.
Proof. induction 1; repeat constructor; assumption. Qed.

Section Loops.

Variable w : world.

Ltac run_script :=
  unfold calculate_batches, write_spec in *;
  unfold bind, record, do_upload, do_schedule, sys_exit, ret, raise in *.

Ltac ups_tac H :=
  repeat (apply Forall_cons; [apply H; discriminate | ]); apply Forall_nil.

Lemma names_from_length base nb idx count :
  List.length (names_from base nb idx count) = count.
Proof.
  revert idx. induction count as [ | n IH]; intros idx; cbn;
    [reflexivity | now rewrite IH].
Qed.

Lemma prepare_specs_log (project_arn branch_s commit_s name test_selector
    template_content base_name : string) (num_batches : Z)
    (batches : list Z) :
  forall (batch_idx : Z) (test_spec_arns run_names : list string)
         (log : list call),
    exists new,
      snd (prepare_specs w project_arn branch_s commit_s name test_selector
             template_content base_name num_batches batch_idx batches
             test_spec_arns run_names log) = (new ++ log)%list /\
      spec_rounds project_arn new /\
      (exists k,
         (k <= List.length batches)%nat /\
         written new
         = planned_specs branch_s commit_s name template_content
             test_selector batch_idx (firstn k batches)) /\
      match fst (prepare_specs w project_arn branch_s commit_s name
                   test_selector template_content base_name num_batches
                   batch_idx batches test_spec_arns run_names log) with
      | Done (specs, names) =>
          written new
          = planned_specs branch_s commit_s name template_content
              test_selector batch_idx batches /\
          Forall (fun c => is_upload c = true -> spec_uploaded_ok c = true)
                 new /\
          exists arns,
            specs = (test_spec_arns ++ arns)%list /\
            List.length arns = List.length batches /\
            Forall (fun a => a <> "") arns /\
            names = (run_names
                     ++ names_from base_name num_batches batch_idx
                          (List.length batches))%list
      | SysExit code =>
          code = 1%Z /\
          exists path r older,
            new = Unlink path
                  :: UploadApk project_arn path "INSTRUMENTATION_TEST_SPEC" r
                  :: older /\
            (r = None \/ r = Some "")
      | Raised e => e = CannotWrite
      | Monitoring => False
      end.
Proof.
  induction batches as [ | b rest IH]; intros idx specs names log.
  - exists []. cbn. split; [reflexivity | ]. split; [constructor | ].
    split; [exists 0%nat; now split | ].
    split; [reflexivity | ]. split; [constructor | ].
    exists []. rewrite !List.app_nil_r. repeat split. constructor.
  - cbn [prepare_specs]. run_script.
    destruct (can_write w (test_spec_path branch_s commit_s name idx)) eqn:Hw.
    2:{ exists []. cbn. split; [reflexivity | ]. split; [constructor | ].
        split; [exists 0%nat; split; [lia | reflexivity] | reflexivity]. }
    cbn [fst snd].
    set (path := test_spec_path branch_s commit_s name idx).
    set (contents := spec_contents template_content test_selector b).
    destruct (upload_apk w (List.length (WriteSpec path contents :: log))
                project_arn path "INSTRUMENTATION_TEST_SPEC")
      as [arn | ] eqn:Hu.
    + destruct (String.eqb_spec arn "") as [-> | NE].
      * eexists [_; _; _]. cbn. split; [reflexivity | ].
        split; [repeat constructor | ].
        split; [exists 1%nat; split; [lia | reflexivity] | ].
        split; [reflexivity | ]. do 3 eexists. split; [reflexivity | ].
        now right.
      * cbn [fst snd].
        match goal with
        | |- context [prepare_specs w _ _ _ _ _ _ _ _ ?i rest ?s ?n ?l] =>
            destruct (IH i s n l) as (new & Hlog & Hr & (k & Hk & Hwr) & Hout)
        end.
        exists (new ++ [Unlink path;
                        UploadApk project_arn path "INSTRUMENTATION_TEST_SPEC"
                          (Some arn);
                        WriteSpec path contents])%list.
        split; [now rewrite Hlog, <- List.app_assoc | ].
        split; [apply spec_rounds_app; [assumption | repeat constructor] | ].
        split.
        { exists (S k). split; [cbn; lia | ].
          rewrite written_app, Hwr. reflexivity. }
        destruct (fst (prepare_specs w project_arn branch_s commit_s name
                         test_selector template_content base_name num_batches
                         (idx + 1) rest (specs ++ [arn])
                         (names ++ [batch_run_name base_name idx num_batches])
                         (Unlink path
                          :: UploadApk project_arn path
                               "INSTRUMENTATION_TEST_SPEC" (Some arn)
                          :: WriteSpec path contents :: log)))
          as [[specs' names'] | code | e | ].
        -- destruct Hout as (Hall & Hok & arns & -> & Hlen & Hne & ->).
           split; [rewrite written_app, Hall; reflexivity | ].
           split.
           { apply Forall_app. split; [assumption | ].
             repeat constructor; cbn; try discriminate.
             intros _. now destruct (String.eqb_spec arn ""). }
           exists (arn :: arns). rewrite <- !List.app_assoc. cbn.
           repeat split; try (f_equal; assumption). now constructor.
        -- destruct Hout as (-> & p & r & older & -> & Hr').
           split; [reflexivity | ]. exists p, r. eexists.
           split; [reflexivity | assumption].
        -- assumption.
        -- assumption.
    + eexists [_; _; _]. cbn. split; [reflexivity | ].
      split; [repeat constructor | ].
      split; [exists 1%nat; split; [lia | reflexivity] | ].
      split; [reflexivity | ]. do 3 eexists. split; [reflexivity | ].
      now left.
Qed.

Lemma schedule_calls_ok app pkg cls specs names indexes arns :
  Forall (fun a => a <> "") arns ->
  Forall (fun c => scheduled_ok c = true)
         (schedule_calls app pkg cls specs names indexes arns).
Proof.
  intros H. revert indexes. induction H as [ | a arns Ha H IH];
    intros [ | i indexes]; cbn; constructor; auto.
  cbn. now destruct (String.eqb_spec a "").
Qed.

Lemma schedule_calls_length app pkg cls specs names indexes arns :
  List.length arns = List.length indexes ->
  List.length (schedule_calls app pkg cls specs names indexes arns)
  = List.length indexes.
Proof.
  revert arns. induction indexes as [ | i indexes IH]; intros [ | a arns] H;
    cbn in *; try lia. now rewrite IH by lia.
Qed.

Lemma schedule_batches_log (app_arn test_package_arn class_name : string)
    (test_spec_arns run_names : list string) (indexes : list Z) :
  (forall i, In i indexes ->
     (Z.to_nat i < List.length test_spec_arns)%nat /\
     (Z.to_nat i < List.length run_names)%nat) ->
  forall (initial_run_arns : list string) (log : list call),
    exists new,
      snd (schedule_batches w app_arn test_package_arn class_name
             test_spec_arns run_names indexes initial_run_arns log)
      = (new ++ log)%list /\
      match fst (schedule_batches w app_arn test_package_arn class_name
                   test_spec_arns run_names indexes initial_run_arns log) with
      | Done arns =>
          exists added,
            arns = (initial_run_arns ++ added)%list /\
            List.length added = List.length indexes /\
            Forall (fun a => a <> "") added /\
            new = rev (schedule_calls app_arn test_package_arn class_name
                         test_spec_arns run_names indexes added)
      | SysExit code =>
          code = 1%Z /\
          exists spec rname r added,
            (r = None \/ r = Some "") /\
            (List.length added < List.length indexes)%nat /\
            Forall (fun a => a <> "") added /\
            new = ScheduleRun app_arn test_package_arn spec class_name rname r
                  :: rev (schedule_calls app_arn test_package_arn class_name
                            test_spec_arns run_names indexes added)
      | Raised _ => False
      | Monitoring => False
      end.
Proof.
  induction indexes as [ | i rest IH]; intros Hidx arns log.
  - exists []. cbn. split; [reflexivity | ]. exists [].
    rewrite List.app_nil_r. repeat split. constructor.
  - cbn [schedule_batches].
    destruct (Hidx i (or_introl eq_refl)) as [Hs Hn].
    destruct (nth_error test_spec_arns (Z.to_nat i)) as [spec | ] eqn:Es;
      [ | apply nth_error_None in Es; lia].
    destruct (nth_error run_names (Z.to_nat i)) as [rname | ] eqn:En;
      [ | apply nth_error_None in En; lia].
    assert (Es' : nth (Z.to_nat i) test_spec_arns "" = spec)
      by now apply nth_error_nth.
    assert (En' : nth (Z.to_nat i) run_names "" = rname)
      by now apply nth_error_nth.
    run_script.
    destruct (schedule_test_run w (List.length log) app_arn test_package_arn
                spec class_name rname) as [arn | ] eqn:Hr.
    + destruct (String.eqb_spec arn "") as [-> | NE].
      * eexists [_]. cbn. split; [reflexivity | ]. split; [reflexivity | ].
        exists spec, rname, (Some ""), []. cbn.
        repeat split; [now right | lia | constructor].
      * cbn [fst snd].
        assert (Hidx' : forall j, In j rest ->
                  (Z.to_nat j < List.length test_spec_arns)%nat /\
                  (Z.to_nat j < List.length run_names)%nat)
          by (intros j Hj; apply Hidx; now right).
        match goal with
        | |- context [schedule_batches w _ _ _ _ _ rest ?a ?l] =>
            destruct (IH Hidx' a l) as (new & Hlog & Hout)
        end.
        exists (new ++ [ScheduleRun app_arn test_package_arn spec class_name
                          rname (Some arn)])%list.
        split; [now rewrite Hlog, <- List.app_assoc | ].
        destruct (fst (schedule_batches w app_arn test_package_arn class_name
                         test_spec_arns run_names rest (arns ++ [arn])
                         (ScheduleRun app_arn test_package_arn spec class_name
                            rname (Some arn) :: log)))
          as [arns' | code | e | ].
        -- destruct Hout as (added & -> & Hlen & Hne & ->).
           exists (arn :: added). rewrite <- List.app_assoc. cbn.
           rewrite Es', En'.
           repeat split; try (f_equal; assumption). now constructor.
        -- destruct Hout as (-> & spec' & rname' & r & added & Hr' & Hlen
                             & Hne & ->).
           split; [reflexivity | ].
           exists spec', rname', r, (arn :: added). cbn.
           rewrite Es', En'.
           repeat split; [assumption | lia | now constructor].
        -- assumption.
        -- assumption.
    + eexists [_]. cbn. split; [reflexivity | ]. split; [reflexivity | ].
      exists spec, rname, None, []. cbn.
      repeat split; [now left | lia | constructor].
Qed.

Lemma range_index (n i : Z) :
  In i (range n) -> (Z.to_nat i < Z.to_nat n)%nat.
Proof.
  unfold range. rewrite in_map_iff. intros (k & <- & Hk).
  apply in_seq in Hk. lia.
Qed.

Lemma range_length (n : Z) : List.length (range n) = Z.to_nat n.
Proof. unfold range. now rewrite length_map, length_seq. Qed.

Lemma planned_specs_length bs cs name tmpl sel idx batches :
  List.length (planned_specs bs cs name tmpl sel idx batches)
  = List.length batches.
Proof.
  revert idx. induction batches as [ | b rest IH]; intros idx; cbn;
    [reflexivity | now rewrite IH].
Qed.

Lemma upload_and_test_runs (env : services) (fuel : nat)
    (branch commit project_arn device_pool_arn name : string)
    (run_name : option string) (num_iterations : Z) :
  upload_and_test_run w env fuel branch commit project_arn name num_iterations
    (fst (non_interactive_upload_and_test w env fuel branch commit project_arn
            device_pool_arn name run_name num_iterations []))
    (snd (non_interactive_upload_and_test w env fuel branch commit project_arn
            device_pool_arn name run_name num_iterations [])).
Proof.
  unfold non_interactive_upload_and_test.
  assert (Early : forall prelude out,
            Forall preparation prelude ->
            (out = SysExit 1 \/ exists e, out = Raised e /\ e <> IndexError) ->
            upload_and_test_run w env fuel branch commit project_arn name
              num_iterations out prelude).
  { intros prelude out Hp Ho. exists [], prelude.
    split; [exact Hp | ]. split; [constructor | ].
    split; [now left | ]. left. now split. }
  assert (Hup : forall p path ty r,
            ty <> "INSTRUMENTATION_TEST_SPEC" ->
            preparation (UploadApk p path ty r))
    by (intros; left; now do 4 eexists).
  assert (Exit : forall prelude,
            Forall preparation prelude ->
            upload_and_test_run w env fuel branch commit project_arn name
              num_iterations (SysExit 1) prelude)
    by (intros; apply Early; [assumption | now left]).
  assert (Raise : forall prelude e,
            e <> IndexError -> Forall preparation prelude ->
            upload_and_test_run w env fuel branch commit project_arn name
              num_iterations (Raised e) prelude)
    by (intros; apply Early; [assumption | right; now eexists]).
  destruct (exists_path w _); cbn [negb];
    [ | apply Exit; constructor].
  destruct (exists_path w _); cbn [negb];
    [ | apply Exit; constructor].
  destruct (filter _ _) as [ | app_apk app_apks];
    [apply Exit; constructor | ].
  destruct (filter _ _) as [ | test_apk test_apks];
    [apply Exit; constructor | ].
  destruct (select_test _ _) as [selected_test | ] eqn:Esel;
    [ | apply Exit; constructor].
  destruct (test_execution_config w) as [[batch_size retries] | ] eqn:Ec;
    [ | apply Raise; [discriminate | constructor]].
  run_script.
  destruct (num_batches num_iterations batch_size) as [nb | ] eqn:En;
    [ | apply Raise; [discriminate | constructor]].
  cbn [fst snd List.length].
  destruct (upload_apk w 0 project_arn (apk_path app_apk) "ANDROID_APP")
    as [app_arn | ]; cbn [fst snd];
    [ | apply Exit; ups_tac Hup].
  destruct (String.eqb_spec app_arn "") as [-> | NEa]; cbn [fst snd];
    [apply Exit; ups_tac Hup | ].
  cbn [fst snd List.length].
  destruct (upload_apk w 1 project_arn (apk_path test_apk)
              "INSTRUMENTATION_TEST_PACKAGE") as [pkg_arn | ]; cbn [fst snd];
    [ | apply Exit; ups_tac Hup].
  destruct (String.eqb_spec pkg_arn "") as [-> | NEp]; cbn [fst snd];
    [apply Exit; ups_tac Hup | ].
  destruct (spec_template w) as [ | | template_content] eqn:Etmpl;
    cbn [fst snd];
    [apply Exit; ups_tac Hup
    | apply Raise; [discriminate | ups_tac Hup]
    | ].
  destruct (can_make_dirs w _) eqn:Hmk; cbn [fst snd];
    [ | apply Raise; [discriminate | ups_tac Hup]].
  cbn [fst snd].
  match goal with
  | |- context [prepare_specs w ?p ?b ?c ?n ?sel ?t ?base ?k ?i ?bs ?s0 ?n0 ?l] =>
      destruct (prepare_specs_log p b c n sel t base k bs i s0 n0 l)
        as (spec_part & Hlog & Hrounds & (k0 & Hk0 & Hwr) & Hout);
      destruct (prepare_specs w p b c n sel t base k i bs s0 n0 l)
        as [out1 log1] eqn:Eprep
  end.
  cbn [fst snd] in Hlog, Hout. subst log1.
  assert (Hprelude : Forall preparation
            [MakeDirs ["/workspace/output/" ++ branch_sanitized branch ++ "_"
                       ++ commit_short commit; "traces";
                       match get_device_pool w device_pool_arn with
                       | Some pool_name => pool_name
                       | None => pool_id device_pool_arn
                       end; name];
             UploadApk project_arn (apk_path test_apk)
               "INSTRUMENTATION_TEST_PACKAGE" (Some pkg_arn);
             UploadApk project_arn (apk_path app_apk) "ANDROID_APP"
               (Some app_arn)]).
  { apply Forall_cons; [right; now eexists | ]. ups_tac Hup. }
  rewrite (BatchPlannerFacts.batches_of_length nb num_iterations batch_size)
    in Hk0.
  assert (Hbound :
            spec_part = [] \/
            exists batch_size retries nb selected template k,
              test_execution_config w = Some (batch_size, retries) /\
              num_batches num_iterations batch_size = Some nb /\
              select_test name (get_available_tests (tests_file w))
              = Some selected /\
              spec_template w = FileContent template /\
              (k <= Z.to_nat nb)%nat /\
              written spec_part
              = planned_specs (branch_sanitized branch) (commit_short commit)
                  name template ("-e class " ++ full_name selected) 1
                  (firstn k (batches_of nb num_iterations batch_size))).
  { right. exists batch_size, retries, nb, selected_test, template_content, k0.
    repeat split; assumption. }
  destruct out1 as [[specs names] | code | e | ]; cbn [fst snd].
  2:{ destruct Hout as [-> _]. eexists spec_part, _.
      split; [exact Hprelude | ]. split; [exact Hrounds | ].
      split; [exact Hbound | ]. left.
      split; [reflexivity | now left]. }
  2:{ subst e. eexists spec_part, _.
      split; [exact Hprelude | ]. split; [exact Hrounds | ].
      split; [exact Hbound | ]. left.
      split; [reflexivity | ]. right. eexists. split; [reflexivity | ].
      discriminate. }
  2:{ destruct Hout. }
  destruct Hout as (Hall & Hok & arns & -> & Hlen & Hne & ->). cbn [app] in *.
  rewrite (BatchPlannerFacts.batches_of_length nb num_iterations batch_size)
    in Hlen.
  rewrite (BatchPlannerFacts.batches_of_length nb num_iterations batch_size).
  assert (Hcount : List.length (written spec_part) = Z.to_nat nb).
  { rewrite Hall, planned_specs_length.
    apply BatchPlannerFacts.batches_of_length. }
  set (names := names_from _ nb 1 (Z.to_nat nb)).
  assert (Hnames : List.length names = Z.to_nat nb)
    by apply names_from_length.
  match goal with
  | |- context [schedule_batches w ?a ?p ?c ?s ?n ?ix ?i0 ?l] =>
      assert (Hidx : forall i, In i ix ->
                (Z.to_nat i < List.length s)%nat /\
                (Z.to_nat i < List.length n)%nat)
        by (intros i Hi; apply range_index in Hi; lia);
      destruct (schedule_batches_log a p c s n ix Hidx i0 l)
        as (sched & Hlog2 & Hout2);
      destruct (schedule_batches w a p c s n ix i0 l) as [out2 log2] eqn:Esch
  end.
  cbn [fst snd] in Hlog2, Hout2. subst log2.
  destruct out2 as [run_arns | code | e | ]; cbn [fst snd].
  - destruct Hout2 as (added & -> & Hlen2 & Hne2 & ->). cbn [app].
    rewrite range_length in Hlen2.
    eexists spec_part, _. split; [exact Hprelude | ].
    split; [exact Hrounds | ]. split; [exact Hbound | ]. right.
    exists batch_size, retries, nb, arns, names, app_arn, pkg_arn.
    eexists. split; [exact Ec | ]. split; [exact En | ].
    split; [exact Hlen | ]. split; [exact Hnames | ].
    split; [exact Hcount | ]. split; [exact Hok | ]. right.
    exists added. eexists. split; [exact Hlen2 | ]. split; [exact Hne2 | ].
    cbn zeta. unfold after_monitor.
    destruct (monitor_runs_parallel_with_retry env _ fuel) as [st | e st];
      cbn [fst snd]; [now split | ].
    destruct (return_value e st) as [success traces] eqn:Erv.
    cbn [fst snd]. destruct success; cbn [negb fst snd];
      [ | now split].
    destruct traces; cbn [fst snd]; now split.
  - destruct Hout2 as (-> & spec & rname & r & added & Hr & Hlen2 & Hne2 & ->).
    rewrite range_length in Hlen2.
    eexists spec_part, _. split; [exact Hprelude | ].
    split; [exact Hrounds | ]. split; [exact Hbound | ]. right.
    exists batch_size, retries, nb, arns, names, app_arn, pkg_arn.
    eexists. split; [exact Ec | ]. split; [exact En | ].
    split; [exact Hlen | ]. split; [exact Hnames | ].
    split; [exact Hcount | ]. split; [exact Hok | ]. left.
    exists spec, rname, r, added. repeat split; assumption.
  - destruct Hout2.
  - destruct Hout2.
Qed.

Lemma scheduled_rounds_lengths project_arn app pkg cls done arns specs names :
  scheduled_rounds project_arn app pkg cls done arns specs names ->
  List.length specs = List.length arns /\
  List.length names = List.length arns /\
  List.length (filter scheduled_ok done) = List.length arns /\
  List.length (filter spec_uploaded_ok done) = List.length arns /\
  Forall (fun a => a <> "") arns /\
  Forall (fun c => is_schedule c = true -> scheduled_ok c = true) done /\
  Forall (fun c => is_monitor c = false) done.
Proof.
  induction 1 as [ | older arns specs names path contents spec_arn rname arn
                     H IH Hs Ha].
  - cbn. repeat split; constructor.
  - destruct IH as (H1 & H2 & H3 & H4 & H5 & H6 & H7).
    rewrite !length_app. cbn [List.length filter].
    change (scheduled_ok (Unlink path)) with false.
    change (scheduled_ok (WriteSpec path contents)) with false.
    change (spec_uploaded_ok (Unlink path)) with false.
    change (spec_uploaded_ok (WriteSpec path contents)) with false.
    assert (E1 : scheduled_ok
                   (ScheduleRun app pkg spec_arn cls rname (Some arn)) = true)
      by (cbn; now destruct (String.eqb_spec arn "")).
    assert (E2 : spec_uploaded_ok
                   (UploadApk project_arn path "INSTRUMENTATION_TEST_SPEC"
                      (Some spec_arn)) = true)
      by (cbn; now destruct (String.eqb_spec spec_arn "")).
    rewrite E1, E2.
    change (scheduled_ok (UploadApk project_arn path
                            "INSTRUMENTATION_TEST_SPEC" (Some spec_arn)))
      with false.
    change (spec_uploaded_ok
              (ScheduleRun app pkg spec_arn cls rname (Some arn))) with false.
    cbn [List.length].
    repeat split; try lia.
    + apply Forall_app. split; [assumption | now repeat constructor].
    + repeat constructor; try assumption; try discriminate. now intros _.
    + now repeat constructor.
Qed.

Lemma scheduled_rounds_nth project_arn app pkg cls done arns specs names :
  scheduled_rounds project_arn app pkg cls done arns specs names ->
  forall i, (i < List.length arns)%nat ->
    In (ScheduleRun app pkg (nth i specs "") cls (nth i names "")
          (Some (nth i arns ""))) done.
Proof.
  induction 1 as [ | older arns specs names path contents spec_arn rname arn
                     H IH Hs Ha]; intros i Hi; [cbn in Hi; lia | ].
  destruct (scheduled_rounds_lengths _ _ _ _ _ _ _ _ H) as (H1 & H2 & _).
  rewrite length_app in Hi. cbn [List.length] in Hi.
  destruct (Nat.eq_dec i (List.length arns)) as [-> | NE].
  - left.
    assert (E1 : nth (List.length arns) (specs ++ [spec_arn]) "" = spec_arn)
      by (rewrite <- H1; apply nth_middle).
    assert (E2 : nth (List.length arns) (names ++ [rname]) "" = rname)
      by (rewrite <- H2; apply nth_middle).
    now rewrite E1, E2, nth_middle.
  - do 4 right. rewrite !app_nth1 by lia. apply IH. lia.
Qed.

Lemma scheduled_rounds_kind project_arn app pkg cls done arns specs names :
  scheduled_rounds project_arn app pkg cls done arns specs names ->
  List.length (written done) = List.length arns /\
  Forall (fun c => batch_failed c = false) done.
Proof.
  induction 1 as [ | older arns specs names path contents spec_arn rname arn
                     H IH Hs Ha].
  - split; [reflexivity | constructor].
  - destruct IH as [H1 H2]. cbn [written]. rewrite !length_app, H1.
    split; [reflexivity | ].
    repeat constructor; try assumption; cbn.
    + now destruct (String.eqb_spec arn "").
    + now destruct (String.eqb_spec spec_arn "").
Qed.

Lemma preparation_not_failed (c : call) :
  preparation c -> batch_failed c = false /\ is_upload c = true \/
                   batch_failed c = false /\ is_upload c = false.
Proof.
  intros [(p & path & ty & r & -> & Hty) | (parts & ->)]; cbn.
  - left. split; [ | reflexivity].
    destruct (String.eqb_spec ty "INSTRUMENTATION_TEST_SPEC");
      [contradiction | reflexivity].
  - right. now split.
Qed.

Lemma schedule_each_log (project_arn app pkg branch_s commit_s name
    test_selector template_content cls : string) (num_batches : Z)
    (batches : list Z) :
  forall (batch_idx : Z) (arns specs names : list string)
         (done log0 : list call),
    scheduled_rounds project_arn app pkg cls done arns specs names ->
    exists partial done' arns' specs' names',
      snd (schedule_each w project_arn app pkg branch_s commit_s name
             test_selector template_content cls num_batches batch_idx batches
             arns specs names (done ++ log0)%list)
      = (partial ++ done' ++ log0)%list /\
      scheduled_rounds project_arn app pkg cls done' arns' specs' names' /\
      (List.length arns' <= List.length arns + List.length batches)%nat /\
      match fst (schedule_each w project_arn app pkg branch_s commit_s name
                   test_selector template_content cls num_batches batch_idx
                   batches arns specs names (done ++ log0)%list) with
      | Done (Some (a, s, n)) =>
          partial = [] /\ a = arns' /\ s = specs' /\ n = names' /\
          List.length arns'
          = (List.length arns + List.length batches)%nat
      | Done None => unfinished_round project_arn app pkg cls partial
      | Raised e => e = CannotWrite /\ partial = []
      | SysExit _ => False
      | Monitoring => False
      end.
Proof.
  induction batches as [ | b rest IH];
    intros idx arns specs names done log0 Hdone.
  - exists [], done, arns, specs, names. cbn.
    split; [reflexivity | ]. split; [exact Hdone | ]. split; [lia | ].
    repeat split. lia.
  - cbn [schedule_each]. run_script.
    destruct (can_write w (test_spec_path branch_s commit_s name idx)) eqn:Hw.
    2:{ exists [], done, arns, specs, names. cbn.
        split; [reflexivity | ]. split; [exact Hdone | ]. split; [lia | ].
        now split. }
    cbn [fst snd].
    set (path := test_spec_path branch_s commit_s name idx).
    set (contents := spec_contents template_content test_selector b).
    destruct (upload_apk w (List.length (WriteSpec path contents
                                         :: (done ++ log0)%list))
                project_arn path "INSTRUMENTATION_TEST_SPEC")
      as [spec_arn | ] eqn:Hu.
    2:{ eexists [_; _; _], done, arns, specs, names. cbn.
        split; [reflexivity | ]. split; [exact Hdone | ]. split; [lia | ].
        left. exists path, contents, None. split; [now left | reflexivity]. }
    destruct (String.eqb_spec spec_arn "") as [-> | NEs].
    { eexists [_; _; _], done, arns, specs, names. cbn.
      split; [reflexivity | ]. split; [exact Hdone | ]. split; [lia | ].
      left. exists path, contents, (Some "").
      split; [now right | reflexivity]. }
    cbn [fst snd].
    set (rname := batch_run_name (branch_s ++ "_" ++ commit_s) idx
                    num_batches).
    match goal with
    | |- context [schedule_test_run w ?t app pkg spec_arn cls rname] =>
        destruct (schedule_test_run w t app pkg spec_arn cls rname)
          as [arn | ] eqn:Hr
    end.
    2:{ eexists [_; _; _; _], done, arns, specs, names. cbn.
        split; [reflexivity | ]. split; [exact Hdone | ]. split; [lia | ].
        right. exists path, contents, spec_arn, rname, None.
        split; [assumption | ]. split; [now left | reflexivity]. }
    destruct (String.eqb_spec arn "") as [-> | NEa].
    { eexists [_; _; _; _], done, arns, specs, names. cbn.
      split; [reflexivity | ]. split; [exact Hdone | ]. split; [lia | ].
      right. exists path, contents, spec_arn, rname, (Some "").
      split; [assumption | ]. split; [now right | reflexivity]. }
    cbn [fst snd].
    pose proof (scheduled_more project_arn app pkg cls done arns specs names
                  path contents spec_arn rname arn Hdone NEs NEa) as Hdone'.
    match goal with
    | |- context [schedule_each w _ _ _ _ _ _ _ _ _ _ ?i rest ?a ?s ?n ?l] =>
        change l with
          ((ScheduleRun app pkg spec_arn cls rname (Some arn)
            :: Unlink path
            :: UploadApk project_arn path "INSTRUMENTATION_TEST_SPEC"
                 (Some spec_arn)
            :: WriteSpec path contents :: done) ++ log0)%list;
        destruct (IH i a s n _ log0 Hdone')
          as (partial & done2 & arns2 & specs2 & names2 & Hlog & Hd2 & Hle
              & Hout)
    end.
    exists partial, done2, arns2, specs2, names2.
    split; [exact Hlog | ]. split; [exact Hd2 | ].
    rewrite length_app in Hle. cbn [List.length] in Hle.
    split; [cbn [List.length]; lia | ].
    match goal with
    | |- match fst ?X with _ => _ end =>
        destruct (fst X) as [[[[a s] n] | ] | code | e | ]
    end; try assumption.
    destruct Hout as (-> & -> & -> & -> & Hlen).
    repeat split. rewrite length_app in Hlen. cbn [List.length] in *. lia.
Qed.

Lemma schedule_test_for_pipeline_runs
    (branch commit project_arn device_pool_arn name : string)
    (num_iterations : Z) :
  scheduling_run w project_arn num_iterations
    (fst (schedule_test_for_pipeline w branch commit project_arn
            device_pool_arn name num_iterations []))
    (snd (schedule_test_for_pipeline w branch commit project_arn
            device_pool_arn name num_iterations [])).
Proof.
  unfold schedule_test_for_pipeline.
  assert (Early : forall prelude out,
            Forall preparation prelude ->
            (out = Done None \/ exists e, out = Raised e /\ e <> IndexError) ->
            scheduling_run w project_arn num_iterations out prelude).
  { intros prelude out Hp Ho.
    exists [], [], prelude, "", "", "", [], [], [].
    split; [reflexivity | ]. split; [exact Hp | ]. split; [constructor | ].
    right. split; [reflexivity | ].
    destruct Ho as [-> | Ho]; [left; now split | right; now left]. }
  assert (Hup : forall p path ty r,
            ty <> "INSTRUMENTATION_TEST_SPEC" ->
            preparation (UploadApk p path ty r))
    by (intros; left; now do 4 eexists).
  assert (Fail : forall prelude,
            Forall preparation prelude ->
            scheduling_run w project_arn num_iterations (Done None) prelude)
    by (intros; apply Early; [assumption | now left]).
  assert (Raise : forall prelude e,
            e <> IndexError -> Forall preparation prelude ->
            scheduling_run w project_arn num_iterations (Raised e) prelude)
    by (intros; apply Early; [assumption | right; now eexists]).
  destruct (exists_path w _); cbn [negb];
    [ | apply Fail; constructor].
  destruct (filter _ _) as [ | app_apk app_apks];
    [apply Fail; constructor | ].
  destruct (filter _ _) as [ | test_apk test_apks];
    [apply Fail; constructor | ].
  destruct (select_test _ _) as [selected_test | ] eqn:Esel;
    [ | apply Fail; constructor].
  destruct (test_execution_config w) as [[batch_size retries] | ] eqn:Ec;
    [ | apply Raise; [discriminate | constructor]].
  run_script.
  destruct (num_batches num_iterations batch_size) as [nb | ] eqn:En;
    [ | apply Raise; [discriminate | constructor]].
  cbn [fst snd List.length].
  destruct (upload_apk w 0 project_arn (apk_path app_apk) "ANDROID_APP")
    as [app_arn | ]; cbn [fst snd];
    [ | apply Fail; ups_tac Hup].
  destruct (String.eqb_spec app_arn "") as [-> | NEa]; cbn [fst snd];
    [apply Fail; ups_tac Hup | ].
  cbn [fst snd List.length].
  destruct (upload_apk w 1 project_arn (apk_path test_apk)
              "INSTRUMENTATION_TEST_PACKAGE") as [pkg_arn | ]; cbn [fst snd];
    [ | apply Fail; ups_tac Hup].
  destruct (String.eqb_spec pkg_arn "") as [-> | NEp]; cbn [fst snd];
    [apply Fail; ups_tac Hup | ].
  destruct (spec_template w) as [ | | template_content] eqn:Etmpl;
    cbn [fst snd];
    [apply Fail; ups_tac Hup
    | apply Raise; [discriminate | ups_tac Hup]
    | ].
  match goal with
  | |- context [schedule_each w ?p ?a ?k ?b ?c ?n ?sel ?t ?cl ?nbs ?i ?bs
                  [] [] [] ?l] =>
      destruct (schedule_each_log p a k b c n sel t cl nbs bs i [] [] [] []
                  l (scheduled_none p a k cl))
        as (partial & done & arns & specs & names & Hlog & Hdone & Hle
            & Hout);
      cbn [List.app] in Hlog, Hout;
      destruct (schedule_each w p a k b c n sel t cl nbs i bs [] [] [] l)
        as [out1 log1] eqn:Eeach
  end.
  cbn [fst snd] in Hlog, Hout. subst log1.
  assert (Hprelude : Forall preparation
            [UploadApk project_arn (apk_path test_apk)
               "INSTRUMENTATION_TEST_PACKAGE" (Some pkg_arn);
             UploadApk project_arn (apk_path app_apk) "ANDROID_APP"
               (Some app_arn)]) by ups_tac Hup.
  destruct out1 as [[[[a s] n] | ] | code | e | ]; cbn [fst snd].
  - destruct Hout as (-> & -> & -> & -> & Hlen).
    cbn [List.length Nat.add] in Hlen.
    rewrite (BatchPlannerFacts.batches_of_length nb num_iterations batch_size)
      in Hlen.
    exists [], done. do 7 eexists.
    split; [reflexivity | ]. split; [exact Hprelude | ].
    split; [exact Hdone | ]. right. split; [reflexivity | ].
    right. right. exists batch_size, retries, nb.
    split; [exact Ec | ]. split; [exact En | ].
    split; [exact Hlen | reflexivity].
  - exists partial, done. do 7 eexists.
    split; [reflexivity | ]. split; [exact Hprelude | ].
    split; [exact Hdone | ]. left. now split.
  - destruct Hout.
  - destruct Hout as [-> ->].
    exists [], done. do 7 eexists.
    split; [reflexivity | ]. split; [exact Hprelude | ].
    split; [exact Hdone | ]. right. split; [reflexivity | ].
    right. left. eexists. split; [reflexivity | discriminate].
  - destruct Hout.
Qed.

End Loops.

Lemma preparation_kind (c : call) :
  preparation c ->
  is_schedule c = false /\ is_monitor c = false /\
  spec_uploaded_ok c = false /\
  (forall path contents, c <> WriteSpec path contents).
Proof.
  intros [(p & path & ty & r & -> & Hty) | (parts & ->)]; cbn.
  - repeat split; try discriminate.
    destruct r as [a | ]; [ | reflexivity].
    destruct (String.eqb_spec ty "INSTRUMENTATION_TEST_SPEC");
      [contradiction | reflexivity].
  - repeat split; discriminate.
Qed.

Lemma schedule_calls_kind app pkg cls specs names indexes arns :
  Forall (fun a => a <> "") arns ->
  Forall (fun c => is_schedule c = true /\ scheduled_ok c = true /\
                   is_upload c = false /\ is_monitor c = false)
         (schedule_calls app pkg cls specs names indexes arns).
Proof.
  intros H. revert indexes. induction H as [ | a arns Ha H IH];
    intros [ | i indexes]; cbn; constructor; auto.
  cbn. now destruct (String.eqb_spec a "").
Qed.

Lemma schedule_calls_nth app pkg cls specs names (len : nat) :
  forall (start : nat) (arns : list string) (i : nat),
    List.length arns = len -> (i < len)%nat ->
    In (ScheduleRun app pkg (nth (start + i) specs "") cls
          (nth (start + i) names "") (Some (nth i arns "")))
       (schedule_calls app pkg cls specs names
          (map Z.of_nat (seq start len)) arns).
Proof.
  induction len as [ | len IH]; intros start arns i Hlen Hi; [lia | ].
  destruct arns as [ | a arns]; [discriminate | ].
  cbn [seq map schedule_calls]. rewrite Nat2Z.id.
  destruct i as [ | i].
  - left. now rewrite Nat.add_0_r.
  - right. cbn [nth]. replace (start + S i)%nat with (S start + i)%nat by lia.
    apply IH; [now injection Hlen | lia].
Qed.

(** Where an element of the front part of a list is. *)
Lemma split_front {A : Type} (P : A -> Prop) (front back : list A) :
  Forall (fun x => ~ P x) back ->
  forall after c before,
    (front ++ back)%list = (after ++ c :: before)%list -> P c ->
    exists front', front = (after ++ c :: front')%list /\
                   before = (front' ++ back)%list.
Proof.
  intros Hback after. revert front.
  induction after as [ | a after IH]; intros front c before E Hc.
  - destruct front as [ | x front].
    + cbn in E. subst back. inversion Hback; contradiction.
    + injection E as -> E. now exists front.
  - destruct front as [ | x front].
    + cbn in E. subst back. rewrite Forall_forall in Hback.
      destruct (Hback c); [ | assumption].
      right. apply in_or_app. right. now left.
    + injection E as -> E. destruct (IH front c before E Hc) as (f' & -> & ->).
      now exists f'.
Qed.

(** Where an element of the middle part of a list is. *)
Lemma split_middle {A : Type} (P : A -> Prop) (front middle back : list A) :
  Forall (fun x => ~ P x) front -> Forall (fun x => ~ P x) back ->
  forall after c before,
    (front ++ middle ++ back)%list = (after ++ c :: before)%list -> P c ->
    exists a' b', middle = (a' ++ c :: b')%list /\
                  after = (front ++ a')%list /\
                  before = (b' ++ back)%list.
Proof.
  intros Hfront Hback. induction Hfront as [ | x front Hx Hfront IH];
    intros after c before E Hc.
  - cbn in E. destruct (split_front P middle back Hback after c before E Hc)
      as (m' & -> & ->). now exists after, m'.
  - destruct after as [ | a after].
    + injection E as -> _. contradiction.
    + injection E as -> E. destruct (IH after c before E Hc)
        as (a' & b' & -> & -> & ->). now exists a', b'.
Qed.

Lemma written_none (l : list call) :
  Forall (fun c => forall path contents, c <> WriteSpec path contents) l ->
  written l = [].
Proof.
  induction 1 as [ | c l Hc H IH]; [reflexivity | ].
  destruct c; cbn [written]; try assumption. now destruct (Hc spec_path contents).
Qed.

Lemma filter_none {A : Type} (f : A -> bool) (l : list A) :
  Forall (fun x => f x = false) l -> filter f l = [].
Proof.
  induction 1 as [ | x l Hx H IH]; [reflexivity | ].
  cbn. now rewrite Hx.
Qed.

Lemma Forall_imp_in {A : Type} (P : A -> Prop) (l : list A) (x : A) :
  Forall P l -> In x l -> P x.
Proof. rewrite Forall_forall. auto. Qed.

End OrchestrationFacts.

Module OrchestrationClaims.
Import Ascii String PyNum PyStr PyText Naming BatchPlanner DeviceFarm
       DictFacts MonitorExtras Orchestration OrchestrationFacts
       OrchestrationLog.
Local Open Scope string_scope.














End OrchestrationClaims.

(* ------------------------------------------------------------------ *)
(** * Facts on the selection of the test *)
(* ------------------------------------------------------------------ *)


Module TestSelection.
Import Ascii String PyStr PyText Naming DeviceFarm Orchestration
       OrchestrationLog.
Local Open Scope string_scope.

Lemma tests_of_class_malformed (class_name : string) (l : list yaml_test) :
  (exists t, In t l /\ yaml_name t = None) ->
  tests_of_class class_name l = None.
Proof.
  induction l as [ | t l IH]; intros (t' & Hin & Hn); [destruct Hin | ].
  cbn. destruct Hin as [-> | Hin].
  - now rewrite Hn.
  - destruct (yaml_name t); [ | reflexivity].
    rewrite IH; [reflexivity | now exists t'].
Qed.

Lemma tests_of_classes_malformed (l : list yaml_class) (c : yaml_class) :
  In c l -> malformed c -> tests_of_classes l = None.
Proof.
  induction l as [ | c' l IH]; intros Hin Hc; [destruct Hin | ].
  cbn. destruct Hin as [-> | Hin].
  - destruct Hc as [-> | Hc]; [reflexivity | ].
    destruct (yaml_class_name c); [ | reflexivity].
    now rewrite tests_of_class_malformed.
  - rewrite (IH Hin Hc). destruct (yaml_class_name c'); [ | reflexivity].
    now destruct (tests_of_class _ _).
Qed.

Lemma tests_of_class_none (class_name : string) (l : list yaml_test) :
  tests_of_class class_name l = None ->
  exists t, In t l /\ yaml_name t = None.
Proof.
  induction l as [ | t l IH]; [discriminate | ].
  cbn. destruct (yaml_name t) eqn:En.
  - destruct (tests_of_class class_name l); [discriminate | ].
    intros _. destruct (IH eq_refl) as (t' & H1 & H2). exists t'.
    split; [now right | assumption].
  - intros _. exists t. split; [now left | assumption].
Qed.

Lemma tests_of_classes_none (l : list yaml_class) :
  tests_of_classes l = None -> exists c, In c l /\ malformed c.
Proof.
  induction l as [ | a l IH]; [discriminate | ].
  cbn. destruct (yaml_class_name a) as [cn | ] eqn:Ecn.
  2:{ intros _. exists a. split; [now left | now left]. }
  destruct (tests_of_class cn (yaml_tests a)) eqn:Eta.
  - destruct (tests_of_classes l); [discriminate | ].
    intros _. destruct (IH eq_refl) as (c & H1 & H2). exists c.
    split; [now right | assumption].
  - intros _. exists a. split; [now left | ]. right.
    now apply tests_of_class_none in Eta.
Qed.

Lemma tests_of_class_names (class_name : string) (l : list yaml_test) :
  forall tests, tests_of_class class_name l = Some tests ->
    Forall (fun t => test_class t = class_name /\
                     full_name t = class_name ++ "#" ++ test_name t) tests /\
    map (fun t => Some (test_name t)) tests = map yaml_name l.
Proof.
  induction l as [ | t l IH]; intros tests E; cbn in E.
  - injection E as <-. split; constructor.
  - destruct (yaml_name t) as [n | ] eqn:En; [ | discriminate].
    destruct (tests_of_class class_name l) as [more | ]; [ | discriminate].
    injection E as <-. destruct (IH more eq_refl) as [H1 H2].
    split; [constructor; [now split | assumption] | ].
    cbn. now rewrite H2, En.
Qed.

Lemma select_test_app (name : string) (l1 l2 : list benchmark_test) :
  select_test name (l1 ++ l2)
  = match select_test name l1 with
    | Some t => Some t
    | None => select_test name l2
    end.
Proof.
  induction l1 as [ | t l1 IH]; [reflexivity | ].
  cbn. now destruct (test_name t =? name).
Qed.

Lemma select_test_none (name : string) (l : list benchmark_test) :
  ~ In (Some name) (map (fun t => Some (test_name t)) l) ->
  select_test name l = None.
Proof.
  induction l as [ | t l IH]; intros H; [reflexivity | ].
  cbn in *. destruct (String.eqb_spec (test_name t) name) as [E | NE].
  - destruct H. left. now rewrite E.
  - apply IH. intros H'. apply H. now right.
Qed.

Lemma select_test_some (name : string) (l : list benchmark_test) :
  In (Some name) (map (fun t => Some (test_name t)) l) ->
  exists t, select_test name l = Some t /\ In t l /\ test_name t = name.
Proof.
  induction l as [ | t l IH]; intros H; [destruct H | ].
  cbn in *. destruct (String.eqb_spec (test_name t) name) as [E | NE].
  - exists t. repeat split; [now left | assumption].
  - destruct H as [[= H] | H]; [contradiction | ].
    destruct (IH H) as (t' & H1 & H2 & H3). exists t'.
    repeat split; [assumption | now right | assumption].
Qed.

Section Commands.

Variable w : world.


End Commands.




End TestSelection.

(* ------------------------------------------------------------------ *)
(** * Facts on cloning *)
(* ------------------------------------------------------------------ *)


Module ClonerFacts.
Import Ascii String PyText TextFacts Cloner.
Local Open Scope string_scope.

(** What comes before the first replaced occurrence is kept. *)
Lemma prefix_of_replaced (old new t : string) :
  old <> "" ->
  (forall c, prefix (String c "") new = true ->
             contains (String c "") t = false) ->
  new <> "" ->
  forall s, prefix t (replace_from old new 0 s) = true -> prefix t s = true.
Proof.
  intros Hold Hnew Hne. induction t as [ | a t IH]; intros s H;
    [apply prefix_nil | ].
  destruct s as [ | c s]; [discriminate H | ].
  cbn [replace_from] in H.
  destruct (prefix old (String c s)) eqn:Ep.
  - exfalso. destruct new as [ | n new]; [contradiction | ].
    cbn [append] in H. rewrite prefix_cons in H.
    destruct (ascii_dec a n) as [-> | ]; [ | discriminate].
    specialize (Hnew n). rewrite prefix_cons, prefix_nil in Hnew.
    destruct (ascii_dec n n); [ | contradiction].
    specialize (Hnew eq_refl). rewrite contains_char_cons in Hnew.
    destruct (ascii_dec n n); [discriminate | contradiction].
  - rewrite prefix_cons in H |- *.
    destruct (ascii_dec a c); [ | discriminate].
    apply IH; [ | assumption].
    intros c' Hc'. specialize (Hnew c' Hc').
    rewrite contains_char_cons in Hnew.
    now apply orb_false_iff in Hnew.
Qed.

Lemma contains_cons (t : string) (c : ascii) (s : string) :
  contains t (String c s) = prefix t (String c s) || contains t s.
Proof. reflexivity. Qed.

(** A text without a character of [new] does not begin inside [new ++ s]
    unless it occurs in [s]. *)
Lemma contains_after_new (t new s : string) :
  t <> "" ->
  (forall c, contains (String c "") new = true ->
             contains (String c "") t = false) ->
  contains t s = false -> contains t (new ++ s) = false.
Proof.
  intros Ht Hnew Hs. induction new as [ | n new IH]; [exact Hs | ].
  cbn [append]. rewrite contains_cons. apply orb_false_iff. split.
  - destruct t as [ | a t]; [contradiction | ]. rewrite prefix_cons.
    destruct (ascii_dec a n) as [-> | ]; [ | reflexivity].
    specialize (Hnew n). rewrite !contains_char_cons in Hnew.
    destruct (ascii_dec n n); [ | contradiction].
    now specialize (Hnew eq_refl).
  - apply IH. intros c Hc. apply Hnew. rewrite contains_char_cons, Hc.
    apply orb_true_r.
Qed.

(** No occurrence of the replaced text is left, when the replacement shares
    no character with it. *)
Lemma replaced_is_gone (old new : string) :
  old <> "" -> new <> "" ->
  (forall c, contains (String c "") new = true ->
             contains (String c "") old = false) ->
  forall s skip, contains old (replace_from old new skip s) = false.
Proof.
  intros Hold Hne Hnew. induction s as [ | c s IH]; intros skip.
  - cbn. destruct old; [contradiction | reflexivity].
  - cbn [replace_from]. destruct skip as [ | k]; [ | apply IH].
    destruct (prefix old (String c s)) eqn:Ep.
    + apply contains_after_new; [assumption | assumption | apply IH].
    + rewrite contains_cons, IH, orb_false_r.
      destruct (prefix old (String c (replace_from old new 0 s))) eqn:Eq;
        [ | reflexivity].
      rewrite <- Ep. symmetry.
      apply (prefix_of_replaced old new old Hold); [ | assumption | ].
      * intros c' Hc'. apply Hnew. destruct new as [ | n new];
          [contradiction | ].
        rewrite prefix_cons, prefix_nil in Hc'. rewrite contains_char_cons.
        now destruct (ascii_dec c' n).
      * cbn [replace_from]. now rewrite Ep.
Qed.

Lemma prefix_app_cases (t p m : string) :
  prefix t (p ++ m) = true ->
  prefix t p = true \/ exists t', t = p ++ t'.
Proof.
  revert t. induction p as [ | a p IH]; intros t H.
  - right. now exists t.
  - destruct t as [ | b t]; [left; apply prefix_nil | ].
    cbn [append] in H. rewrite prefix_cons in H |- *.
    destruct (ascii_dec b a) as [-> | ]; [ | discriminate].
    destruct (IH t H) as [Hp | (t' & ->)]; [now left | ].
    right. now exists t'.
Qed.

(** An occurrence in [p ++ c ++ m] of a text without the character [c] is
    in [p ++ c] or in [m]. *)
Lemma contains_across (t p m : string) (c : ascii) :
  contains (String c "") t = false ->
  contains t ((p ++ String c "") ++ m) = true ->
  contains t (p ++ String c "") = true \/ contains t m = true.
Proof.
  intros Hc. induction p as [ | a p IH]; intros H.
  - cbn [append] in H |- *. rewrite contains_cons in H.
    apply orb_true_iff in H as [H | H]; [ | now right].
    destruct t as [ | b t]; [left; reflexivity | ].
    rewrite prefix_cons in H. rewrite contains_char_cons in Hc.
    destruct (ascii_dec b c) as [-> | ]; [ | discriminate].
    destruct (ascii_dec c c); [discriminate | contradiction].
  - change ((String a p ++ String c "") ++ m)
      with (String a ((p ++ String c "") ++ m)) in H.
    change (String a p ++ String c "") with (String a (p ++ String c "")).
    rewrite contains_cons in H |- *.
    apply orb_true_iff in H as [H | H].
    + change (String a ((p ++ String c "") ++ m))
        with (String a (p ++ String c "") ++ m) in H.
      apply prefix_app_cases in H as [H | (t' & ->)].
      * left. now rewrite H.
      * exfalso. change (String a (p ++ String c "") ++ t')
          with (String a ((p ++ String c "") ++ t')) in Hc.
        rewrite contains_char_cons, !contains_char_app in Hc.
        rewrite contains_char_cons in Hc.
        destruct (ascii_dec c c); [ | contradiction].
        cbn [orb] in Hc. rewrite !orb_true_r in Hc. discriminate.
    + destruct (IH H) as [H' | H']; [ | now right].
      left. rewrite H'. apply orb_true_r.
Qed.



(** ** The URL with the token *)

Lemma replace_from_skip (old new s t : string) :
  replace_from old new (length s) (s ++ t) = replace_from old new 0 t.
Proof.
  induction s as [ | c s IH]; [reflexivity | ].
  cbn [append length replace_from]. exact IH.
Qed.

Lemma replace_from_absent (old new s : string) :
  contains old s = false -> replace_from old new 0 s = s.
Proof.
  induction s as [ | c s IH]; [reflexivity | ].
  rewrite contains_cons. intros H. apply orb_false_iff in H as [Hp Hs].
  cbn [replace_from]. now rewrite Hp, IH.
Qed.

Lemma replace_from_head (old new s : string) (a : ascii) (old' : string) :
  old = String a old' ->
  replace_from old new 0 (old ++ s) = new ++ replace_from old new 0 s.
Proof.
  intros ->. cbn [append replace_from].
  change (String a (old' ++ s)) with (String a old' ++ s).
  rewrite prefix_refl. cbn [length Nat.sub]. rewrite Nat.sub_0_r.
  now rewrite replace_from_skip.
Qed.



End ClonerFacts.

(* ------------------------------------------------------------------ *)
(** * Facts on the name of the device pool *)
(* ------------------------------------------------------------------ *)


Module PoolFacts.
Import Ascii String PyText TextFacts Orchestration.
Local Open Scope string_scope.

(** [s.split(sep)]: one part when [sep] does not occur, otherwise the text
    ends with [sep] followed by the last part, which holds no [sep]. *)
Lemma split_parts (sep : ascii) (s : string) :
  exists head tail,
    split sep s = head :: tail /\
    (tail = [] -> head = s /\ contains (String sep "") s = false) /\
    (tail <> [] ->
     contains (String sep "") s = true /\
     contains (String sep "") (last tail "") = false /\
     exists pre, s = pre ++ String sep (last tail "")).
Proof.
  induction s as [ | c s IH].
  - exists "", []. cbn. repeat split; congruence.
  - destruct IH as (h & t & E & H1 & H2). cbn [split]. rewrite E.
    rewrite contains_char_cons.
    destruct (Ascii.eqb_spec c sep) as [-> | NE].
    + exists "", (h :: t). split; [reflexivity | ].
      split; [discriminate | ]. intros _.
      destruct (ascii_dec sep sep); [ | contradiction].
      split; [reflexivity | ].
      destruct t as [ | h' t'].
      * destruct (H1 eq_refl) as [-> Hc]. cbn [last].
        split; [assumption | ]. now exists "".
      * destruct (H2 ltac:(discriminate)) as (_ & Hc & pre & ->).
        change (last (h :: h' :: t') "") with (last (h' :: t') "").
        split; [assumption | ]. now exists (String sep pre).
    + exists (String c h), t. split; [reflexivity | ].
      destruct (ascii_dec sep c) as [E' | _]; [congruence | ].
      cbn [orb]. split.
      * intros Ht. destruct (H1 Ht) as [-> Hc]. now split.
      * intros Ht. destruct (H2 Ht) as (Hc1 & Hc & pre & ->).
        split; [assumption | ]. split; [assumption | ].
        now exists (String c pre).
Qed.


End PoolFacts.

Module BatchPlannerExamples.
Import BatchPlanner.

Example plan_150_50 : plan_batches 150 50 = Some [50; 50; 50].
Proof. vm_compute. reflexivity. Qed.

Example plan_125_50 : plan_batches 125 50 = Some [50; 50; 25].
Proof. vm_compute. reflexivity. Qed.

Example plan_30_50 : plan_batches 30 50 = Some [30].
Proof. vm_compute. reflexivity. Qed.

Example plan_1_3 : plan_batches 1 3 = Some [1].
Proof. vm_compute. reflexivity. Qed.

Example plan_big :
  plan_batches 30000000000000001 10000000000000000
  = Some [10000000000000000; 10000000000000000; 10000000000000000].
Proof. vm_compute. reflexivity. Qed.

Example plan_zero_size : plan_batches 10 0 = None.
Proof. reflexivity. Qed.

End BatchPlannerExamples.
